(** * Link graph of biotech-youtube.py: canonical links, clusters, layout

    A shallow embedding of the graph subsystem of [biotech-youtube.py]
    ([_shorten_link] and the class [GraphCreator]) together with the
    properties its specification states about it, followed by the
    functions around it: the summaries of links, the lists of names, the
    hashing and the anonymization of names, the collection of links and
    comments, and the run of the script on the data of the pages.

    Conventions of the embedding.
    - A Python [str] is a [string] of bytes; [str.lower] acts on the ASCII
      letters.
    - A Python [dict] whose iteration order is observed is an association
      list in first-insertion order ([odict]); one that is only looked up
      is a [gmap].
    - An exception is the left injection of [result]; the mutable fields of
      a [GraphCreator] instance are threaded explicitly.
    - Library routines the script calls ([urlparse], [textwrap.wrap],
      [urllib.parse.quote], [hashlib.md5], the [findall] of a compiled
      pattern, iteration over a [set]) are parameters of the sections
      below; small executable instances of them are given for running the
      model on concrete inputs.
    - A file that the script writes is the pair of its name and its
      text. *)

From Stdlib Require Import ZArith Lia Ascii String DecimalString.
From stdpp Require Import base option list gmap strings sorting.

Set Default Proof Using "Type".

(** ** Exceptions *)

Inductive exn : Type :=
  | KeyError (key : string)
  | IndexError
  | ValueError
  | AttributeError
  | TypeError.

Definition result (A : Type) : Type := (exn + A)%type.

Definition raise {A} (e : exn) : result A := inl e.

#[global] Instance result_ret : MRet result := λ A a, inr a.
#[global] Instance result_bind : MBind result :=
  λ A B f m, match m with inl e => inl e | inr a => f a end.
#[global] Instance result_fmap : FMap result :=
  λ A B f m, match m with inl e => inl e | inr a => inr (f a) end.

(** [d[k]] on a looked-up dictionary: [KeyError] when the key is absent. *)
Definition getitem {V} (shown : string) (o : option V) : result V :=
  match o with Some v => inr v | None => raise (KeyError shown) end.

(** ** Python strings *)

Module Str.

Definition NL : ascii := "010"%char.
Definition DQ : ascii := "034"%char.
Definition BSL : ascii := "092"%char.

Definition nl : string := String NL "".
Definition dq : string := String DQ "".
(** The two characters backslash, n. *)
Definition esc_nl : string := String BSL "n".

Definition is_upper (c : ascii) : bool :=
  let n := nat_of_ascii c in (65 <=? n) && (n <=? 90).

Definition lower_char (c : ascii) : ascii :=
  if is_upper c then ascii_of_nat (nat_of_ascii c + 32) else c.

(** [s.lower()] *)
Fixpoint lower (s : string) : string :=
  match s with
  | EmptyString => EmptyString
  | String c s' => String (lower_char c) (lower s')
  end.

(** [s.startswith(p)] *)
Fixpoint startswith (p s : string) : bool :=
  match p, s with
  | EmptyString, _ => true
  | String a p', String b s' => if decide (a = b) then startswith p' s' else false
  | String _ _, EmptyString => false
  end.

(** The rest of [s] after its prefix [p], when [s] starts with [p]. *)
Fixpoint strip_prefix (p s : string) : option string :=
  match p, s with
  | EmptyString, _ => Some s
  | String a p', String b s' => if decide (a = b) then strip_prefix p' s' else None
  | String _ _, EmptyString => None
  end.

(** [sub in s] *)
Fixpoint contains (sub s : string) : bool :=
  startswith sub s ||
  match s with
  | EmptyString => false
  | String _ s' => contains sub s'
  end.

(** [c in s] for a single character. *)
Fixpoint has_char (c : ascii) (s : string) : bool :=
  match s with
  | EmptyString => false
  | String a s' => if decide (a = c) then true else has_char c s'
  end.

(** Leftmost, non-overlapping replacement; [skip] counts the characters of
    a match that are still to be passed over. *)
Fixpoint replace_go (old new s : string) (skip : nat) : string :=
  match s with
  | EmptyString => EmptyString
  | String c s' =>
      match skip with
      | S k => replace_go old new s' k
      | O =>
          if startswith old s
          then new +:+ replace_go old new s' (String.length old - 1)
          else String c (replace_go old new s' 0)
      end
  end.

Fixpoint interleave (new s : string) : string :=
  match s with
  | EmptyString => EmptyString
  | String c s' => String c (new +:+ interleave new s')
  end.

(** [s.replace(old, new)] *)
Definition replace (old new s : string) : string :=
  match old with
  | EmptyString => new +:+ interleave new s
  | _ => replace_go old new s 0
  end.

(** [sep.join(parts)] *)
Fixpoint join (sep : string) (parts : list string) : string :=
  match parts with
  | [] => EmptyString
  | [p] => p
  | p :: ps => p +:+ sep +:+ join sep ps
  end.

(** [s.split(sep)] for a one-character separator; [cur] is the piece
    being read. *)
Fixpoint split_go (sep : ascii) (cur : string) (s : string) : list string :=
  match s with
  | EmptyString => [String.rev cur]
  | String c s' =>
      if decide (c = sep) then String.rev cur :: split_go sep EmptyString s'
      else split_go sep (String c cur) s'
  end.

Definition split (sep : ascii) (s : string) : list string :=
  split_go sep EmptyString s.

(** [str(n)] for an [int]. *)
Definition of_Z (n : Z) : string := NilZero.string_of_int (Z.to_int n).

(** Truth value of a string: empty is false. *)
Definition truthy (s : string) : bool :=
  match s with EmptyString => false | _ => true end.

End Str.

(** ** Regular expressions used by the script

    Each pattern of the script is embedded as the matcher it denotes. *)

Module Re.

(** [re.sub('www\.', '', l)]: every leftmost non-overlapping occurrence of
    the literal [www.] is deleted. *)
Definition sub_www (l : string) : string := Str.replace "www." "" l.

Fixpoint skip_s (s : string) : string :=
  match s with
  | EmptyString => EmptyString
  | String c s' => if decide (c = "s"%char) then skip_s s' else s
  end.

(** [re.sub('^https*://', '', l)]: [http], any number of [s], [://], at
    the start of the string only. *)
Definition sub_http_scheme (l : string) : string :=
  match Str.strip_prefix "http" l with
  | Some r =>
      match Str.strip_prefix "://" (skip_s r) with
      | Some r' => r'
      | None => l
      end
  | None => l
  end.

(** [re.search('^(.*?)/', l)], group 1: the text before the first [/],
    provided no newline comes before it ([.] does not match a newline). *)
Fixpoint search_dom_start (l : string) : option string :=
  match l with
  | EmptyString => None
  | String c r =>
      if decide (c = "/"%char) then Some EmptyString
      else if decide (c = Str.NL) then None
      else String c <$> search_dom_start r
  end.

(** [re.search('[^.]+\.[^.]+$', domain)], group 0: the last two
    dot-separated labels, when both are non-empty. *)
Definition search_last_two_labels (domain : string) : option string :=
  match reverse (Str.split "."%char domain) with
  | y :: x :: _ =>
      if Str.truthy x && Str.truthy y then Some (x +:+ "." +:+ y) else None
  | _ => None
  end.

(** [re.sub('[^A-Za-z ]+', '', text)]: only ASCII letters and spaces are
    kept. *)
Definition is_letter_or_space (c : ascii) : bool :=
  let n := nat_of_ascii c in
  ((65 <=? n) && (n <=? 90)) || ((97 <=? n) && (n <=? 122)) || (n =? 32).

Fixpoint keep_letters_and_spaces (text : string) : string :=
  match text with
  | EmptyString => EmptyString
  | String c r =>
      if is_letter_or_space c then String c (keep_letters_and_spaces r)
      else keep_letters_and_spaces r
  end.

End Re.

(** ** [urllib.parse.urlparse(l).netloc]

    An executable instance of the library routine, following
    [urllib.parse.urlsplit]: a scheme is the text before the first [:]
    when it is non-empty and made of scheme characters; the network
    location is what follows a leading [//] up to the first of [/?#];
    an unbalanced square bracket in it raises [ValueError]. The removal
    of control characters that recent versions of the library perform
    first, and their checks on the first character of a scheme and on
    non-ASCII hosts, are left out; [_shorten_link] itself takes the
    routine as a parameter. *)

Module Urlparse.

Definition scheme_char (c : ascii) : bool :=
  let n := nat_of_ascii c in
  ((65 <=? n) && (n <=? 90)) || ((97 <=? n) && (n <=? 122)) ||
  ((48 <=? n) && (n <=? 57)) || (n =? 43) || (n =? 45) || (n =? 46).

(** The text after the scheme and its colon, when [url] starts with a
    scheme; [seen] tells whether a character of the scheme was read. *)
Fixpoint after_scheme (seen : bool) (url : string) : option string :=
  match url with
  | EmptyString => None
  | String c r =>
      if decide (c = ":"%char) then (if seen then Some r else None)
      else if scheme_char c then after_scheme true r
      else None
  end.

Definition is_delim (c : ascii) : bool :=
  bool_decide (c = "/"%char) || bool_decide (c = "?"%char) || bool_decide (c = "#"%char).

Fixpoint until_delim (s : string) : string :=
  match s with
  | EmptyString => EmptyString
  | String c r => if is_delim c then EmptyString else String c (until_delim r)
  end.

Definition netloc (url : string) : result string :=
  let url := default url (after_scheme false url) in
  match url with
  | String "/"%char (String "/"%char r) =>
      let loc := until_delim r in
      if xorb (Str.has_char "["%char loc) (Str.has_char "]"%char loc)
      then raise ValueError
      else mret loc
  | _ => mret EmptyString
  end.

End Urlparse.

(** ** Identity / canonicalization: [_shorten_link] *)

Section ShortenLink.

(** [urlparse(l).netloc] *)
Variable urlparse_netloc : string → result string.

Definition _shorten_link (l : string) : result (string * string) :=
  let l := Re.sub_www (Str.lower l) in
  domain ← urlparse_netloc l;
  let domain :=
    if Str.truthy domain
    then default domain (Re.search_last_two_labels domain)
    else default domain (Re.search_dom_start l) in
  let l := Re.sub_http_scheme l in
  mret (l, domain).

End ShortenLink.

(** ** Dictionaries in insertion order *)

Module ODict.
Section odict.
Context {K V : Type} `{EqDecision K}.

(** [d.get(k)] *)
Fixpoint get (k : K) (d : list (K * V)) : option V :=
  match d with
  | [] => None
  | (k', v) :: d' => if decide (k' = k) then Some v else get k d'
  end.

(** [d[k] = v]: an existing key keeps its place, a new one goes last. *)
Fixpoint set (k : K) (v : V) (d : list (K * V)) : list (K * V) :=
  match d with
  | [] => [(k, v)]
  | (k', v') :: d' =>
      if decide (k' = k) then (k', v) :: d' else (k', v') :: set k v d'
  end.

(** [d.keys()] *)
Definition keys (d : list (K * V)) : list K := d.*1.
End odict.

(** The idiom [try: d[k].append(x) / except KeyError: d[k] = [x]]. *)
Definition append {K A} `{EqDecision K} (k : K) (x : A)
    (d : list (K * list A)) : list (K * list A) :=
  match get k d with
  | Some xs => set k (xs ++ [x]) d
  | None => set k [x] d
  end.

(** The idiom [try: d[k] += 1 / except KeyError: d[k] = 1]. *)
Definition incr {K} `{EqDecision K} (k : K) (d : list (K * Z)) : list (K * Z) :=
  match get k d with
  | Some n => set k (n + 1)%Z d
  | None => set k 1%Z d
  end.
End ODict.

Abbreviation odict K V := (list (K * V)).

(** ** Stable sorting, as [sorted(..., key=..., reverse=True)] *)

Section StableSort.
Context {A : Type} (key : A → Z).

(** [x] is placed before the first element whose key does not exceed
    its own, hence before every later element of equal key. *)
Fixpoint insert_desc (x : A) (l : list A) : list A :=
  match l with
  | [] => [x]
  | y :: l' => if (key y <=? key x)%Z then x :: l else y :: insert_desc x l'
  end.

Definition sorted_desc (l : list A) : list A := foldr insert_desc [] l.
End StableSort.

(** ** Module-level configuration *)

Definition STARTING_CLUSTER : string := "youtube".
Definition default_MAX_NODE_LINE_LENGTH : nat := 25.
Definition default_MAX_NODES_IN_COLUMN : Z := 15.
Definition default_BASE_EDGE_WIDTH : Z := 2.
Definition default_MINIMIZE_EDGE_NUMBER : bool := false.

(** The [__main__] tables of the script. *)
Definition main_SPECIAL_USER_STYLING : gmap string (string * string) :=
  list_to_map
    [ ("98f9ede02a07db6f8dd00f2e353425e5", ("Popeye", "#ff3838"));
      ("f355412e8b732753092138c24e617d18", ("David", "#ffd954"));
      ("3364ba675ce232d4b03e50d00f6492fc", ("Duke", "#7aebf2"));
      ("9a4da08a4dcdaba6443da1c945faf54b", ("dsn...", "yellow"));
      ("7a3f555fc2bd434044328f00b53b73d5", ("River", "green"));
      ("aa6aa6b289cd1a84fe455a304c2c3fac", ("Uyop", "#db6ae8"));
      ("b0eadcafa7b709e6770e960d0c25fe03", ("Peer", "#c44ee6")) ].

Definition main_WEBSITES_TO_CLUSTERS : odict string string :=
  [ ("geneticliteracyproject", "color=" +:+ Str.dq +:+ "#8caff3" +:+ Str.dq +:+ ",fontcolor=black");
    ("youtube|youtu.be", "color=red,fontcolor=black");
    ("polityka", "color=green,fontcolor=black");
    ("risk-monger", "color=" +:+ Str.dq +:+ "#eab87d" +:+ Str.dq +:+ ",fontcolor=black");
    ("allianceforscience", "color=" +:+ Str.dq +:+ "#7de1ea" +:+ Str.dq +:+ ",fontcolor=black");
    ("gmoanswers", "color=" +:+ Str.dq +:+ "#b94ba8" +:+ Str.dq +:+ ",fontcolor=black");
    ("biofortified", "color=" +:+ Str.dq +:+ "#7dea7f" +:+ Str.dq +:+ ",fontcolor=black");
    ("monsanto.com|monsantoblog.eu", "color=" +:+ Str.dq +:+ "#64045e" +:+ Str.dq +:+ ",fontcolor=white");
    ("academicsreview", "color=" +:+ Str.dq +:+ "#41a648" +:+ Str.dq +:+ ",fontcolor=white");
    ("acsh", "color=" +:+ Str.dq +:+ "#763752" +:+ Str.dq +:+ ",fontcolor=white") ].

(** ** The compiled pattern [website_name_re]

    [re.compile('(k1|k2|...)')] over the keys of the cluster map: an
    alternation whose branches are the [|]-separated pieces of the keys.
    A branch is read as a literal text in which [.] stands for any
    character but a newline (the keys of the script use no other
    metacharacter). [search] returns group 1 of the leftmost match, the
    branches being tried in order at each position. *)

Module NameRe.

Definition compile (special_domains : list string) : list string :=
  Str.split "|"%char (Str.join "|" special_domains).

Fixpoint match_here (pat s : string) : option string :=
  match pat, s with
  | EmptyString, _ => Some EmptyString
  | String p pat', String c s' =>
      if (bool_decide (p = "."%char) && negb (bool_decide (c = Str.NL)))
         || bool_decide (p = c)
      then String c <$> match_here pat' s'
      else None
  | String _ _, EmptyString => None
  end.

Fixpoint match_branches (branches : list string) (s : string) : option string :=
  match branches with
  | [] => None
  | b :: bs =>
      match match_here b s with
      | Some m => Some m
      | None => match_branches bs s
      end
  end.

Fixpoint search (branches : list string) (s : string) : option string :=
  match match_branches branches s with
  | Some m => Some m
  | None =>
      match s with
      | EmptyString => None
      | String _ s' => search branches s'
      end
  end.

End NameRe.

(** [_escape_special_chars] *)
Definition _escape_special_chars (text : string) : string :=
  Re.keep_letters_and_spaces text.

(** ** The class [GraphCreator] *)

(** An element of [connections]:
    [(source_info, target_info, author, origin)], the two infos being
    [(link, short_domain)] pairs. *)
Definition connection : Type :=
  ((string * option string) * (string * option string) * option string * option string)%type.

(** A resolved edge [(name1, name2, edgecolor)]. *)
Definition edge : Type := (Z * Z * string)%type.

(** An entry of a layout column: a node number, or the [''] used for
    padding. *)
Inductive cell : Type :=
  | Node (n : Z)
  | Blank.

#[global] Instance cell_eq_dec : EqDecision cell.
Proof. solve_decision. Defined.

Record GraphCreator : Type := mkGraphCreator {
  connections : list connection;
  _node_codes : gmap string Z;
  _current_node_num : Z;
  cluster_map : option (odict string string);
  domains_to_clusters : option (odict string string);
  starting_cluster : option string;
  website_name_re : option (list string);
}.

(** [_prepare_cluster_map] *)
Definition _prepare_cluster_map (cluster_map : odict string string)
    : odict string string :=
  foldl (λ domain_to_cluster_map label,
           foldl (λ m name_var, ODict.set name_var label m)
                 domain_to_cluster_map (Str.split "|"%char label))
        [] (ODict.keys cluster_map).

(** [__init__]: the class attributes, overridden by the arguments that are
    given and truthy. *)
Definition GraphCreator_init (cluster_map : option (odict string string))
    (starting_cluster : option string) : GraphCreator :=
  let given := match cluster_map with Some ((_ :: _) as m) => Some m | _ => None end in
  {| connections := [];
     _node_codes := ∅;
     _current_node_num := 1;
     cluster_map := given;
     domains_to_clusters := _prepare_cluster_map <$> given;
     starting_cluster :=
       match starting_cluster with
       | Some s => if Str.truthy s then Some s else None
       | None => None
       end;
     website_name_re := (λ m, NameRe.compile (ODict.keys m)) <$> given |}.

Section Methods.

Local Open Scope Z_scope.

(** Library routines. *)
(** [textwrap.wrap(text, width)] *)
Variable wrap : string → nat → list string.
(** [urllib.parse.quote(text)] *)
Variable quote : string → string.
(** [list(set(nodes))]: the order in which a set of node numbers is
    iterated. *)
Variable set_iter : list Z → list Z.

(** Module globals. *)
Variable SPECIAL_USER_STYLING : gmap string (string * string).
Variable WEBSITES_TO_CLUSTERS : odict string string.
Variable MAX_NODE_LINE_LENGTH : nat.
Variable MAX_NODES_IN_COLUMN : Z.
Variable BASE_EDGE_WIDTH : Z.
Variable MINIMIZE_EDGE_NUMBER : bool.

(** [_format_node]: returns the instance after the call and the pair
    [(node_num, graphviz_node)]. *)
Definition _format_node (self : GraphCreator) (nodetext : string)
    : result (GraphCreator * (Z * string)) :=
  let nodetext := Str.replace Str.nl Str.esc_nl nodetext in
  let node_num :=
    default (_current_node_num self) (_node_codes self !! nodetext) in
  let oneline_text := Str.replace Str.esc_nl "" nodetext in
  let lowtext := Str.lower oneline_text in
  re ← match website_name_re self with
       | Some re => mret re
       | None => raise AttributeError
       end;
  styleinfo ←
    match NameRe.search re lowtext with
    | Some group1 =>
        d2c ← match domains_to_clusters self with
              | Some d => mret d
              | None => raise TypeError
              end;
        fullname ← getitem group1 (ODict.get group1 d2c);
        styleinfo ← getitem fullname (ODict.get fullname WEBSITES_TO_CLUSTERS);
        mret (",style=filled," +:+ styleinfo)
    | None => mret ""
    end;
  let url_to_source :=
    if Str.contains "/" lowtext then
      let url := quote lowtext in
      let url := if Str.startswith "http" url then url else "https://" +:+ url in
      ", href=" +:+ Str.dq +:+ url +:+ Str.dq
    else "" in
  let graphviz_node :=
    Str.of_Z node_num +:+ " [label=" +:+ Str.dq +:+ nodetext +:+ Str.dq +:+ ", "
    +:+ "tooltip=" +:+ Str.dq +:+ oneline_text +:+ Str.dq +:+ " " +:+ url_to_source
    +:+ styleinfo +:+ "]" in
  let self :=
    {| connections := connections self;
       _node_codes := <[nodetext := node_num]> (_node_codes self);
       _current_node_num := _current_node_num self + 1;
       cluster_map := cluster_map self;
       domains_to_clusters := domains_to_clusters self;
       starting_cluster := starting_cluster self;
       website_name_re := website_name_re self |} in
  mret (self, (node_num, graphviz_node)).

(** [_format_link_for_display] *)
Definition _format_link_for_display (link : string)
    (short_domain : option string) : string :=
  Str.join Str.nl (wrap link MAX_NODE_LINE_LENGTH).

(** [_sort_by_influence]: the keys are looked up first, in list order. *)
Definition _sort_by_influence (nodes : list (Z * string))
    (conn_num : gmap Z Z) : result (list (Z * string)) :=
  keyed ← mapM (λ node : Z * string,
                  k ← getitem (Str.of_Z node.1) (conn_num !! node.1);
                  mret (k, node)) nodes;
  mret ((sorted_desc fst keyed).*2).

(** [reorder_nodes_by_clusters], one turn of its loop over
    [clusters.items()]: the state is
    [(clusters, normal_nodes, nodes_from_clusters)]. *)
Definition reorder_step (conn_num : gmap Z Z)
    (acc : result (odict string (list Z) * list (Z * string) * list (Z * string)))
    (item : string * list Z)
    : result (odict string (list Z) * list (Z * string) * list (Z * string)) :=
  '(clusters, normal_nodes, nodes_from_clusters) ← acc;
  let '(clustname, nodes) := item in
  let unique_nodes := set_iter nodes in
  let clusters := ODict.set clustname unique_nodes clusters in
  let unique_nodes := (λ node, (node, clustname)) <$> unique_nodes in
  unique_nodes ← _sort_by_influence unique_nodes conn_num;
  if decide (clustname = "nongrouped")
  then mret (clusters, unique_nodes, nodes_from_clusters)
  else mret (clusters, normal_nodes, nodes_from_clusters ++ unique_nodes).

(** [reorder_nodes_by_clusters]: returns [ordered_nodes] and the
    dictionary [clusters] as the loop leaves it. *)
Definition reorder_nodes_by_clusters (node_map : gmap Z string)
    (clusters : odict string (list Z)) (conn_num : gmap Z Z)
    : result (list (Z * string) * odict string (list Z)) :=
  '(clusters, normal_nodes, nodes_from_clusters) ←
    foldl (reorder_step conn_num) (mret (clusters, [], [])) clusters;
  mret (normal_nodes ++ nodes_from_clusters, clusters).

Definition show_cell (c : cell) : string :=
  match c with Node n => Str.of_Z n | Blank => "" end.

(** [_join_columns] *)
Definition _join_columns (left_col right_col : list cell)
    (dummyname : string) (dummy_num : Z) : string :=
  let dummy := dummyname in
  let gv_rows := [dummy +:+ "[style=invis]"; "edge[style=invis]"] in
  let gv_rows :=
    gv_rows ++ ((λ node, show_cell node +:+ " -> " +:+ dummy) <$> left_col) in
  let '(dummy, gv_rows) :=
    if 1 <? dummy_num then
      foldl (λ '(dummy, gv_rows) (i : nat),
               let prev_dummy := dummy in
               let dummy := dummyname +:+ Str.of_Z (Z.of_nat i) in
               (dummy, gv_rows ++ [dummy +:+ "[style=invis]";
                                   prev_dummy +:+ " -> " +:+ dummy]))
            (dummy, gv_rows) (seq 0 (Z.to_nat dummy_num))
    else (dummy, gv_rows) in
  let gv_rows :=
    gv_rows ++ ((λ node, dummy +:+ " -> " +:+ show_cell node) <$> right_col) in
  let gv_rows := gv_rows ++ ["edge[style=solid]"] in
  Str.join Str.nl gv_rows.

(** [place_nodes_in_grid], the mapping of nodes to the main column, the
    column on its left and the rest: the state is
    [(nodes, starting_column, leftside_column)]. *)
Definition split_step (self : GraphCreator)
    (nodes_with_outbound_edges : gset Z)
    (acc : list Z * list Z * list Z) (item : Z * string)
    : list Z * list Z * list Z :=
  let '(nodes, starting_column, leftside_column) := acc in
  let '(node, cluster) := item in
  if bool_decide (Some cluster = starting_cluster self) then
    if bool_decide (node ∈ nodes_with_outbound_edges)
    then (nodes, starting_column ++ [node], leftside_column)
    else (nodes, starting_column, leftside_column ++ [node])
  else (nodes ++ [node], starting_column, leftside_column).

Definition split_columns (self : GraphCreator)
    (nodes_and_clusters : list (Z * string)) (connections : list edge)
    : list Z * list Z * list Z :=
  let nodes_with_outbound_edges : gset Z :=
    list_to_set ((λ c : edge, c.1.1) <$> connections) in
  foldl (split_step self nodes_with_outbound_edges) ([], [], [])
        nodes_and_clusters.

(** [place_nodes_in_grid], the grouping loop: the state is
    [(node_groups, buffer, i)]. *)
Definition group_step (acc : list (list cell) * list cell * Z) (n : Z)
    : list (list cell) * list cell * Z :=
  let '(node_groups, buffer, i) := acc in
  let buffer := buffer ++ [Node n] in
  if decide (i = MAX_NODES_IN_COLUMN - 1)
  then (node_groups ++ [buffer], [], 0)
  else (node_groups, buffer, i + 1).

Definition group_nodes (nodes : list Z) : list (list cell) :=
  let '(node_groups, buffer, _) := foldl group_step ([], [], 0) nodes in
  match buffer with
  | [] => node_groups
  | _ => node_groups ++ [buffer]
  end.

(** [place_nodes_in_grid], the padding of the last column: returns the
    groups after the in-place extension of the last one, and
    [first_group]. *)
Definition pad_last_group (node_groups : list (list cell))
    : result (list (list cell) * list cell) :=
  match head node_groups, last node_groups with
  | Some first_group, Some last_group =>
      let len_diff :=
        Z.of_nat (length first_group) - Z.of_nat (length last_group) in
      if 0 <? len_diff then
        let last_group := last_group ++ replicate (Z.to_nat len_diff) Blank in
        mret (<[pred (length node_groups) := last_group]> node_groups,
              first_group)
      else mret (node_groups, first_group)
  | _, _ => raise IndexError
  end.

(** [list(zip( *columns ))]: as many rows as the shortest column has
    entries. *)
Definition zip_star {A} (columns : list (list A)) : list (list A) :=
  match columns with
  | [] => []
  | c :: cs =>
      let rows := foldr Nat.min (length c) (length <$> cs) in
      (λ i, omap (λ col : list A, col !! i) columns) <$> seq 0 rows
  end.

(** The columns of the grid as [place_nodes_in_grid] has them after
    padding. *)
Definition grid_columns (self : GraphCreator)
    (nodes_and_clusters : list (Z * string)) (connections : list edge)
    : result (list (list cell)) :=
  let '(nodes, _, _) := split_columns self nodes_and_clusters connections in
  fst <$> pad_last_group (group_nodes nodes).

(** [place_nodes_in_grid] *)
Definition place_nodes_in_grid (self : GraphCreator)
    (nodes_and_clusters : list (Z * string)) (connections : list edge)
    : result (string * bool) :=
  let '(nodes, starting_column, leftside_column) :=
    split_columns self nodes_and_clusters connections in
  let node_groups := group_nodes nodes in
  '(node_groups, first_group) ← pad_last_group node_groups;
  let groups_as_rows := zip_star node_groups in
  let graphviz_lines :=
    (λ row : list cell,
       Str.join " -> " (show_cell <$> filter (λ n, n ≠ Blank) row))
    <$> groups_as_rows in
  let grid :=
    Str.join Str.nl [""; "edge[style=invis]"; "";
                     Str.join Str.nl graphviz_lines;
                     ""; "edge[style=solid]"; ""] in
  let left_c :=
    match leftside_column with
    | [] => ""
    | _ => _join_columns (Node <$> leftside_column) (Node <$> starting_column)
             "first_dummy" 1
    end in
  let main_c :=
    match starting_column with
    | [] => ""
    | _ => _join_columns (Node <$> starting_column) first_group "dummy" 4
    end in
  let grid := Str.join (Str.nl +:+ Str.nl) [left_c; main_c; grid] in
  mret (grid, false).

(** [BASE_EDGE_WIDTH + edge_num*0.5] as a float prints as the decimal of
    a number of halves. *)
Definition show_halves (h : Z) : string :=
  Str.of_Z (h / 2) +:+ (if Z.even h then ".0" else ".5").

(** [_format_edges], the dictionary [conn_data]. *)
Definition conn_data (connections : list edge) : odict edge Z :=
  foldl (λ d data, ODict.incr data d) [] connections.

Definition format_raw_edge (data : edge) : string :=
  let '(name1, name2, c) := data in
  "  " +:+ Str.of_Z name1 +:+ " -> " +:+ Str.of_Z name2
  +:+ " [color=" +:+ Str.dq +:+ c +:+ Str.dq +:+ "];".

(** The attributes [_format_edges] gives a collapsed edge. *)
Definition collapsed_attrs (edgecolor : string) (edge_num : Z) : list string :=
  (if Str.truthy edgecolor
   then ["color=" +:+ Str.dq +:+ edgecolor +:+ Str.dq] else [])
  ++ (if 1 <? edge_num
      then ["penwidth=" +:+ show_halves (2 * BASE_EDGE_WIDTH + edge_num)]
      else []).

Definition format_collapsed_edge (item : edge * Z) : string :=
  let '((name1, name2, edgecolor), edge_num) := item in
  let attrs := collapsed_attrs edgecolor edge_num in
  let attrs :=
    match attrs with
    | [] => ""
    | _ => " [" +:+ Str.join Str.nl attrs +:+ "]"
    end in
  "  " +:+ Str.of_Z name1 +:+ " -> " +:+ Str.of_Z name2 +:+ attrs +:+ ";".

(** [_format_edges] *)
Definition _format_edges (connections : list edge) : list string :=
  if negb MINIMIZE_EDGE_NUMBER then format_raw_edge <$> connections
  else format_collapsed_edge <$> conn_data connections.

(** [_make_graph_body], the mapping of one endpoint to clusters: the
    node [slabel], displayed as [s], joins the bucket of every alias
    found in its text, or the bucket [nongrouped] when it has never been
    put in one. The state is [(clusters, clusterized_nodes)]. *)
Definition cluster_step (s : string) (slabel : Z)
    (st : odict string (list Z) * gset Z) (clustname : string)
    : odict string (list Z) * gset Z :=
  let '(clusters, clusterized_nodes) := st in
  if Str.contains clustname (Str.replace Str.nl "" (Str.lower s))
  then
    let clustname := _escape_special_chars clustname in
    (ODict.append clustname slabel clusters, {[slabel]} ∪ clusterized_nodes)
  else (clusters, clusterized_nodes).

Definition map_to_clusters (aliases : list string) (s : string) (slabel : Z)
    (st : odict string (list Z) * gset Z) : odict string (list Z) * gset Z :=
  let '(clusters, clusterized_nodes) :=
    foldl (cluster_step s slabel) st aliases in
  if bool_decide (slabel ∈ clusterized_nodes)
  then (clusters, clusterized_nodes)
  else (ODict.append "nongrouped" slabel clusters, clusterized_nodes).

(** The local variables of [_make_graph_body]. *)
Record body : Type := mkBody {
  node_map : gmap Z string;
  url_map : gmap Z string;
  body_connections : list edge;
  clusters : odict string (list Z);
  clusterized_nodes : gset Z;
}.

(** [_make_graph_body], one turn of its loop. *)
Definition body_step (st : GraphCreator * body) (c : connection)
    : result (GraphCreator * body) :=
  let '(self, b) := st in
  let '(source_info, target_info, author, _) := c in
  let site1 := _format_link_for_display source_info.1 source_info.2 in
  let site2 := _format_link_for_display target_info.1 target_info.2 in
  '(self, (name1, new_node)) ← _format_node self site1;
  let node_map :=
    if Str.truthy new_node then <[name1 := new_node]> (node_map b)
    else node_map b in
  '(self, (name2, new_node)) ← _format_node self site2;
  let node_map :=
    if Str.truthy new_node then <[name2 := new_node]> node_map
    else node_map in
  let url1 := source_info.1 in
  let url2 := target_info.1 in
  let url_map := <[name2 := url2]> (<[name1 := url1]> (url_map b)) in
  edgecolor ←
    match author with
    | Some a =>
        if Str.truthy a
        then snd <$> getitem a (SPECIAL_USER_STYLING !! a)
        else mret ""
    | None => mret ""
    end;
  let connections := body_connections b ++ [(name1, name2, edgecolor)] in
  aliases ← match domains_to_clusters self with
            | Some d => mret (ODict.keys d)
            | None => raise AttributeError
            end;
  let '(clusters, clusterized_nodes) :=
    map_to_clusters aliases site2 name2
      (map_to_clusters aliases site1 name1
         (clusters b, clusterized_nodes b)) in
  mret (self, mkBody node_map url_map connections clusters clusterized_nodes).

Definition body_loop (st : GraphCreator * body) (cs : list connection)
    : result (GraphCreator * body) :=
  foldl (λ acc c, st ← acc; body_step st c) (mret st) cs.

(** [_make_graph_body]: returns the instance after the call and the
    locals, of which the script returns
    [(node_map, url_map, connections, clusters)]. *)
Definition _make_graph_body (self : GraphCreator)
    : result (GraphCreator * body) :=
  body_loop (self, mkBody ∅ ∅ [] [] ∅) (connections self).

(** [Counter(c for _,c,_ in connections)], then a zero for every other
    node of [node_map]. *)
Definition inbound_counts (node_map : gmap Z string)
    (connections : list edge) : gmap Z Z :=
  let conn_num : gmap Z Z :=
    foldl (λ m (c : edge), <[c.1.2 := default 0 (m !! c.1.2) + 1]> m)
          ∅ connections in
  conn_num ∪ ((λ _, 0) <$> node_map).

Definition HEAD : string :=
  "// Made using a script from ciemnastrona.com.pl." +:+ Str.nl +:+
  "// You can modify the graph by making changes to this file," +:+ Str.nl +:+
  "// then launching the console in the same folder and typing:" +:+ Str.nl +:+ Str.nl +:+
  "// dot -T svg graph.gv -o graph.svg" +:+ Str.nl +:+ Str.nl +:+
  "// (dot must be installed on your computer)".

Definition DEFAULT_GRAPH_PARAMS : odict string (odict string string) :=
  [ ("edge", [("color", "#8caff3"); ("penwidth", Str.of_Z BASE_EDGE_WIDTH)]);
    ("node", [("color", "#4bc9c8"); ("fontcolor", "#dddddd")]);
    ("graph", [("fontname", "Helvetica"); ("bgcolor", "#252525");
               ("ranksep", "2"); ("nodesep", "1.2"); ("rankdir", "LR");
               ("splines", "line"); ("newrank", "true");
               ("overlap", "prism")]) ].

(** [GRAPH_TEMPLATE], as [__init__] builds it. *)
Definition GRAPH_TEMPLATE : string :=
  let top_level_attributes :=
    Str.join Str.nl
      ((λ '(category, params),
          let attributes :=
            Str.join ", "
              ((λ '(k, v), k +:+ "=" +:+ Str.dq +:+ v +:+ Str.dq)
               <$> (params : odict string string)) in
          "  " +:+ category +:+ " [" +:+ attributes +:+ "];")
       <$> DEFAULT_GRAPH_PARAMS) in
  HEAD +:+ Str.nl +:+ "digraph Connections {" +:+ Str.nl +:+ Str.nl +:+
  top_level_attributes +:+ Str.nl +:+ Str.nl +:+
  "@@NODES@@" +:+ Str.nl +:+ Str.nl +:+
  "@@CLUSTERS@@" +:+ Str.nl +:+ Str.nl +:+
  "@@CONNS@@" +:+ Str.nl +:+ "}".

(** [make_graph], up to the text handed to [_save_graph_to_file]. *)
Definition make_graph (self : GraphCreator) : result (GraphCreator * string) :=
  '(self, b) ← _make_graph_body self;
  let connections := body_connections b in
  let conn_num := inbound_counts (node_map b) connections in
  '(ordered_nodes, _) ←
    reorder_nodes_by_clusters (node_map b) (clusters b) conn_num;
  '(grid_info, _) ← place_nodes_in_grid self ordered_nodes connections;
  node_lines ← mapM (λ nc : Z * string,
                       getitem (Str.of_Z nc.1) (node_map b !! nc.1))
                    ordered_nodes;
  let node_info := Str.join Str.nl node_lines in
  let node_info := Str.join (Str.nl +:+ Str.nl) [node_info; grid_info] in
  let cluster_info := Str.nl in
  let connections := _format_edges connections in
  let connections :=
    "  edge[constraint=false];" +:+ Str.nl +:+ Str.nl +:+
    Str.join Str.nl connections in
  let graph := GRAPH_TEMPLATE in
  let graph := Str.replace "@@NODES@@" node_info graph in
  let graph := Str.replace "@@CLUSTERS@@" cluster_info graph in
  let graph := Str.replace "@@CONNS@@" connections graph in
  mret (self, graph).

End Methods.

(** ** Executable instances of the library routines *)

(** [textwrap.wrap] on a text without white space that fits the width:
    the text is its only line (no line at all when it is empty). Longer
    texts are cut at the width. *)
Fixpoint wrap_cut (fuel : nat) (text : list ascii) (width : nat) : list string :=
  match fuel with
  | O => []
  | S fuel =>
      match text with
      | [] => []
      | _ => string_of_list_ascii (take width text)
             :: wrap_cut fuel (drop width text) width
      end
  end.

Definition wrap_plain (text : string) (width : nat) : list string :=
  wrap_cut (String.length text) (list_ascii_of_string text) width.

(** [urllib.parse.quote] on a text made of unreserved characters and [/]:
    nothing is escaped. *)
Definition quote_plain (text : string) : string := text.

(** The distinct members of a list, in the order in which they are first
    seen. *)
Fixpoint first_seen (l : list Z) : list Z :=
  match l with
  | [] => []
  | x :: l' => x :: filter (λ y, y ≠ x) (first_seen l')
  end.

(** Iteration over a small set of small integers as CPython runs it: the
    table of a set of at most four members has eight slots, a non-negative
    number [n] sits in slot [n mod 8] when that slot is free, and
    iteration goes by slot. The instance orders the distinct members by
    [n mod 8] (in first-seen order within a slot). *)
Definition set_iter_slots (nodes : list Z) : list Z :=
  reverse (sorted_desc (λ n, n `mod` 8)%Z (reverse (first_seen nodes))).

(** ** The instance the script runs

    [analyze_all_websites_in_folder] builds one [GraphCreator] from the
    cluster table and the starting cluster, stores the connections in it
    and calls [make_graph]. *)

Definition set_connections (self : GraphCreator) (cs : list connection)
    : GraphCreator :=
  {| connections := cs;
     _node_codes := _node_codes self;
     _current_node_num := _current_node_num self;
     cluster_map := cluster_map self;
     domains_to_clusters := domains_to_clusters self;
     starting_cluster := starting_cluster self;
     website_name_re := website_name_re self |}.

Definition graph_maker (cluster_map : odict string string)
    (starting_cluster : string) (cs : list connection) : GraphCreator :=
  set_connections
    (GraphCreator_init (Some cluster_map) (Some starting_cluster)) cs.

(** ** Inputs used in the examples *)

(** Four comments under one video, each by the first account of the
    styling table, each linking to a different site. *)
Definition four_links : list connection :=
  let video := ("Field trial talk - YouTube", None) in
  let troll := Some "98f9ede02a07db6f8dd00f2e353425e5" in
  [ (video, ("t1.org/a", Some "t1.org"), troll, None);
    (video, ("t2.org/a", Some "t2.org"), troll, None);
    (video, ("t3.org/a", Some "t3.org"), troll, None);
    (video, ("t4.org/a", Some "t4.org"), troll, None) ].

(** [_make_graph_body] of the script's instance, with the plain library
    instances. *)
Definition run_graph_body (styling : gmap string (string * string))
    (cluster_map : odict string string) (cs : list connection)
    : result (GraphCreator * body) :=
  _make_graph_body wrap_plain quote_plain styling cluster_map
    default_MAX_NODE_LINE_LENGTH
    (graph_maker cluster_map STARTING_CLUSTER cs).



(** The script's instance for [four_links], before and after the text
    [t1.org/a] has been formatted as its first node, and the node line
    that call returns. *)
Definition fresh_maker : GraphCreator :=
  graph_maker main_WEBSITES_TO_CLUSTERS STARTING_CLUSTER four_links.

Definition maker_after_first_node : GraphCreator :=
  {| connections := four_links;
     _node_codes := {[ "t1.org/a" := 1%Z ]};
     _current_node_num := 2;
     cluster_map := cluster_map fresh_maker;
     domains_to_clusters := domains_to_clusters fresh_maker;
     starting_cluster := starting_cluster fresh_maker;
     website_name_re := website_name_re fresh_maker |}.

Definition first_node_line : string :=
  "1 [label=" +:+ Str.dq +:+ "t1.org/a" +:+ Str.dq +:+ ", tooltip="
  +:+ Str.dq +:+ "t1.org/a" +:+ Str.dq +:+ " , href=" +:+ Str.dq
  +:+ "https://t1.org/a" +:+ Str.dq +:+ "]".

(** ** Notions used in the statements *)

(** The inbound-edge count [conn_num[n]] of a node that has one. *)
Definition inbound (conn_num : gmap Z Z) (n : Z) : Z :=
  default 0%Z (conn_num !! n).

(** What [reorder_nodes_by_clusters] contributes for one item of
    [clusters]: the members as the set yields them, sorted by inbound
    count, each paired with the cluster name. *)
Definition cluster_column (set_iter : list Z → list Z) (conn_num : gmap Z Z)
    (item : string * list Z) : list (Z * string) :=
  (λ n, (n, item.1)) <$> sorted_desc (inbound conn_num) (set_iter item.2).

(** The order the specification words ask for: the members deduplicated in
    first-seen order, then sorted by inbound count with a stable
    tie-break. *)
Definition spec_cluster_column (conn_num : gmap Z Z)
    (item : string * list Z) : list (Z * string) :=
  (λ n, (n, item.1)) <$> sorted_desc (inbound conn_num) (first_seen item.2).

(** The nodes [place_nodes_in_grid] lays out in the grid: those outside
    the starting cluster, in order. *)
Definition grid_nodes (self : GraphCreator)
    (nodes_and_clusters : list (Z * string)) : list Z :=
  (filter (λ nc : Z * string, Some nc.2 ≠ starting_cluster self)
          nodes_and_clusters).*1.

(** The key under which [_format_node] files a display text in
    [_node_codes]. *)
Definition node_key (nodetext : string) : string :=
  Str.replace Str.nl Str.esc_nl nodetext.

(** [formats self self'] : the instance [self'] is [self] after some
    calls of [_format_node] that returned. *)
Inductive formats (quote : string → string)
    (WEBSITES_TO_CLUSTERS : odict string string)
    : GraphCreator → GraphCreator → Prop :=
  | formats_refl self : formats quote WEBSITES_TO_CLUSTERS self self
  | formats_step self1 self2 self3 nodetext r :
      formats quote WEBSITES_TO_CLUSTERS self1 self2 →
      _format_node quote WEBSITES_TO_CLUSTERS self2 nodetext = inr (self3, r) →
      formats quote WEBSITES_TO_CLUSTERS self1 self3.

(** The numbers in [_node_codes] lie between 1 and the counter, and no
    number is given to two texts. *)
Definition codes_ok (self : GraphCreator) : Prop :=
  (1 ≤ _current_node_num self)%Z ∧
  (∀ t n, _node_codes self !! t = Some n →
          (1 ≤ n < _current_node_num self)%Z) ∧
  (∀ t1 t2 n, _node_codes self !! t1 = Some n →
              _node_codes self !! t2 = Some n → t1 = t2).

(** The buckets have distinct names, and every node filed in one has its
    line in [node_map]. *)
Definition buckets_ok (node_map : gmap Z string)
    (clusters : odict string (list Z)) : Prop :=
  NoDup clusters.*1 ∧
  ∀ item n, item ∈ clusters → n ∈ item.2 → is_Some (node_map !! n).

(** [make_graph], up to [ordered_nodes]. *)
Definition ordered_nodes_of (set_iter : list Z → list Z) (b : body)
    : result (list (Z * string)) :=
  fst <$> reorder_nodes_by_clusters set_iter (node_map b) (clusters b)
            (inbound_counts (node_map b) (body_connections b)).

(** The instance was built with a cluster map. *)
Definition has_tables (self : GraphCreator) : Prop :=
  is_Some (website_name_re self) ∧ is_Some (domains_to_clusters self).




(** What iterating over [set(l)] guarantees: each member of [l] once. *)
Definition set_contract (set_iter : list Z → list Z) (l : list Z) : Prop :=
  NoDup (set_iter l) ∧ ∀ x, x ∈ set_iter l ↔ x ∈ l.

Definition is_nongrouped (item : string * list Z) : Prop :=
  item.1 = "nongrouped".

#[global] Instance is_nongrouped_dec item : Decision (is_nongrouped item).
Proof. unfold is_nongrouped. apply _. Defined.

(** ** Notions used in the further properties *)

(** The node [n] is filed in some bucket. *)
Definition bucketed (clusters : odict string (list Z)) (n : Z) : Prop :=
  ∃ item, item ∈ clusters ∧ n ∈ item.2.

(** The locals of [_make_graph_body] are consistent: the nodes noted as
    clusterized are filed, no bucket is empty, and both ends of every
    edge have a node line and are filed. *)
Definition body_ok (b : body) : Prop :=
  (∀ n, n ∈ clusterized_nodes b → bucketed (clusters b) n) ∧
  (∀ item, item ∈ clusters b → item.2 ≠ []) ∧
  (∀ e : edge, e ∈ body_connections b →
     is_Some (node_map b !! e.1.1) ∧ is_Some (node_map b !! e.1.2) ∧
     bucketed (clusters b) e.1.1 ∧ bucketed (clusters b) e.1.2).

(** What [_make_graph_body] returns for [four_links]. *)
Definition four_links_body : GraphCreator * body :=
  Eval vm_compute in
    match run_graph_body main_SPECIAL_USER_STYLING main_WEBSITES_TO_CLUSTERS
            four_links with
    | inr r => r
    | inl _ => (fresh_maker, mkBody ∅ ∅ [] [] ∅)
    end.

(** [groups_as_rows] of [place_nodes_in_grid]: the padded columns read
    row by row. *)
Definition grid_rows (MAX_NODES_IN_COLUMN : Z) (self : GraphCreator)
    (nodes_and_clusters : list (Z * string)) (connections : list edge)
    : result (list (list cell)) :=
  zip_star <$> grid_columns MAX_NODES_IN_COLUMN self nodes_and_clusters
                 connections.

(** A comment that links to another video: every node of the graph is in
    the starting cluster. *)
Definition youtube_only_links : list connection :=
  [ (("Field trial talk - YouTube", None),
     ("youtube.com/watch?v=abc", Some "youtube.com"),
     Some "98f9ede02a07db6f8dd00f2e353425e5", None) ].

Definition youtube_only_maker : GraphCreator :=
  graph_maker main_WEBSITES_TO_CLUSTERS STARTING_CLUSTER youtube_only_links.

(** What [_make_graph_body] returns for [youtube_only_links]. *)
Definition youtube_only_body : GraphCreator * body :=
  Eval vm_compute in
    match run_graph_body main_SPECIAL_USER_STYLING main_WEBSITES_TO_CLUSTERS
            youtube_only_links with
    | inr r => r
    | inl _ => (youtube_only_maker, mkBody ∅ ∅ [] [] ∅)
    end.

(** ** Summary of the links: [_get_url_counts], [_save_url_counts] *)

(** [Counter(items)]: each item with the number of its occurrences, in
    order of first occurrence. *)
Definition Counter {K} `{EqDecision K} (items : list K) : odict K Z :=
  foldl (λ d k, ODict.incr k d) [] items.

(** Stable sorting, as [sorted(..., key=...)]. *)
Section StableSortAscending.
Context {A : Type} (key : A → Z).

(** [x] is placed before the first element whose key is not below its
    own, hence before every later element of equal key. *)
Fixpoint insert_asc (x : A) (l : list A) : list A :=
  match l with
  | [] => [x]
  | y :: l' => if (key x <=? key y)%Z then x :: l else y :: insert_asc x l'
  end.

Definition sorted_asc (l : list A) : list A := foldr insert_asc [] l.
End StableSortAscending.

(** [_get_url_counts]: an item of [counts] is
    [((url, domain), num)]. *)
Definition _get_url_counts (connections : list connection)
    : odict (option string) (list (string * Z)) :=
  let destinations := (λ c : connection, c.1.1.2) <$> connections in
  let counts := sorted_asc snd (Counter destinations) in
  foldl (λ counts_by_domain (item : string * option string * Z),
           ODict.append item.1.2 (item.1.1, item.2) counts_by_domain)
        [] counts.

(** [f'{domain}'] for a domain that may be [None]. *)
Definition show_domain (domain : option string) : string :=
  default "None" domain.

(** [sum(int(n) for _,n in url_counts)] *)
Definition total_count (url_counts : list (string * Z)) : Z :=
  foldl Z.add 0%Z url_counts.*2.

Definition domain_header (domain : option string) (total_count : Z) : string :=
  Str.nl +:+ "## " +:+ show_domain domain +:+ " (" +:+ Str.of_Z total_count
  +:+ ")" +:+ Str.nl.

Definition url_line (url_count : string * Z) : string :=
  url_count.1 +:+ " (" +:+ Str.of_Z url_count.2 +:+ ")".

(** [_save_url_counts]: the name and the text of the file that
    [_save_to_textfile] writes. *)
Definition _save_url_counts
    (url_count_by_domain : odict (option string) (list (string * Z)))
    : string * string :=
  let textlines :=
    foldl (λ textlines (item : option string * list (string * Z)),
             let '(domain, url_counts) := item in
             (textlines ++ [domain_header domain (total_count url_counts)])
             ++ (url_line <$> url_counts))
          [] url_count_by_domain in
  ("links.txt", Str.join Str.nl textlines).

(** The number of connections that lead to [dest]. *)
Definition links_to (dest : string * option string)
    (connections : list connection) : Z :=
  Z.of_nat (length (filter (λ c : connection, c.1.1.2 = dest) connections)).

(** The number of connections that lead into [domain]. *)
Definition links_into (domain : option string)
    (connections : list connection) : Z :=
  Z.of_nat (length (filter (λ c : connection, c.1.1.2.2 = domain) connections)).

(** The number of occurrences of [k] among [items]. *)
Definition occurrences {K} `{EqDecision K} (k : K) (items : list K) : Z :=
  Z.of_nat (length (filter (λ x, x = k) items)).

(** The entries of one domain among [counts]. *)
Definition entries_of (dom : option string)
    (counts : list (string * option string * Z)) : list (string * Z) :=
  (λ item : string * option string * Z, (item.1.1, item.2))
    <$> filter (λ item : string * option string * Z, item.1.2 = dom) counts.

(** ** Lists of names kept in text files: [load_user_list] *)

Definition CR : ascii := "013"%char.

(** What [open] in text mode makes of the line ends when the file is
    read: a carriage return, with the line feed that may follow it,
    becomes one line feed. [after_cr] tells that the character before
    was a carriage return. *)
Fixpoint universal_newlines (after_cr : bool) (text : string) : string :=
  match text with
  | EmptyString => EmptyString
  | String c r =>
      if bool_decide (c = CR)
      then String Str.NL (universal_newlines true r)
      else if bool_decide (c = Str.NL) && after_cr
           then universal_newlines false r
           else String c (universal_newlines false r)
  end.

(** [content] is the text the file holds, as decoded, [None] when there
    is no such file; [u.read()] returns it with its line ends
    translated. (A file that cannot be decoded makes [u.read()] raise
    before any name is returned; [content] stands for one that can.) *)
Definition load_user_list (content : option string) : list string :=
  match content with
  | None => []
  | Some text =>
      filter (λ l, Str.truthy l)
             (Str.split Str.NL (universal_newlines false text))
  end.

(** A name that can be kept on a line of its own. *)
Definition is_line (l : string) : Prop :=
  Str.truthy l ∧ Str.has_char Str.NL l = false.


(** The text holds ASCII characters only; on such a text [str.lower]
    lowers each letter by itself. *)
Fixpoint ascii_only (s : string) : bool :=
  match s with
  | EmptyString => true
  | String c r => (nat_of_ascii c <? 128) && ascii_only r
  end.

(** ** [hashlib.md5]

    An executable instance of the library routine (RFC 1321) on the bytes
    of a string; [hash_username] itself takes the routine as a
    parameter. *)

Module Md5.
Local Open Scope Z_scope.

Definition mask32 (x : Z) : Z := x mod 4294967296.
Definition not32 (x : Z) : Z := Z.lxor x 4294967295.
Definition rotl (x c : Z) : Z :=
  mask32 (Z.lor (Z.shiftl x c) (Z.shiftr x (32 - c))).

(** Per-round shift amounts. *)
Definition S : list Z :=
  [ 7; 12; 17; 22; 7; 12; 17; 22; 7; 12; 17; 22; 7; 12; 17; 22;
    5; 9; 14; 20; 5; 9; 14; 20; 5; 9; 14; 20; 5; 9; 14; 20;
    4; 11; 16; 23; 4; 11; 16; 23; 4; 11; 16; 23; 4; 11; 16; 23;
    6; 10; 15; 21; 6; 10; 15; 21; 6; 10; 15; 21; 6; 10; 15; 21 ].

(** [floor(2^32 * abs(sin(i + 1)))] *)
Definition K : list Z :=
  [ 3614090360; 3905402710; 606105819; 3250441966;
    4118548399; 1200080426; 2821735955; 4249261313;
    1770035416; 2336552879; 4294925233; 2304563134;
    1804603682; 4254626195; 2792965006; 1236535329;
    4129170786; 3225465664; 643717713; 3921069994;
    3593408605; 38016083; 3634488961; 3889429448;
    568446438; 3275163606; 4107603335; 1163531501;
    2850285829; 4243563512; 1735328473; 2368359562;
    4294588738; 2272392833; 1839030562; 4259657740;
    2763975236; 1272893353; 4139469664; 3200236656;
    681279174; 3936430074; 3572445317; 76029189;
    3654602809; 3873151461; 530742520; 3299628645;
    4096336452; 1126891415; 2878612391; 4237533241;
    1700485571; 2399980690; 4293915773; 2240044497;
    1873313359; 4264355552; 2734768916; 1309151649;
    4149444226; 3174756917; 718787259; 3951481745 ].

(** The [n] low bytes of [x], least significant first. *)
Fixpoint le_bytes (n : nat) (x : Z) : list Z :=
  match n with
  | O => []
  | Datatypes.S n => x mod 256 :: le_bytes n (x / 256)
  end.

Definition of_le_bytes (bytes : list Z) : Z :=
  foldr (λ b acc, b + 256 * acc) 0 bytes.

(** The message, a single 1 bit, zeros up to 56 bytes modulo 64, and the
    length of the message in bits on 8 bytes. *)
Definition pad (msg : list Z) : list Z :=
  let len := Z.of_nat (length msg) in
  msg ++ [128] ++ replicate (Z.to_nat ((55 - len) mod 64)) 0
      ++ le_bytes 8 (8 * len).

Fixpoint chunks (fuel : nat) (size : nat) (bytes : list Z) : list (list Z) :=
  match fuel, bytes with
  | O, _ | _, [] => []
  | Datatypes.S fuel, _ =>
      take size bytes :: chunks fuel size (drop size bytes)
  end.

Definition step (M : list Z) (st : Z * Z * Z * Z) (i : Z) : Z * Z * Z * Z :=
  let '(A, B, C, D) := st in
  let '(F, g) :=
    if i <? 16 then (Z.lor (Z.land B C) (Z.land (not32 B) D), i)
    else if i <? 32 then
      (Z.lor (Z.land D B) (Z.land (not32 D) C), (5 * i + 1) mod 16)
    else if i <? 48 then (Z.lxor B (Z.lxor C D), (3 * i + 5) mod 16)
    else (Z.lxor C (Z.lor B (not32 D)), (7 * i) mod 16) in
  let F := mask32 (F + A + default 0 (K !! Z.to_nat i)
                   + default 0 (M !! Z.to_nat g)) in
  (D, mask32 (B + rotl F (default 0 (S !! Z.to_nat i))), B, C).

Definition process (st : Z * Z * Z * Z) (chunk : list Z) : Z * Z * Z * Z :=
  let M := of_le_bytes <$> chunks 16 4 chunk in
  let '(a0, b0, c0, d0) := st in
  let '(A, B, C, D) := foldl (step M) st (seqZ 0 64) in
  (mask32 (a0 + A), mask32 (b0 + B), mask32 (c0 + C), mask32 (d0 + D)).

Definition digest (msg : list Z) : list Z :=
  let bytes := pad msg in
  let '(a, b, c, d) :=
    foldl process (1732584193, 4023233417, 2562383102, 271733878)
          (chunks (length bytes) 64 bytes) in
  le_bytes 4 a ++ le_bytes 4 b ++ le_bytes 4 c ++ le_bytes 4 d.

Definition hex_digit (n : Z) : ascii :=
  ascii_of_nat (Z.to_nat (if n <? 10 then 48 + n else 87 + n)).

Definition hex (bytes : list Z) : string :=
  foldr (λ b acc, String (hex_digit (b / 16)) (String (hex_digit (b mod 16)) acc))
        EmptyString bytes.

Definition hexdigest (s : string) : string :=
  hex (digest ((λ c, Z.of_nat (nat_of_ascii c)) <$> list_ascii_of_string s)).

End Md5.

(** ** Suspected accounts: [hash_username], [set_special_names_and_hashes],
    [_is_user_from_special_list]

    The module globals these functions update are threaded as a record. *)

Record registry : Type := mkRegistry {
  HASHED_NAMES : gmap string string;
  SPECIAL_USERS : list string;
  SPECIAL_USER_HASHES : gset string;
}.

(** The globals when the module is loaded. *)
Definition empty_registry : registry :=
  {| HASHED_NAMES := ∅; SPECIAL_USERS := []; SPECIAL_USER_HASHES := ∅ |}.

Section Hashing.

(** [hashlib.md5(bytes(username, 'utf-8')).hexdigest()] *)
Variable md5_hexdigest : string → string.
(** Module global. *)
Variable SPECIAL_USER_STYLING : gmap string (string * string).

Definition hash_username (username : string) (g : registry)
    : string * registry :=
  if negb (Str.truthy username) then ("", g)
  else
    match HASHED_NAMES g !! username with
    | Some name_hash => (name_hash, g)
    | None =>
        let name_hash := md5_hexdigest username in
        (name_hash,
         {| HASHED_NAMES := <[username := name_hash]> (HASHED_NAMES g);
            SPECIAL_USERS := SPECIAL_USERS g;
            SPECIAL_USER_HASHES := SPECIAL_USER_HASHES g |})
    end.

(** [_is_user_from_special_list]: returns [(is_special, namehash)] and
    the globals after the call. *)
Definition _is_user_from_special_list (author : string) (g : registry)
    : bool * string * registry :=
  let '(namehash, g) := hash_username author g in
  let is_special :=
    bool_decide (namehash ∈ SPECIAL_USER_HASHES g)
    || bool_decide (is_Some (SPECIAL_USER_STYLING !! namehash)) in
  (is_special, namehash, g).

(** [set_special_names_and_hashes] *)
Definition set_special_names_and_hashes (usernames : list string)
    (g : registry) : registry :=
  foldl (λ g uname,
           let g := {| HASHED_NAMES := HASHED_NAMES g;
                       SPECIAL_USERS := SPECIAL_USERS g ++ [uname];
                       SPECIAL_USER_HASHES := SPECIAL_USER_HASHES g |} in
           let '(namehash, g) := hash_username uname g in
           {| HASHED_NAMES := HASHED_NAMES g;
              SPECIAL_USERS := SPECIAL_USERS g;
              SPECIAL_USER_HASHES := {[ namehash ]} ∪ SPECIAL_USER_HASHES g |})
        g usernames.

(** The hash of a name, computed afresh. *)
Definition name_hash (username : string) : string :=
  if Str.truthy username then md5_hexdigest username else "".

(** Every hash kept in [HASHED_NAMES] is the hash of its name. *)
Definition cache_ok (g : registry) : Prop :=
  ∀ username h, HASHED_NAMES g !! username = Some h → h = name_hash username.

End Hashing.

(** ** Anonymization of names in the text of comments *)

(** [s.lstrip(chars)] and [s.rstrip(chars)], the characters to strip
    being given as a test. *)
Fixpoint lstrip_by (strip : ascii → bool) (s : string) : string :=
  match s with
  | EmptyString => EmptyString
  | String c r => if strip c then lstrip_by strip r else s
  end.

Fixpoint rstrip_by (strip : ascii → bool) (s : string) : string :=
  match s with
  | EmptyString => EmptyString
  | String c r =>
      let r := rstrip_by strip r in
      if strip c && negb (Str.truthy r) then EmptyString else String c r
  end.

(** White space for [str.strip()]: the ASCII characters for which
    [str.isspace] holds (the other Unicode spaces are left out). *)
Definition is_space (c : ascii) : bool :=
  let n := nat_of_ascii c in
  ((9 <=? n) && (n <=? 13)) || ((28 <=? n) && (n <=? 32)).

(** [s.strip()] *)
Definition strip (s : string) : string :=
  rstrip_by is_space (lstrip_by is_space s).

(** [sorted(l, reverse=True)] for an order given as a test: [x] is placed
    before the first element that is not above it. *)
Section StableSortBy.
Context {A : Type} (le : A → A → bool).

Fixpoint insert_desc_by (x : A) (l : list A) : list A :=
  match l with
  | [] => [x]
  | y :: l' => if le y x then x :: l else y :: insert_desc_by x l'
  end.

Definition sorted_desc_by (l : list A) : list A := foldr insert_desc_by [] l.
End StableSortBy.

(** [_replace_with_anonymous_id]: returns [(new_text, user_i)] and
    [user_map] after the call. *)
Definition _replace_with_anonymous_id (text user_name : string)
    (user_map : gmap string Z) : string * Z * gmap string Z :=
  let '(user_i, user_map) :=
    match user_map !! user_name with
    | Some user_i => (user_i, user_map)
    | None =>
        let user_i := Z.of_nat (size user_map) in
        (user_i, <[user_name := user_i]> user_map)
    end in
  let new_text :=
    Str.replace user_name ("[USER " +:+ Str.of_Z user_i +:+ "]") text in
  (new_text, user_i, user_map).

(** [anonymize_mention]: returns [new_text] and [user_map] after the
    call. *)
Definition anonymize_mention (user_mention text : string)
    (user_map : gmap string Z) : string * gmap string Z :=
  let user_name := lstrip_by (λ c, bool_decide (c = "@"%char)) user_mention in
  let firstname := default "" (head (Str.split " "%char user_name)) in
  let '(new_text, user_i, user_map) :=
    _replace_with_anonymous_id text user_name user_map in
  let new_text :=
    if decide (firstname ≠ user_name)
    then Str.replace firstname ("[USER " +:+ Str.of_Z user_i +:+ " NAME]")
           new_text
    else new_text in
  (new_text, user_map).

(** [anonymize_names]: [author_re] is [None] for the [''] that stands for
    no pattern, and otherwise the [findall] of the compiled pattern; the
    text is [com_data[3]]. Returns the text stored back into [com_data[3]],
    [user_map] and [ANON_NAMESET] after the call. *)
Definition anonymize_names (usr_mentions : list string)
    (author_re : option (string → list string)) (text : string)
    (user_map : gmap string Z) (ANON_NAMESET : gset string)
    : string * gmap string Z * gset string :=
  let '(text, user_map) :=
    foldl (λ (acc : string * gmap string Z) user_mention,
             anonymize_mention user_mention acc.1 acc.2)
          (text, user_map) usr_mentions in
  let text := strip text in
  let '(text, user_map) :=
    if Str.startswith "+" text || Str.startswith "@" text then
      let user_name := default "" (head (Str.split Str.NL text)) in
      let '(text, user_i, user_map) :=
        _replace_with_anonymous_id text user_name user_map in
      (text, user_map)
    else (text, user_map) in
  match author_re with
  | Some findall =>
      let names := findall text in
      let ANON_NAMESET := ANON_NAMESET ∪ list_to_set names in
      let '(text, user_map) :=
        foldl (λ (acc : string * gmap string Z) name,
                 let '(text, _, user_map) :=
                   _replace_with_anonymous_id acc.1 name acc.2 in
                 (text, user_map))
              (text, user_map) (sorted_desc_by String.leb names) in
      (text, user_map, ANON_NAMESET)
  | None => (text, user_map, ANON_NAMESET)
  end.

(** The users of [user_map] are numbered from 0 without gaps above the
    size of the map, and no two names share a number. *)
Definition numbered (user_map : gmap string Z) : Prop :=
  (∀ name i, user_map !! name = Some i → (0 ≤ i < Z.of_nat (size user_map))%Z) ∧
  (∀ name1 name2 i,
     user_map !! name1 = Some i → user_map !! name2 = Some i → name1 = name2).

(** ** Cluster maps whose aliases are plain texts *)

(** A character that stands for itself in a pattern. *)
Definition is_literal_char (c : ascii) : bool :=
  let n := nat_of_ascii c in
  ((65 <=? n) && (n <=? 90)) || ((97 <=? n) && (n <=? 122)) ||
  ((48 <=? n) && (n <=? 57)) || (n =? 45) || (n =? 95) || (n =? 32).

(** A key of the cluster map made of such characters and of the [|]
    that separates its aliases. *)
Fixpoint literal_key (k : string) : bool :=
  match k with
  | EmptyString => true
  | String c k' =>
      (is_literal_char c || bool_decide (c = "|"%char)) && literal_key k'
  end.

(** The tables of the instance are those [__init__] builds from
    [cluster_map]. *)
Definition tables_of (cluster_map : odict string string)
    (self : GraphCreator) : Prop :=
  website_name_re self = Some (NameRe.compile (ODict.keys cluster_map)) ∧
  domains_to_clusters self = Some (_prepare_cluster_map cluster_map).

(** The attribution of a connection, when there is one, has an entry in
    the styling table. *)
Definition author_ok (styling : gmap string (string * string))
    (c : connection) : Prop :=
  ∀ a, c.1.2 = Some a → Str.truthy a → is_Some (styling !! a).

(** A cluster map without wild cards. *)
Definition plain_WEBSITES_TO_CLUSTERS : odict string string :=
  [ ("youtube", "color=red,fontcolor=black");
    ("acsh|gmoanswers", "color=green,fontcolor=black") ].

(** ** Collecting links and comments: [get_links_and_comments],
    [_save_comments] *)

(** A comment, [[author, ahash, comment_link, text, links]]. *)
Record com_data : Type := mkComData {
  com_author : string;
  com_ahash : string;
  com_comment_link : string;
  com_text : string;
  com_links : list string;
}.

(** The data of one page,
    [(name, website, link, main_links, troll_comments, troll_name_mentions)]. *)
Record website_data : Type := mkWebsiteData {
  site_name : string;
  site_website : string;
  site_link : string;
  site_main_links : list string;
  site_troll_comments : list com_data;
  site_troll_name_mentions : list string;
}.

(** [s.endswith(suffix)] *)
Fixpoint endswith (suffix s : string) : bool :=
  bool_decide (s = suffix) ||
  match s with
  | EmptyString => false
  | String _ r => endswith suffix r
  end.

(** [re.search('(\.png|\.jpg)$', l)]: [$] matches at the end of the text
    and before a line break that ends it. *)
Definition is_image_link (l : string) : bool :=
  endswith ".png" l || endswith ".jpg" l ||
  endswith (".png" +:+ Str.nl) l || endswith (".jpg" +:+ Str.nl) l.

(** [l.rstrip('/')] followed by [l.replace('.html', '')] *)
Definition trim_link (l : string) : string :=
  Str.replace ".html" "" (rstrip_by (λ c, bool_decide (c = "/"%char)) l).

(** The locals of [get_links_and_comments]. *)
Record links_state : Type := mkLinksState {
  links_connections : list connection;
  website_links : gset string;
  troll_map : odict string (list com_data);
  trolls_by_name : odict string Z;
}.

Section Links.

(** [urlparse(l).netloc] and [urlparse(l).path] *)
Variable urlparse_netloc : string → result string.
Variable urlparse_path : string → result string.
(** Module global. *)
Variable SPECIAL_USER_STYLING : gmap string (string * string).

(** The loop over [main_links]. *)
Definition main_link_step (website name : string)
    (acc : result (list connection)) (l : string) : result (list connection) :=
  connections ← acc;
  if is_image_link l then mret connections
  else
    '(l, domain) ← _shorten_link urlparse_netloc (trim_link l);
    mret (connections ++ [((website, None), (l, Some domain), None, Some name)]).

(** The loop over [troll_links]. *)
Definition troll_link_step (website ahash : string)
    (acc : result (list connection)) (l : string) : result (list connection) :=
  connections ← acc;
  if negb (Str.has_char "." l) || negb (Str.has_char "/" l)
  then mret connections
  else
    '(l, domain) ← _shorten_link urlparse_netloc l;
    mret (connections ++ [((website, None), (l, Some domain), Some ahash, None)]).

(** The loop over [troll_comments]. *)
Definition comment_step (website : string) (acc : result links_state)
    (com : com_data) : result links_state :=
  st ← acc;
  let trolls_by_name := ODict.incr (com_author com) (trolls_by_name st) in
  let troll_map := ODict.append website com (troll_map st) in
  connections ← foldl (troll_link_step website (com_ahash com))
                      (mret (links_connections st)) (com_links com);
  mret (mkLinksState connections (website_links st) troll_map trolls_by_name).

(** The loop over [data]. *)
Definition website_step (acc : result links_state) (wd : website_data)
    : result links_state :=
  st ← acc;
  let website :=
    if Str.truthy (site_website wd) then site_website wd else site_link wd in
  let link := trim_link (site_link wd) in
  '(skip, website_links) ←
    (if bool_decide (link ∈ website_links st)
     then path ← urlparse_path link; mret (Str.truthy path, website_links st)
     else mret (false, {[link]} ∪ website_links st));
  if (skip : bool) then mret st
  else
    connections ← foldl (main_link_step website (site_name wd))
                        (mret (links_connections st)) (site_main_links wd);
    foldl (comment_step website)
          (mret (mkLinksState connections website_links (troll_map st)
                   (trolls_by_name st)))
          (site_troll_comments wd).

(** [get_links_and_comments]: returns [(connections, troll_comments)]. *)
Definition get_links_and_comments (data : list website_data)
    : result (list connection * odict string (list com_data)) :=
  st ← foldl website_step (mret (mkLinksState [] ∅ [] [])) data;
  mret (links_connections st, troll_map st).

(** [_save_comments], the text of one comment. *)
Definition comment_as_text (i : nat) (com : com_data) : result string :=
  style ← getitem (com_ahash com) (SPECIAL_USER_STYLING !! com_ahash com);
  let anon_name := style.1 in
  mret ("====" +:+ Str.nl +:+ Str.of_Z (Z.of_nat i) +:+ Str.nl
        +:+ anon_name +:+ Str.nl +:+ com_comment_link com +:+ Str.nl
        +:+ "---" +:+ Str.nl +:+ com_text com +:+ Str.nl).

(** [_save_comments]: the name and the text of the file that
    [_save_to_textfile] writes. *)
Definition _save_comments (trolls_by_website : odict string (list com_data))
    : result (string * string) :=
  textlines ←
    foldl (λ acc (item : string * list com_data),
             textlines ← acc;
             let '(website, comments) := item in
             let textlines :=
               textlines ++ [Str.nl +:+ Str.nl +:+ "### " +:+ website
                             +:+ " ###" +:+ Str.nl +:+ Str.nl] in
             lines ← mapM (λ ic : nat * com_data, comment_as_text ic.1 ic.2)
                          (imap pair comments);
             mret (textlines ++ lines))
          (mret []) trolls_by_website;
  mret ("comments.txt", Str.join Str.nl textlines).

End Links.

(** The comments kept under some page of [troll_map]. *)
Definition kept_comment (troll_map : odict string (list com_data))
    (com : com_data) : Prop :=
  ∃ item, item ∈ troll_map ∧ com ∈ item.2.

(** [urllib.parse.urlparse(url).path], an executable instance that
    follows [urlsplit] like [Urlparse.netloc]: what comes after the
    scheme, which starts with a letter, and the network location, up to
    the first of [?#]. The removal of control characters and the checks
    on non-ASCII hosts are left out; [get_links_and_comments] itself
    takes the routine as a parameter. *)
Module UrlparsePath.

Definition is_alpha (c : ascii) : bool :=
  let n := nat_of_ascii c in
  ((65 <=? n) && (n <=? 90)) || ((97 <=? n) && (n <=? 122)).

Definition after_scheme (url : string) : option string :=
  match url with
  | String c _ => if is_alpha c then Urlparse.after_scheme false url else None
  | EmptyString => None
  end.

Fixpoint from_delim (s : string) : string :=
  match s with
  | EmptyString => EmptyString
  | String c r => if Urlparse.is_delim c then s else from_delim r
  end.

Fixpoint until_query (s : string) : string :=
  match s with
  | EmptyString => EmptyString
  | String c r =>
      if bool_decide (c = "?"%char) || bool_decide (c = "#"%char)
      then EmptyString else String c (until_query r)
  end.

Definition path (url : string) : result string :=
  let url := default url (after_scheme url) in
  match url with
  | String "/"%char (String "/"%char r) =>
      let loc := Urlparse.until_delim r in
      if xorb (Str.has_char "["%char loc) (Str.has_char "]"%char loc)
      then raise ValueError
      else mret (until_query (from_delim r))
  | _ => mret (until_query url)
  end.

End UrlparsePath.

(** What [get_links_and_comments] makes of a link: the source has no
    domain, the target has one and its link is in lower case, and the
    connection carries either the name of the page it was found on or the
    hash of a comment kept in [troll_map], never both. *)
Definition link_shape (troll_map : odict string (list com_data))
    (c : connection) : Prop :=
  c.1.1.1.2 = None ∧
  (∃ d, c.1.1.2.2 = Some d) ∧
  Str.lower c.1.1.2.1 = c.1.1.2.1 ∧
  ((c.1.2 = None ∧ is_Some c.2)
   ∨ (c.2 = None ∧
      ∃ com, kept_comment troll_map com ∧ c.1.2 = Some (com_ahash com))).

(** Two pages with suspect comments. *)
Definition two_pages : list website_data :=
  [ {| site_name := "youtube";
       site_website := "Field trial talk - YouTube";
       site_link := "https://www.youtube.com/watch?v=abc";
       site_main_links := [];
       site_troll_comments :=
         [ {| com_author := "Popeye the Sailor";
              com_ahash := "98f9ede02a07db6f8dd00f2e353425e5";
              com_comment_link := "www.youtube.com/watch?v=abc&lc=1";
              com_text := "read this";
              com_links := ["https://www.acsh.org/News/1"; "not a link"] |};
           {| com_author := "Duke";
              com_ahash := "3364ba675ce232d4b03e50d00f6492fc";
              com_comment_link := "www.youtube.com/watch?v=abc&lc=2";
              com_text := "and this";
              com_links := ["http://t1.org/a"] |} ];
       site_troll_name_mentions := [] |};
    {| site_name := "youtube";
       site_website := "";
       site_link := "https://www.youtube.com/watch?v=def/";
       site_main_links := [];
       site_troll_comments :=
         [ {| com_author := "Duke";
              com_ahash := "3364ba675ce232d4b03e50d00f6492fc";
              com_comment_link := "www.youtube.com/watch?v=def&lc=1";
              com_text := "see";
              com_links := ["https://gmoanswers.com/ask"] |} ];
       site_troll_name_mentions := [] |} ].

(** What [get_links_and_comments] returns for [two_pages]. *)
Definition two_pages_links : list connection * odict string (list com_data) :=
  Eval vm_compute in
    match get_links_and_comments Urlparse.netloc UrlparsePath.path two_pages with
    | inr r => r
    | inl _ => ([], [])
    end.

(** The file [_save_comments] writes for [two_pages]. *)
Definition two_pages_comments : string * string :=
  Eval vm_compute in
    match _save_comments main_SPECIAL_USER_STYLING two_pages_links.2 with
    | inr r => r
    | inl _ => ("", "")
    end.

(** What the loops keep: the shape of the connections, and where the
    kept comments come from. *)
Definition links_inv (pages : list website_data) (st : links_state) : Prop :=
  Forall (link_shape (troll_map st)) (links_connections st) ∧
  ∀ com, kept_comment (troll_map st) com →
    ∃ wd, wd ∈ pages ∧ com ∈ site_troll_comments wd.

(** ** The run of the script on the data of the pages *)

(** [_save_website_data]: the files written, in order. *)
Definition _save_website_data (website_data : list website_data)
    : list (string * string) :=
  [ ("website_links.txt", Str.join Str.nl (site_link <$> website_data));
    ("websites.txt", Str.join Str.nl (site_website <$> website_data)) ].

Section Analysis.

Variable wrap : string → nat → list string.
Variable quote : string → string.
Variable set_iter : list Z → list Z.
Variable urlparse_netloc : string → result string.
Variable urlparse_path : string → result string.
Variable SPECIAL_USER_STYLING : gmap string (string * string).
Variable WEBSITES_TO_CLUSTERS : odict string string.
Variable MAX_NODE_LINE_LENGTH : nat.
Variable MAX_NODES_IN_COLUMN : Z.
Variable BASE_EDGE_WIDTH : Z.
Variable MINIMIZE_EDGE_NUMBER : bool.

(** [analyze_all_websites_in_folder] from the point where the data of
    the pages are loaded; [cluster_map] and [starting_cluster] are its
    [graph_args]. Returns the files written, in order, and the exception
    that ended the run, if one did. *)
Definition analyze_data (cluster_map : option (odict string string))
    (starting_cluster : option string) (data : list website_data)
    : list (string * string) * option exn :=
  match data with
  | [] => ([], None)
  | _ =>
      let files := _save_website_data data in
      match get_links_and_comments urlparse_netloc urlparse_path data with
      | inl e => (files, Some e)
      | inr (connections, troll_comments) =>
          match _save_comments SPECIAL_USER_STYLING troll_comments with
          | inl e => (files, Some e)
          | inr file =>
              let files := files ++ [file] in
              match connections with
              | [] => (files, None)
              | _ =>
                  let graph_maker :=
                    set_connections
                      (GraphCreator_init cluster_map starting_cluster)
                      connections in
                  match make_graph wrap quote set_iter SPECIAL_USER_STYLING
                          WEBSITES_TO_CLUSTERS MAX_NODE_LINE_LENGTH
                          MAX_NODES_IN_COLUMN BASE_EDGE_WIDTH
                          MINIMIZE_EDGE_NUMBER graph_maker with
                  | inl e => (files, Some e)
                  | inr (graph_maker, graph) =>
                      let files := files ++ [("graph.gv", graph)] in
                      let 'mkGraphCreator its_connections _ _ _ _ _ _ :=
                        graph_maker in
                      let url_counts := _get_url_counts its_connections in
                      (files ++ [_save_url_counts url_counts], None)
                  end
              end
          end
      end
  end.

End Analysis.

(** The characters of the placeholders [[USER n]] and [[USER n NAME]],
    the brackets apart. *)
Definition placeholder_chars : string := "USERNAM 0123456789-".

(** A name that no placeholder holds or completes: it is not empty, has
    no square bracket, and has a character that no placeholder has. *)
Definition distinctive (name : string) : Prop :=
  Str.truthy name ∧
  Str.has_char "[" name = false ∧ Str.has_char "]" name = false ∧
  ∃ c, Str.has_char c name = true ∧ Str.has_char c placeholder_chars = false.

(** What [GRAPH_TEMPLATE] holds before its first marker. *)
Definition template_head (BASE_EDGE_WIDTH : Z) : string :=
  HEAD +:+ Str.nl +:+ "digraph Connections {" +:+ Str.nl +:+ Str.nl +:+
  ("  edge [color=" +:+ Str.dq +:+ "#8caff3" +:+ Str.dq +:+ ", penwidth="
   +:+ Str.dq +:+ Str.of_Z BASE_EDGE_WIDTH +:+ Str.dq +:+ "];") +:+ Str.nl +:+
  ("  node [color=" +:+ Str.dq +:+ "#4bc9c8" +:+ Str.dq +:+ ", fontcolor="
   +:+ Str.dq +:+ "#dddddd" +:+ Str.dq +:+ "];") +:+ Str.nl +:+
  ("  graph [fontname=" +:+ Str.dq +:+ "Helvetica" +:+ Str.dq
   +:+ ", bgcolor=" +:+ Str.dq +:+ "#252525" +:+ Str.dq
   +:+ ", ranksep=" +:+ Str.dq +:+ "2" +:+ Str.dq
   +:+ ", nodesep=" +:+ Str.dq +:+ "1.2" +:+ Str.dq
   +:+ ", rankdir=" +:+ Str.dq +:+ "LR" +:+ Str.dq
   +:+ ", splines=" +:+ Str.dq +:+ "line" +:+ Str.dq
   +:+ ", newrank=" +:+ Str.dq +:+ "true" +:+ Str.dq
   +:+ ", overlap=" +:+ Str.dq +:+ "prism" +:+ Str.dq +:+ "];")
  +:+ Str.nl +:+ Str.nl.


(** * Properties *)

(** ** Canonicalization *)

Lemma lower_char_idem c : Str.lower_char (Str.lower_char c) = Str.lower_char c.
Proof. destruct c as [[] [] [] [] [] [] [] []]; reflexivity. Qed.

Lemma lower_idem s : Str.lower (Str.lower s) = Str.lower s.
Proof.
  induction s as [|c s IH]; simpl; [done|].
  by rewrite lower_char_idem, IH.
Qed.

(** A text all of whose letters are lower-case stays so under the
    deletions [_shorten_link] performs. *)
Lemma lower_fixed_cons c s :
  Str.lower (String c s) = String c s → Str.lower_char c = c ∧ Str.lower s = s.
Proof. simpl. intros [= Hc Hs]. done. Qed.

Lemma append_cons c s t : String c s +:+ t = String c (s +:+ t).
Proof. reflexivity. Qed.

Lemma append_nil t : "" +:+ t = t.
Proof. reflexivity. Qed.

Lemma append_assoc s t u : (s +:+ t) +:+ u = s +:+ (t +:+ u).
Proof.
  induction s as [|c s IH]; [done|].
  by rewrite !append_cons, IH.
Qed.

Lemma lower_fixed_app s1 s2 :
  Str.lower (s1 +:+ s2) = s1 +:+ s2 → Str.lower s2 = s2.
Proof.
  induction s1 as [|c s1 IH]; [done|].
  rewrite append_cons. intros [_ Hs]%lower_fixed_cons. auto.
Qed.

Lemma strip_prefix_Some p s r :
  Str.strip_prefix p s = Some r → s = p +:+ r.
Proof.
  revert s. induction p as [|a p IH]; intros s; simpl.
  - by intros [= ->].
  - destruct s as [|b s]; [done|].
    case_decide; [|done]. intros Hr%IH. by subst.
Qed.

Lemma skip_s_suffix r : ∃ p, r = p +:+ Re.skip_s r.
Proof.
  induction r as [|c r [p IH]]; simpl.
  - by exists "".
  - case_decide.
    + exists (String c p). rewrite append_cons. by f_equal.
    + by exists "".
Qed.

Lemma sub_http_scheme_suffix l : ∃ p, l = p +:+ Re.sub_http_scheme l.
Proof.
  unfold Re.sub_http_scheme.
  destruct (Str.strip_prefix "http" l) as [r|] eqn:Hr; [|by exists ""].
  destruct (Str.strip_prefix "://" (Re.skip_s r)) as [r'|] eqn:Hr'; [|by exists ""].
  apply strip_prefix_Some in Hr, Hr'.
  destruct (skip_s_suffix r) as [p Hp].
  exists ("http" +:+ p +:+ "://"). subst l.
  rewrite Hp at 1. rewrite Hr'.
  by rewrite !append_assoc.
Qed.

Lemma lower_fixed_sub_http_scheme l :
  Str.lower l = l → Str.lower (Re.sub_http_scheme l) = Re.sub_http_scheme l.
Proof.
  intros H. destruct (sub_http_scheme_suffix l) as [p Hp].
  rewrite Hp in H. by apply lower_fixed_app in H.
Qed.

Lemma lower_fixed_replace_go old s k :
  Str.lower s = s →
  Str.lower (Str.replace_go old "" s k) = Str.replace_go old "" s k.
Proof.
  revert k. induction s as [|c s IH]; intros k H; simpl; [done|].
  apply lower_fixed_cons in H as [Hc Hs].
  destruct k as [|k]; [|by apply IH].
  destruct (Str.startswith old (String c s)).
  - rewrite append_nil. by apply IH.
  - simpl. by rewrite Hc, IH.
Qed.

Lemma lower_fixed_sub_www l :
  Str.lower l = l → Str.lower (Re.sub_www l) = Re.sub_www l.
Proof. intros H. unfold Re.sub_www, Str.replace. by apply lower_fixed_replace_go. Qed.

(** The normalized link [_shorten_link] returns is lower-case. *)
Lemma normalized_link_lower s :
  let l := Re.sub_http_scheme (Re.sub_www (Str.lower s)) in Str.lower l = l.
Proof.
  simpl. apply lower_fixed_sub_http_scheme, lower_fixed_sub_www, lower_idem.
Qed.

Lemma shorten_link_inv (N : string → result string) s l d :
  _shorten_link N s = inr (l, d) →
  l = Re.sub_http_scheme (Re.sub_www (Str.lower s)) ∧
  ∃ dom, N (Re.sub_www (Str.lower s)) = inr dom.
Proof.
  unfold _shorten_link. simpl.
  destruct (N (Re.sub_www (Str.lower s))) as [e|dom]; simpl; [done|].
  intros [= <- <-]. eauto.
Qed.

(** C2 (as amended). Canonicalization is a function of the link, and it
    is idempotent on canonical output: when the normalized link [l] that
    [_shorten_link] returned holds no further [www.] and no leading
    [http(s)://], canonicalizing [l] again returns [l] as normalized link
    (or [urlparse] rejects [l]). The second pass returns the same
    [(normalized_link, domain)] pair exactly when [urlparse] accepts [l]
    and the domain [d] of the first pass is the domain read off [l]: the
    last two labels of the network location found in [l] (that location
    itself when it has no two such labels) or, when none is found, the
    text of [l] before its first [/] (the empty text when no [/] comes
    before the first line break of [l]). This is so whenever the first
    pass found no [http(s)://] prefix to strip. *)
Theorem shorten_link_idempotent_on_canonical
    (N : string → result string) (s l d : string) :
  _shorten_link N s = inr (l, d) →
  Re.sub_www l = l →
  Re.sub_http_scheme l = l →
  match _shorten_link N l with
  | inr (l', _) => l' = l
  | inl e => N l = inl e
  end ∧
  (Re.sub_http_scheme (Re.sub_www (Str.lower s)) = Re.sub_www (Str.lower s) →
   _shorten_link N l = inr (l, d)) ∧
  (_shorten_link N l = inr (l, d)
   ↔ ∃ dom, N l = inr dom ∧
       d = if Str.truthy dom
           then default dom (Re.search_last_two_labels dom)
           else default dom (Re.search_dom_start l)).
Proof.
  intros Hs Hwww Hhttp.
  destruct (shorten_link_inv _ _ _ _ Hs) as [Hl _].
  assert (Hlow : Str.lower l = l) by (rewrite Hl; apply normalized_link_lower).
  split_and!.
  - unfold _shorten_link. rewrite Hlow, Hwww. simpl.
    destruct (N l) as [e|dom]; simpl; [done|]. by rewrite Hhttp.
  - intros Hno. rewrite Hno in Hl.
    rewrite <-Hs. unfold _shorten_link.
    by rewrite Hlow, Hwww, Hl.
  - unfold _shorten_link. rewrite Hlow, Hwww, Hhttp. simpl.
    destruct (N l) as [e|dom]; simpl.
    + split; [done|]. by intros (dom & [=] & _).
    + split.
      * intros [= <-]. by exists dom.
      * intros (dom' & [= <-] & ->). done.
Qed.

Lemma shorten_link_idempotent_on_canonical_witness :
  match _shorten_link Urlparse.netloc "example.com/page.html" with
  | inr (l', _) => l' = "example.com/page.html"
  | inl e => Urlparse.netloc "example.com/page.html" = inl e
  end ∧
  (Re.sub_http_scheme (Re.sub_www (Str.lower "Example.com/Page.html"))
   = Re.sub_www (Str.lower "Example.com/Page.html") →
   _shorten_link Urlparse.netloc "example.com/page.html"
   = inr ("example.com/page.html", "example.com")) ∧
  (_shorten_link Urlparse.netloc "example.com/page.html"
   = inr ("example.com/page.html", "example.com")
   ↔ ∃ dom, Urlparse.netloc "example.com/page.html" = inr dom ∧
       "example.com"
       = if Str.truthy dom
         then default dom (Re.search_last_two_labels dom)
         else default dom (Re.search_dom_start "example.com/page.html")).
Proof.
  apply (shorten_link_idempotent_on_canonical Urlparse.netloc
           "Example.com/Page.html" "example.com/page.html" "example.com");
    vm_compute; reflexivity.
Defined.

(** C2 (as stated) fails: a link with a sub-domain and a scheme gets the
    domain of its last two labels, but its normalized form, which has
    lost the scheme, gets the whole text before the first [/]. *)
Lemma shorten_link_not_idempotent :
  _shorten_link Urlparse.netloc "https://mail.example.com/x"
  = inr ("mail.example.com/x", "example.com") ∧
  _shorten_link Urlparse.netloc "mail.example.com/x"
  = inr ("mail.example.com/x", "mail.example.com") ∧
  _shorten_link Urlparse.netloc "mail.example.com/x"
  ≠ _shorten_link Urlparse.netloc "https://mail.example.com/x".
Proof. vm_compute. split_and!; [reflexivity..|discriminate]. Qed.

(** The scenario of the specification. *)
Example shorten_link_scenario :
  _shorten_link Urlparse.netloc "https://www.Example.com/Page.html"
  = inr ("example.com/page.html", "example.com").
Proof. vm_compute. reflexivity. Qed.

(** A link with a scheme whose host has two labels and is followed by a
    path keeps its pair on the second pass. *)
Example shorten_link_scheme_kept :
  _shorten_link Urlparse.netloc "https://example.com/x"
  = inr ("example.com/x", "example.com") ∧
  _shorten_link Urlparse.netloc "example.com/x"
  = inr ("example.com/x", "example.com").
Proof. vm_compute. split; reflexivity. Qed.

(** After a stripped scheme the second pass may still find a network
    location. *)
Example shorten_link_second_scheme :
  _shorten_link Urlparse.netloc "http://ftp://x.com/y"
  = inr ("ftp://x.com/y", "ftp:") ∧
  _shorten_link Urlparse.netloc "ftp://x.com/y"
  = inr ("ftp://x.com/y", "x.com").
Proof. vm_compute. split; reflexivity. Qed.

(** ** Stable sorting *)

Section StableSortFacts.
Context {A : Type} (key : A → Z).
Local Open Scope Z_scope.

Lemma insert_desc_Permutation x l : insert_desc key x l ≡ₚ x :: l.
Proof.
  induction l as [|y l IH]; simpl; [done|].
  case_match; [done|]. rewrite IH. apply Permutation_swap.
Qed.

Lemma sorted_desc_Permutation l : sorted_desc key l ≡ₚ l.
Proof.
  induction l as [|x l IH]; simpl; [done|].
  by rewrite insert_desc_Permutation, IH.
Qed.

Lemma insert_desc_StronglySorted x l :
  StronglySorted (λ a b, key b ≤ key a) l →
  StronglySorted (λ a b, key b ≤ key a) (insert_desc key x l).
Proof.
  induction 1 as [|y l Hl IH Hy]; simpl.
  - repeat constructor.
  - destruct (key y <=? key x) eqn:Hle.
    + apply Z.leb_le in Hle. constructor; [by constructor|].
      constructor; [done|]. eapply Forall_impl; [exact Hy|].
      simpl. intros. lia.
    + apply Z.leb_gt in Hle. constructor; [done|].
      rewrite insert_desc_Permutation. constructor; [lia|done].
Qed.

Lemma sorted_desc_StronglySorted l :
  StronglySorted (λ a b, key b ≤ key a) (sorted_desc key l).
Proof.
  induction l as [|x l IH]; simpl; [constructor|].
  by apply insert_desc_StronglySorted.
Qed.

(** Stability: elements of equal key keep their relative order. *)
Lemma insert_desc_stable x l k :
  filter (λ a, key a = k) (insert_desc key x l)
  = filter (λ a, key a = k) (x :: l).
Proof.
  induction l as [|y l IH]; simpl; [done|].
  destruct (key y <=? key x) eqn:Hle; [done|].
  apply Z.leb_gt in Hle.
  rewrite !filter_cons in *.
  repeat case_decide; try lia; by rewrite IH.
Qed.

Lemma sorted_desc_stable l k :
  filter (λ a, key a = k) (sorted_desc key l) = filter (λ a, key a = k) l.
Proof.
  induction l as [|x l IH]; simpl; [done|].
  rewrite insert_desc_stable, !filter_cons, IH. done.
Qed.

Lemma insert_desc_fmap {B} (f : A → B) (key' : B → Z) x l :
  (∀ a, key' (f a) = key a) →
  insert_desc key' (f x) (f <$> l) = f <$> insert_desc key x l.
Proof.
  intros Hk. induction l as [|y l IH]; [done|].
  rewrite fmap_cons. cbn [insert_desc]. rewrite !Hk, IH.
  by case_match.
Qed.

Lemma sorted_desc_fmap {B} (f : A → B) (key' : B → Z) l :
  (∀ a, key' (f a) = key a) →
  sorted_desc key' (f <$> l) = f <$> sorted_desc key l.
Proof.
  intros Hk. induction l as [|x l IH]; [done|].
  rewrite fmap_cons.
  change (insert_desc key' (f x) (sorted_desc key' (f <$> l))
          = f <$> insert_desc key x (sorted_desc key l)).
  rewrite IH. by apply insert_desc_fmap.
Qed.
End StableSortFacts.

(** ** Ordering of the nodes by cluster and influence *)

Lemma mapM_result_all {A B} (f : A → result B) (g : A → B) l :
  Forall (λ x, f x = inr (g x)) l → mapM f l = inr (g <$> l).
Proof.
  induction 1 as [|x l Hx _ IH]; [done|].
  cbn [mapM]. rewrite Hx. simpl. rewrite IH. done.
Qed.

Lemma filter_none {A} (P : A → Prop) `{!∀ x, Decision (P x)} (l : list A) :
  Forall (λ x, ¬ P x) l → filter P l = [].
Proof.
  induction 1 as [|x l Hx _ IH]; [done|].
  by rewrite filter_cons, decide_False, IH.
Qed.

Section Reorder.
Variable set_iter : list Z → list Z.
Variable conn_num : gmap Z Z.
Local Open Scope Z_scope.

Lemma sort_by_influence_total (nodes : list (Z * string)) :
  Forall (λ nd, is_Some (conn_num !! nd.1)) nodes →
  _sort_by_influence nodes conn_num
  = inr (sorted_desc (λ nd, inbound conn_num nd.1) nodes).
Proof.
  intros Hall. unfold _sort_by_influence.
  rewrite (mapM_result_all _ (λ nd, (inbound conn_num nd.1, nd))).
  - simpl. f_equal.
    rewrite (sorted_desc_fmap (λ nd, inbound conn_num nd.1)); [|done].
    rewrite <-list_fmap_compose. apply list_fmap_id.
  - eapply Forall_impl; [exact Hall|].
    intros nd [k Hk]. unfold inbound. rewrite Hk. done.
Qed.

Lemma reorder_step_column cl normal nfc c nodes :
  (∀ n, n ∈ set_iter nodes → is_Some (conn_num !! n)) →
  reorder_step set_iter conn_num (inr (cl, normal, nfc)) (c, nodes)
  = inr (ODict.set c (set_iter nodes) cl,
         if decide (c = "nongrouped")
         then cluster_column set_iter conn_num (c, nodes) else normal,
         if decide (c = "nongrouped") then nfc
         else nfc ++ cluster_column set_iter conn_num (c, nodes)).
Proof.
  intros Hcov. unfold reorder_step. simpl.
  rewrite sort_by_influence_total.
  - simpl.
    rewrite (sorted_desc_fmap (inbound conn_num) (λ n, (n, c))); [|done].
    unfold cluster_column. simpl. by case_decide.
  - apply Forall_fmap, Forall_forall. intros n Hn. by apply Hcov.
Qed.

Lemma reorder_loop cl0 (items : odict string (list Z)) :
  NoDup items.*1 →
  (∀ item n, item ∈ items → n ∈ set_iter item.2 → is_Some (conn_num !! n)) →
  ∃ cl',
    foldl (reorder_step set_iter conn_num) (mret (cl0, [], [])) items
    = inr (cl',
           concat (cluster_column set_iter conn_num
                   <$> filter is_nongrouped items),
           concat (cluster_column set_iter conn_num
                   <$> filter (λ i, ¬ is_nongrouped i) items)).
Proof.
  induction items as [|[c nodes] items IH] using rev_ind; intros Hnd Hcov.
  { by exists cl0. }
  rewrite fmap_app in Hnd. apply NoDup_app in Hnd as (Hnd & Hfresh & _).
  destruct IH as [cl' IH]; [done| |].
  { intros item n Hi Hn. apply (Hcov item n); [|done].
    apply elem_of_app. by left. }
  rewrite foldl_app, IH. cbn [foldl].
  rewrite reorder_step_column.
  2:{ intros n Hn. apply (Hcov (c, nodes) n); [|done].
      apply elem_of_app. right. by apply list_elem_of_singleton. }
  eexists. rewrite !filter_app, !fmap_app, !concat_app.
  rewrite !filter_cons, !filter_nil.
  destruct (decide (c = "nongrouped")) as [Hc|Hc].
  - rewrite (decide_True (P := is_nongrouped (c, nodes))) by exact Hc.
    rewrite (decide_False (P := ¬ is_nongrouped (c, nodes)))
      by (intros Hn; by apply Hn).
    assert (filter is_nongrouped items = []) as ->.
    { apply filter_none, Forall_forall. intros [c' n'] Hin Hng.
      apply (Hfresh c'); [by apply (list_elem_of_fmap_2 fst _ (c', n'))|].
      unfold is_nongrouped in Hng. simpl in Hng. subst.
      by apply list_elem_of_singleton. }
    simpl. by rewrite !app_nil_r.
  - rewrite (decide_False (P := is_nongrouped (c, nodes))) by exact Hc.
    rewrite (decide_True (P := ¬ is_nongrouped (c, nodes))) by exact Hc.
    simpl. by rewrite !app_nil_r.
Qed.
End Reorder.

Lemma first_seen_elem l x : x ∈ first_seen l ↔ x ∈ l.
Proof.
  induction l as [|y l IH]; simpl; [done|].
  rewrite !elem_of_cons, list_elem_of_filter, IH.
  destruct (decide (x = y)); tauto.
Qed.

Lemma first_seen_NoDup l : NoDup (first_seen l).
Proof.
  induction l as [|y l IH]; simpl; constructor.
  - rewrite list_elem_of_filter. intros [Hy _]. by apply Hy.
  - by apply NoDup_filter.
Qed.

(** The slot-ordered instance honours the contract of a set. *)
Lemma set_iter_slots_contract l : set_contract set_iter_slots l.
Proof.
  assert (set_iter_slots l ≡ₚ first_seen l) as Hp.
  { unfold set_iter_slots.
    by rewrite reverse_Permutation, sorted_desc_Permutation, reverse_Permutation. }
  split.
  - rewrite Hp. apply first_seen_NoDup.
  - intros x. rewrite Hp. apply first_seen_elem.
Qed.

(** C7 (as amended). Within each cluster the layout deduplicates the
    member nodes and sorts them by inbound-edge count, highest first; the
    sort is stable, so nodes of equal count keep the order in which the
    deduplicating set yields them (which need not be the order in which
    they were first seen). The ungrouped cluster comes first, the others
    follow in dictionary order; the result is a function of the clusters,
    the counts and that iteration order. *)
Theorem reorder_sorts_clusters_by_influence
    (set_iter : list Z → list Z) (node_map : gmap Z string)
    (clusters : odict string (list Z)) (conn_num : gmap Z Z) :
  NoDup clusters.*1 →
  (∀ item, item ∈ clusters → set_contract set_iter item.2) →
  (∀ item n, item ∈ clusters → n ∈ item.2 → is_Some (conn_num !! n)) →
  (∃ cl',
     reorder_nodes_by_clusters set_iter node_map clusters conn_num
     = inr (concat (cluster_column set_iter conn_num
                    <$> filter is_nongrouped clusters)
            ++ concat (cluster_column set_iter conn_num
                       <$> filter (λ i, ¬ is_nongrouped i) clusters),
            cl')) ∧
  ∀ item, item ∈ clusters →
    let col := sorted_desc (inbound conn_num) (set_iter item.2) in
    cluster_column set_iter conn_num item = (λ n, (n, item.1)) <$> col ∧
    NoDup col ∧
    (∀ n, n ∈ col ↔ n ∈ item.2) ∧
    StronglySorted (λ a b, inbound conn_num b ≤ inbound conn_num a)%Z col ∧
    ∀ k, filter (λ n, inbound conn_num n = k) col
         = filter (λ n, inbound conn_num n = k) (set_iter item.2).
Proof.
  intros Hnd Hset Hcov. split.
  - unfold reorder_nodes_by_clusters.
    destruct (reorder_loop set_iter conn_num clusters clusters Hnd) as [cl' ->].
    + intros item n Hi Hn. apply (Hcov item n Hi).
      by apply (Hset item Hi).
    + by exists cl'.
  - intros item Hi col. destruct (Hset item Hi) as [Hn He].
    split_and!.
    + done.
    + unfold col. by rewrite sorted_desc_Permutation.
    + intros n. unfold col. by rewrite sorted_desc_Permutation.
    + apply sorted_desc_StronglySorted.
    + intros k. apply sorted_desc_stable.
Qed.

Lemma reorder_sorts_clusters_by_influence_witness :
  ∃ cl',
    reorder_nodes_by_clusters set_iter_slots ∅
      [("nongrouped", [3; 5; 3]); ("youtube", [1; 1])]%Z
      (list_to_map [(1, 0); (3, 1); (5, 2)]%Z)
    = inr ([(5, "nongrouped"); (3, "nongrouped"); (1, "youtube")]%Z, cl').
Proof.
  refine (proj1 (reorder_sorts_clusters_by_influence set_iter_slots ∅
                   [("nongrouped", [3; 5; 3]); ("youtube", [1; 1])]%Z
                   (list_to_map [(1, 0); (3, 1); (5, 2)]%Z) _ _ _)).
  - apply (bool_decide_unpack _). vm_compute. exact I.
  - intros item _. apply set_iter_slots_contract.
  - intros item n Hi Hn.
    repeat (apply elem_of_cons in Hi as [->|Hi]);
      [| |by apply elem_of_nil in Hi];
      simpl in Hn;
      repeat (apply elem_of_cons in Hn as [->|Hn]);
      try (by apply elem_of_nil in Hn);
      vm_compute; eauto.
Defined.

(** C7 (as stated) fails on the tie-break: four sites linked from one
    video get the node numbers 2, 4, 6, 8 in that order, each with one
    inbound edge, and the set of these numbers is iterated from 8; the
    ungrouped column is therefore 8, 2, 4, 6, not the first-seen order
    2, 4, 6, 8. *)
Lemma tie_break_follows_set_iteration :
  (λ r : GraphCreator * body, (clusters r.2, body_connections r.2))
    <$> run_graph_body main_SPECIAL_USER_STYLING main_WEBSITES_TO_CLUSTERS
          four_links
  = inr ([("youtube", [1; 1; 1; 1]); ("nongrouped", [2; 4; 6; 8])],
         [(1, 2, "#ff3838"); (1, 4, "#ff3838");
          (1, 6, "#ff3838"); (1, 8, "#ff3838")])%Z ∧
  (run_graph_body main_SPECIAL_USER_STYLING main_WEBSITES_TO_CLUSTERS
     four_links
   ≫= λ r, ordered_nodes_of set_iter_slots r.2)
  = inr [(8, "nongrouped"); (2, "nongrouped"); (4, "nongrouped");
         (6, "nongrouped"); (1, "youtube")]%Z ∧
  (let conn_num :=
     inbound_counts (∅ : gmap Z string)
       [(1, 2, "#ff3838"); (1, 4, "#ff3838");
        (1, 6, "#ff3838"); (1, 8, "#ff3838")]%Z in
   inbound conn_num <$> [2; 4; 6; 8]%Z = [1; 1; 1; 1]%Z ∧
   cluster_column set_iter_slots conn_num ("nongrouped", [2; 4; 6; 8]%Z)
   = [(8, "nongrouped"); (2, "nongrouped");
      (4, "nongrouped"); (6, "nongrouped")]%Z ∧
   spec_cluster_column conn_num ("nongrouped", [2; 4; 6; 8]%Z)
   = [(2, "nongrouped"); (4, "nongrouped");
      (6, "nongrouped"); (8, "nongrouped")]%Z ∧
   cluster_column set_iter_slots conn_num ("nongrouped", [2; 4; 6; 8]%Z)
   ≠ spec_cluster_column conn_num ("nongrouped", [2; 4; 6; 8]%Z)).
Proof. vm_compute. split_and!; (reflexivity || discriminate). Qed.

(** ** Layout in columns *)

Section Grid.
Local Open Scope Z_scope.
Variable MAX_NODES_IN_COLUMN : Z.

Lemma split_loop self out nac nodes st left :
  (foldl (split_step self out) (nodes, st, left) nac).1.1
  = nodes ++ grid_nodes self nac.
Proof.
  revert nodes st left.
  induction nac as [|[n c] nac IH]; intros nodes st left.
  { simpl. by rewrite app_nil_r. }
  cbn [foldl].
  destruct (split_step self out (nodes, st, left) (n, c)) as [[a b] d] eqn:E.
  rewrite IH. unfold grid_nodes. rewrite filter_cons.
  unfold split_step in E. simpl in *.
  destruct (decide (Some c = starting_cluster self)) as [Hc|Hc].
  - rewrite (bool_decide_eq_true_2 _ Hc) in E. rewrite decide_False by tauto.
    case_bool_decide; by simplify_eq.
  - rewrite (bool_decide_eq_false_2 _ Hc) in E. rewrite decide_True by done.
    simplify_eq. by rewrite fmap_cons, <-app_assoc.
Qed.

Lemma split_columns_nodes self nac conns :
  (split_columns self nac conns).1.1 = grid_nodes self nac.
Proof. unfold split_columns. by rewrite split_loop. Qed.

(** The grouping loop keeps full groups in [node_groups] and fewer than
    a full group in the buffer. *)
Lemma group_loop nodes gs buf i :
  1 ≤ MAX_NODES_IN_COLUMN →
  i = Z.of_nat (length buf) → i < MAX_NODES_IN_COLUMN →
  Forall (λ g, Z.of_nat (length g) = MAX_NODES_IN_COLUMN) gs →
  ∃ gs' buf' i',
    foldl (group_step MAX_NODES_IN_COLUMN) (gs, buf, i) nodes = (gs', buf', i') ∧
    i' = Z.of_nat (length buf') ∧ i' < MAX_NODES_IN_COLUMN ∧
    Forall (λ g, Z.of_nat (length g) = MAX_NODES_IN_COLUMN) gs' ∧
    concat gs' ++ buf' = concat gs ++ buf ++ (Node <$> nodes).
Proof.
  intros HM. revert gs buf i.
  induction nodes as [|n nodes IH]; intros gs buf i Hi Hlt Hgs.
  { exists gs, buf, i. by rewrite app_nil_r. }
  cbn [foldl]. unfold group_step at 2.
  destruct (decide (i = MAX_NODES_IN_COLUMN - 1)) as [Hfull|Hnot].
  - destruct (IH (gs ++ [buf ++ [Node n]]) [] 0) as (gs' & buf' & i' & -> & ? & ? & ? & Hc).
    + done.
    + lia.
    + apply Forall_app. split; [done|]. constructor; [|done].
      rewrite length_app. simpl. lia.
    + exists gs', buf', i'. split_and!; try done.
      rewrite Hc, concat_app. simpl.
      rewrite app_nil_r, <-!app_assoc. done.
  - destruct (IH gs (buf ++ [Node n]) (i + 1)) as (gs' & buf' & i' & -> & ? & ? & ? & Hc).
    + rewrite length_app. simpl. lia.
    + lia.
    + done.
    + exists gs', buf', i'. split_and!; try done.
      rewrite Hc, <-!app_assoc. done.
Qed.

(** With at least one node, the grouping yields full columns followed by
    one last, non-empty, column. *)
Lemma group_nodes_shape nodes :
  1 ≤ MAX_NODES_IN_COLUMN → nodes ≠ [] →
  ∃ init tail_col,
    group_nodes MAX_NODES_IN_COLUMN nodes = init ++ [tail_col] ∧
    Forall (λ g, Z.of_nat (length g) = MAX_NODES_IN_COLUMN) init ∧
    1 ≤ Z.of_nat (length tail_col) ≤ MAX_NODES_IN_COLUMN ∧
    concat init ++ tail_col = Node <$> nodes.
Proof.
  intros HM Hne. unfold group_nodes.
  destruct (group_loop nodes [] [] 0) as (gs & buf & i & -> & Hi & Hlt & Hgs & Hc);
    [done|done|lia|done|].
  cbn [concat app] in Hc. destruct buf as [|b buf].
  - rewrite app_nil_r in Hc.
    destruct gs as [|g gs _] using rev_ind.
    { destruct nodes; [done|discriminate]. }
    destruct (proj1 (Forall_app _ _ _) Hgs) as [Hgs' Hg].
    apply Forall_cons_1 in Hg as [Hg _].
    exists gs, g. split_and!; try done; try lia.
    rewrite <-Hc, concat_app. simpl. by rewrite app_nil_r.
  - exists gs, (b :: buf). split_and!; try done; cbn [length] in *; lia.
Qed.

(** Whatever the column size, a non-empty list of nodes yields at least
    one group. *)
Lemma group_loop_nonempty nodes gs buf i :
  (gs ≠ [] ∨ buf ≠ [] ∨ nodes ≠ []) →
  ∃ gs' buf' i',
    foldl (group_step MAX_NODES_IN_COLUMN) (gs, buf, i) nodes = (gs', buf', i') ∧
    (gs' ≠ [] ∨ buf' ≠ []).
Proof.
  revert gs buf i. induction nodes as [|n nodes IH]; intros gs buf i H.
  { exists gs, buf, i. split; [done|].
    destruct H as [?|[?|?]]; [by left|by right|done]. }
  cbn [foldl]. unfold group_step at 2.
  case_decide; apply IH; [left|right; left];
    intros Heq; apply app_eq_nil in Heq as [_ Heq]; discriminate.
Qed.

Lemma group_nodes_nil_iff nodes :
  group_nodes MAX_NODES_IN_COLUMN nodes = [] ↔ nodes = [].
Proof.
  split; [|by intros ->].
  intros Hg. destruct nodes as [|n nodes]; [done|]. exfalso.
  unfold group_nodes in Hg.
  destruct (group_loop_nonempty (n :: nodes) [] [] 0) as (gs & buf & i & Heq & Hne);
    [by right; right|].
  rewrite Heq in Hg. destruct buf.
  - by destruct Hne.
  - by apply app_eq_nil in Hg as [_ ?].
Qed.

Lemma pad_last_group_ok (gs : list (list cell)) :
  gs ≠ [] → ∃ r, pad_last_group gs = inr r.
Proof.
  intros Hne. unfold pad_last_group.
  destruct gs as [|g gs]; [done|]. simpl.
  destruct (last (g :: gs)) as [l|] eqn:Hl.
  - case_match; eauto.
  - by apply last_None in Hl.
Qed.

Lemma list_insert_last {A} (l : list A) (y x : A) :
  <[pred (length (l ++ [y])) := x]> (l ++ [y]) = l ++ [x].
Proof.
  rewrite length_app. simpl. rewrite Nat.add_1_r. simpl.
  rewrite insert_app_r_alt by done. by rewrite Nat.sub_diag.
Qed.

Lemma pad_last_group_shape init tail_col :
  Forall (λ g, Z.of_nat (length g) = MAX_NODES_IN_COLUMN) init →
  Z.of_nat (length tail_col) ≤ MAX_NODES_IN_COLUMN →
  ∃ k first_group,
    pad_last_group (init ++ [tail_col])
    = inr (init ++ [tail_col ++ replicate k Blank], first_group) ∧
    Z.of_nat (length (tail_col ++ replicate k Blank))
    = match init with
      | [] => Z.of_nat (length tail_col)
      | _ => MAX_NODES_IN_COLUMN
      end.
Proof.
  intros Hinit Htail. unfold pad_last_group.
  assert (head (init ++ [tail_col]) = Some (default tail_col (head init)))
    as -> by (by destruct init).
  rewrite last_snoc. cbv beta iota zeta. rewrite list_insert_last.
  destruct init as [|c init]; simpl.
  - rewrite Z.sub_diag. simpl. exists 0%nat, tail_col.
    by rewrite app_nil_r.
  - apply Forall_cons_1 in Hinit as [Hc Hinit].
    destruct (0 <? Z.of_nat (length c) - Z.of_nat (length tail_col)) eqn:Hd.
    + apply Z.ltb_lt in Hd. eexists _, c. split; [done|].
      rewrite length_app, length_replicate. lia.
    + apply Z.ltb_ge in Hd. exists 0%nat, c.
      rewrite app_nil_r. split; [done|]. lia.
Qed.

Lemma concat_length_full (init : list (list cell)) :
  Forall (λ g, Z.of_nat (length g) = MAX_NODES_IN_COLUMN) init →
  Z.of_nat (length (concat init))
  = MAX_NODES_IN_COLUMN * Z.of_nat (length init).
Proof.
  induction 1 as [|g init Hg _ IH]; simpl; [lia|].
  rewrite length_app. lia.
Qed.

Lemma grid_nodes_nil self nac :
  Forall (λ nc : Z * string, Some nc.2 = starting_cluster self) nac →
  grid_nodes self nac = [].
Proof.
  intros H. unfold grid_nodes. rewrite filter_none; [done|].
  eapply Forall_impl; [exact H|]. simpl. tauto.
Qed.

Lemma grid_nodes_nonempty self nac :
  Exists (λ nc : Z * string, Some nc.2 ≠ starting_cluster self) nac →
  grid_nodes self nac ≠ [].
Proof.
  intros (nc & Hin & Hnc)%Exists_exists Hnil.
  unfold grid_nodes in Hnil. apply fmap_nil_inv in Hnil.
  assert (nc ∈ filter (λ nc : Z * string, Some nc.2 ≠ starting_cluster self) nac)
    as Hf by (by apply list_elem_of_filter).
  rewrite Hnil in Hf. by apply elem_of_nil in Hf.
Qed.

(** [grid_columns] gives the columns [place_nodes_in_grid] works with:
    one returns exactly when the other does. *)
Lemma place_nodes_in_grid_columns self nac conns :
  (∃ r, place_nodes_in_grid MAX_NODES_IN_COLUMN self nac conns = inr r) ↔
  (∃ cols, grid_columns MAX_NODES_IN_COLUMN self nac conns = inr cols).
Proof.
  unfold place_nodes_in_grid, grid_columns.
  destruct (split_columns self nac conns) as [[nodes st] left].
  destruct (pad_last_group (group_nodes MAX_NODES_IN_COLUMN nodes))
    as [e|[cols fg]]; simpl.
  - split; intros [? [=]].
  - split; intros _; eauto.
Qed.

(** C4. When some node lies outside the starting cluster, the columns
    of the grid are full columns of [MAX_NODES_IN_COLUMN] nodes followed
    by one last column, which holds the remaining nodes and then blank
    placeholders; all columns have the same height, the smaller of
    [MAX_NODES_IN_COLUMN] and the number of nodes laid out. *)
Theorem grid_columns_equal_height self nac conns :
  1 ≤ MAX_NODES_IN_COLUMN →
  Exists (λ nc : Z * string, Some nc.2 ≠ starting_cluster self) nac →
  ∃ init tail_col k,
    grid_columns MAX_NODES_IN_COLUMN self nac conns
    = inr (init ++ [tail_col ++ replicate k Blank]) ∧
    concat init ++ tail_col = Node <$> grid_nodes self nac ∧
    Forall (λ col, Z.of_nat (length col) = MAX_NODES_IN_COLUMN) init ∧
    1 ≤ Z.of_nat (length tail_col) ≤ MAX_NODES_IN_COLUMN ∧
    Forall (λ col, Z.of_nat (length col)
                   = MAX_NODES_IN_COLUMN
                     `min` Z.of_nat (length (grid_nodes self nac)))
           (init ++ [tail_col ++ replicate k Blank]).
Proof.
  intros HM Hex. apply grid_nodes_nonempty in Hex.
  unfold grid_columns.
  pose proof (split_columns_nodes self nac conns) as Hn.
  destruct (split_columns self nac conns) as [[nodes st] left].
  simpl in Hn. subst nodes.
  destruct (group_nodes_shape (grid_nodes self nac) HM Hex)
    as (init & tail_col & -> & Hinit & Htail & Hcat).
  destruct (pad_last_group_shape init tail_col Hinit) as (k & fg & -> & Hk);
    [lia|].
  exists init, tail_col, k. split_and!; try done; try lia.
  assert (Z.of_nat (length (grid_nodes self nac))
          = MAX_NODES_IN_COLUMN * Z.of_nat (length init)
            + Z.of_nat (length tail_col)) as Hlen.
  { rewrite <-(length_fmap Node), <-Hcat, length_app.
    rewrite Nat2Z.inj_add, concat_length_full by done. done. }
  apply Forall_app. split.
  - apply Forall_forall. intros col Hin.
    pose proof (proj1 (Forall_forall _ _) Hinit col Hin) as Hcol.
    destruct init as [|c init]; [by apply elem_of_nil in Hin|].
    simpl in Hlen, Hcol. nia.
  - constructor; [|done]. rewrite Hk.
    destruct init as [|c init]; simpl in Hlen; nia.
Qed.

(** C10. [place_nodes_in_grid] raises [IndexError] when every node of
    the ordered list belongs to the starting cluster, and returns a grid
    when some node lies outside it. *)
Theorem place_nodes_in_grid_needs_outside_node self nac conns :
  (Forall (λ nc : Z * string, Some nc.2 = starting_cluster self) nac →
   place_nodes_in_grid MAX_NODES_IN_COLUMN self nac conns = inl IndexError) ∧
  (Exists (λ nc : Z * string, Some nc.2 ≠ starting_cluster self) nac →
   ∃ grid,
     place_nodes_in_grid MAX_NODES_IN_COLUMN self nac conns
     = inr (grid, false)).
Proof.
  unfold place_nodes_in_grid.
  pose proof (split_columns_nodes self nac conns) as Hn.
  destruct (split_columns self nac conns) as [[nodes st] left].
  simpl in Hn. subst nodes. split.
  - intros Hall. rewrite (grid_nodes_nil _ _ Hall). done.
  - intros Hex. apply grid_nodes_nonempty in Hex.
    destruct (pad_last_group_ok (group_nodes MAX_NODES_IN_COLUMN (grid_nodes self nac)))
      as [[gs fg] ->].
    + by rewrite group_nodes_nil_iff.
    + simpl. eauto.
Qed.
End Grid.

Lemma grid_columns_equal_height_witness :
  ∃ init tail_col k,
    grid_columns 3 (graph_maker main_WEBSITES_TO_CLUSTERS STARTING_CLUSTER [])
      [(8, "nongrouped"); (2, "nongrouped"); (4, "nongrouped");
       (6, "nongrouped"); (1, "youtube")]%Z []
    = inr (init ++ [tail_col ++ replicate k Blank]) ∧
    concat init ++ tail_col
    = Node <$> grid_nodes
                 (graph_maker main_WEBSITES_TO_CLUSTERS STARTING_CLUSTER [])
                 [(8, "nongrouped"); (2, "nongrouped"); (4, "nongrouped");
                  (6, "nongrouped"); (1, "youtube")]%Z ∧
    Forall (λ col, Z.of_nat (length col) = 3%Z) init ∧
    (1 ≤ Z.of_nat (length tail_col) ≤ 3)%Z ∧
    Forall (λ col, Z.of_nat (length col)
                   = (3 `min` Z.of_nat (length (grid_nodes
                        (graph_maker main_WEBSITES_TO_CLUSTERS STARTING_CLUSTER [])
                        [(8, "nongrouped"); (2, "nongrouped"); (4, "nongrouped");
                         (6, "nongrouped"); (1, "youtube")]%Z)))%Z)
           (init ++ [tail_col ++ replicate k Blank]).
Proof.
  apply (grid_columns_equal_height 3).
  - lia.
  - apply Exists_cons_hd. simpl. discriminate.
Defined.

Example grid_columns_padded :
  grid_columns 3 (graph_maker main_WEBSITES_TO_CLUSTERS STARTING_CLUSTER [])
    [(8, "nongrouped"); (2, "nongrouped"); (4, "nongrouped");
     (6, "nongrouped"); (1, "youtube")]%Z []
  = inr [[Node 8; Node 2; Node 4]; [Node 6; Blank; Blank]].
Proof. vm_compute. reflexivity. Qed.

Lemma place_nodes_in_grid_needs_outside_node_witness :
  place_nodes_in_grid default_MAX_NODES_IN_COLUMN
    (graph_maker main_WEBSITES_TO_CLUSTERS STARTING_CLUSTER [])
    [(1, "youtube"); (3, "youtube")]%Z [(1, 3, "")]%Z
  = inl IndexError ∧
  ∃ grid,
    place_nodes_in_grid default_MAX_NODES_IN_COLUMN
      (graph_maker main_WEBSITES_TO_CLUSTERS STARTING_CLUSTER [])
      [(2, "nongrouped"); (1, "youtube")]%Z [(1, 2, "")]%Z
    = inr (grid, false).
Proof.
  split.
  - apply (proj1 (place_nodes_in_grid_needs_outside_node
                    default_MAX_NODES_IN_COLUMN _ _ _)).
    repeat constructor.
  - apply (proj2 (place_nodes_in_grid_needs_outside_node
                    default_MAX_NODES_IN_COLUMN _ _ _)).
    apply Exists_cons_hd. simpl. discriminate.
Defined.

(** ** Edges *)

Section Edges.
Local Open Scope Z_scope.
Variable BASE_EDGE_WIDTH : Z.



Lemma odict_set_keys {K V} `{EqDecision K} (k x : K) (v : V) (d : odict K V) :
  x ∈ (ODict.set k v d).*1 ↔ x = k ∨ x ∈ d.*1.
Proof.
  induction d as [|[k' v'] d IH]; simpl.
  { rewrite list_elem_of_singleton, elem_of_nil. tauto. }
  destruct (decide (k' = k)) as [->|Hne]; simpl.
  - rewrite elem_of_cons. tauto.
  - rewrite !elem_of_cons, IH. tauto.
Qed.

Lemma odict_set_NoDup {K V} `{EqDecision K} (k : K) (v : V) (d : odict K V) :
  NoDup d.*1 → NoDup (ODict.set k v d).*1.
Proof.
  induction d as [|[k' v'] d IH]; simpl.
  { intros _. apply NoDup_singleton. }
  intros [Hk' Hd]%NoDup_cons.
  destruct (decide (k' = k)) as [->|Hne]; simpl.
  - by apply NoDup_cons.
  - apply NoDup_cons. split; [|by apply IH].
    rewrite odict_set_keys. intros [?|?]; [by subst|done].
Qed.


End Edges.

(** ** Node numbers *)

Section Nodes.
Local Open Scope Z_scope.
Variable quote : string → string.
Variable WEBSITES_TO_CLUSTERS : odict string string.

Lemma format_node_inr self nodetext self' n g :
  _format_node quote WEBSITES_TO_CLUSTERS self nodetext = inr (self', (n, g)) →
  n = default (_current_node_num self) (_node_codes self !! node_key nodetext) ∧
  _node_codes self' = <[node_key nodetext := n]> (_node_codes self) ∧
  _current_node_num self' = _current_node_num self + 1 ∧
  website_name_re self' = website_name_re self ∧
  domains_to_clusters self' = domains_to_clusters self ∧
  starting_cluster self' = starting_cluster self ∧
  connections self' = connections self.
Proof.
  unfold _format_node, node_key. intros H.
  destruct (website_name_re self) as [re|]; [|done].
  cbv [mbind result_bind mret result_ret] in H.
  match type of H with
  | context [match ?m with inl _ => _ | inr _ => _ end] =>
      destruct m as [e|styleinfo]
  end; [done|].
  injection H as <- <- _. done.
Qed.

(** Whether [_format_node] returns depends on the text and on the
    cluster tables only; a text already filed gets its number back. *)
Lemma format_node_again self self' nodetext n g self2 :
  _format_node quote WEBSITES_TO_CLUSTERS self nodetext = inr (self', (n, g)) →
  website_name_re self2 = website_name_re self →
  domains_to_clusters self2 = domains_to_clusters self →
  _node_codes self2 !! node_key nodetext = Some n →
  ∃ self3,
    _format_node quote WEBSITES_TO_CLUSTERS self2 nodetext = inr (self3, (n, g)).
Proof.
  unfold _format_node, node_key. intros H Hre Hd Hn. rewrite Hre, Hd, Hn.
  destruct (website_name_re self) as [re|]; [|done].
  cbv [mbind result_bind mret result_ret] in *.
  match type of H with
  | context [match ?m with inl _ => _ | inr _ => _ end] =>
      destruct m as [e|styleinfo]
  end; [done|].
  injection H as _ <- <-. eexists. reflexivity.
Qed.

Lemma codes_ok_step self nodetext self' r :
  codes_ok self →
  _format_node quote WEBSITES_TO_CLUSTERS self nodetext = inr (self', r) →
  codes_ok self' ∧
  ∀ t n, _node_codes self !! t = Some n → _node_codes self' !! t = Some n.
Proof.
  intros (Hcur & Hrange & Hinj) H. destruct r as [n g].
  apply format_node_inr in H as (Hn & Hcodes & Hcur' & _).
  unfold codes_ok. rewrite Hcodes, Hcur'.
  destruct (_node_codes self !! node_key nodetext) as [m|] eqn:Hm;
    simpl in Hn; subst n.
  - rewrite insert_id by done. split_and!; try done; [lia|].
    intros t n Ht. apply Hrange in Ht. lia.
  - split_and!.
    + lia.
    + intros t n. rewrite lookup_insert. case_decide.
      * intros [= <-]. lia.
      * intros Ht%Hrange. lia.
    + intros t1 t2 n. rewrite !lookup_insert.
      repeat case_decide; simplify_eq; try done.
      * intros [= <-] Ht%Hrange. lia.
      * intros Ht%Hrange [= <-]. lia.
      * apply Hinj.
    + intros t n Ht. rewrite lookup_insert_ne; [done|].
      intros <-. by rewrite Hm in Ht.
Qed.

Lemma formats_facts self1 self2 :
  codes_ok self1 → formats quote WEBSITES_TO_CLUSTERS self1 self2 →
  codes_ok self2 ∧
  (∀ t n, _node_codes self1 !! t = Some n → _node_codes self2 !! t = Some n) ∧
  website_name_re self2 = website_name_re self1 ∧
  domains_to_clusters self2 = domains_to_clusters self1 ∧
  _current_node_num self1 ≤ _current_node_num self2.
Proof.
  intros Hok. induction 1 as [|s1 s2 s3 t [n g] _ IH Hstep].
  { split_and!; try done. }
  destruct (IH Hok) as (Hok2 & Hkeep & Hre & Hd & Hle).
  destruct (codes_ok_step _ _ _ _ Hok2 Hstep) as [Hok3 Hkeep3].
  apply format_node_inr in Hstep as (_ & _ & Hcur & Hre3 & Hd3 & _).
  split_and!; try done; try congruence; [|lia].
  intros t' n' Ht'. by apply Hkeep3, Hkeep.
Qed.

(** C5. Starting from a fresh instance, a display text that
    [_format_node] has numbered gets the same number (and the same node
    line) at every later call, and keeps its entry in [_node_codes];
    a text seen for the first time gets the current counter, which is 1
    for the very first text and exceeds every number given before; two
    different texts never share a number. *)
Theorem node_identity_stable self0 self1 self2 self3 nodetext n g :
  _node_codes self0 = ∅ → _current_node_num self0 = 1 →
  formats quote WEBSITES_TO_CLUSTERS self0 self1 →
  _format_node quote WEBSITES_TO_CLUSTERS self1 nodetext = inr (self2, (n, g)) →
  formats quote WEBSITES_TO_CLUSTERS self2 self3 →
  (∃ self4,
     _format_node quote WEBSITES_TO_CLUSTERS self3 nodetext
     = inr (self4, (n, g))) ∧
  _node_codes self3 !! node_key nodetext = Some n ∧
  (_node_codes self1 !! node_key nodetext = None →
     n = _current_node_num self1 ∧
     (_node_codes self1 = ∅ → n = 1) ∧
     ∀ t' n', _node_codes self1 !! t' = Some n' → n' < n) ∧
  (∀ t', _node_codes self3 !! t' = Some n → t' = node_key nodetext).
Proof.
  intros Hempty Hone H01 Hstep H23.
  assert (codes_ok self0) as Hok0.
  { unfold codes_ok. rewrite Hempty, Hone. split_and!; [lia|..];
      intros *; by rewrite lookup_empty. }
  destruct (formats_facts _ _ Hok0 H01) as (Hok1 & _ & _ & _ & _).
  destruct (codes_ok_step _ _ _ _ Hok1 Hstep) as [Hok2 _].
  destruct (formats_facts _ _ Hok2 H23) as (Hok3 & Hkeep & Hre & Hd & _).
  pose proof (format_node_inr _ _ _ _ _ Hstep)
    as (Hn & Hcodes & _ & Hre2 & Hd2 & _).
  assert (_node_codes self3 !! node_key nodetext = Some n) as Hn3.
  { apply Hkeep. rewrite Hcodes. apply lookup_insert_eq. }
  split_and!.
  - apply (format_node_again self1 self2); [done|congruence..|done].
  - done.
  - intros Hnew. rewrite Hnew in Hn. simpl in Hn. split_and!; [done| |].
    + intros Hnil. subst n.
      inversion H01 as [|? s ? t r _ Hprev]; subst; [done|].
      destruct r as [n' g'].
      apply format_node_inr in Hprev as (_ & Hc & _).
      rewrite Hc in Hnil. by apply insert_non_empty in Hnil.
    + intros t' n' Ht'. destruct Hok1 as (_ & Hrange & _).
      apply Hrange in Ht'. lia.
  - intros t' Ht'. destruct Hok3 as (_ & _ & Hinj). by eapply Hinj.
Qed.
End Nodes.

Lemma node_identity_stable_witness :
  (∃ self4,
     _format_node quote_plain main_WEBSITES_TO_CLUSTERS
       maker_after_first_node "t1.org/a"
     = inr (self4, (1%Z, first_node_line))) ∧
  _node_codes maker_after_first_node !! node_key "t1.org/a" = Some 1%Z.
Proof.
  pose proof (node_identity_stable quote_plain main_WEBSITES_TO_CLUSTERS
                fresh_maker fresh_maker maker_after_first_node
                maker_after_first_node "t1.org/a" 1%Z first_node_line) as H.
  refine (let H' := H _ _ _ _ _ in conj (proj1 H') (proj1 (proj2 H'))).
  - reflexivity.
  - reflexivity.
  - apply formats_refl.
  - vm_compute. reflexivity.
  - apply formats_refl.
Defined.

(** ** Building the graph body *)

Section BodyFacts.
Variable wrap : string → nat → list string.
Variable quote : string → string.
Variable SPECIAL_USER_STYLING : gmap string (string * string).
Variable WEBSITES_TO_CLUSTERS : odict string string.
Variable MAX_NODE_LINE_LENGTH : nat.

Abbreviation step :=
  (body_step wrap quote SPECIAL_USER_STYLING WEBSITES_TO_CLUSTERS
     MAX_NODE_LINE_LENGTH).
Abbreviation loop :=
  (body_loop wrap quote SPECIAL_USER_STYLING WEBSITES_TO_CLUSTERS
     MAX_NODE_LINE_LENGTH).

(** Once an exception is raised the loop does nothing more. *)
Lemma body_loop_raised e cs :
  foldl (λ acc c, st ← acc; step st c) (inl e) cs = inl e.
Proof. induction cs as [|c cs IH]; [done|]. apply IH. Qed.

Lemma body_loop_cons st c cs :
  loop st (c :: cs)
  = match step st c with
    | inl e => inl e
    | inr st' => loop st' cs
    end.
Proof.
  unfold body_loop. cbn [foldl].
  change (mret st ≫= (λ st, step st c)) with (step st c).
  destruct (step st c) as [e|st']; [apply body_loop_raised|done].
Qed.

Lemma body_loop_app st cs1 cs2 :
  loop st (cs1 ++ cs2)
  = match loop st cs1 with
    | inl e => inl e
    | inr st' => loop st' cs2
    end.
Proof.
  revert st. induction cs1 as [|c cs1 IH]; intros st; [done|].
  rewrite <-app_comm_cons, !body_loop_cons.
  destruct (step st c) as [e|st']; [done|apply IH].
Qed.

(** An attributed edge whose author has no entry in the styling table
    makes its turn of the loop raise. *)
Lemma body_step_unknown_author st c a :
  c.1.2 = Some a → Str.truthy a = true → SPECIAL_USER_STYLING !! a = None →
  ∃ e, step st c = inl e.
Proof.
  destruct st as [self b], c as [[[src tgt] author] origin]. simpl.
  intros -> Ha Hnone. unfold body_step.
  cbv [mbind result_bind mret result_ret].
  destruct (_format_node _ _ self _) as [e|[self1 [name1 line1]]]; [by eauto|].
  destruct (_format_node _ _ self1 _) as [e|[self2 [name2 line2]]]; [by eauto|].
  rewrite Ha, Hnone. simpl. eauto.
Qed.

Lemma format_node_error self nodetext e :
  has_tables self →
  _format_node quote WEBSITES_TO_CLUSTERS self nodetext = inl e →
  ∃ key, e = KeyError key.
Proof.
  intros [[re Hre] [d Hd]]. unfold _format_node. rewrite Hre, Hd.
  cbv [mbind result_bind mret result_ret getitem raise].
  repeat case_match; intros; simplify_eq; eauto.
Qed.

Lemma format_node_tables self nodetext self' r :
  has_tables self →
  _format_node quote WEBSITES_TO_CLUSTERS self nodetext = inr (self', r) →
  has_tables self'.
Proof.
  intros Ht H. destruct r as [n g].
  apply format_node_inr in H as (_ & _ & _ & Hre & Hd & _).
  unfold has_tables. by rewrite Hre, Hd.
Qed.

Lemma body_step_tables self b c :
  has_tables self →
  match step (self, b) c with
  | inl e => ∃ key, e = KeyError key
  | inr (self', _) => has_tables self'
  end.
Proof.
  intros Ht. destruct c as [[[src tgt] author] origin].
  unfold body_step. cbv [mbind result_bind mret result_ret].
  destruct (_format_node _ _ self _) as [e|[self1 [name1 line1]]] eqn:H1;
    [by eapply format_node_error|].
  apply format_node_tables in H1; [|done].
  destruct (_format_node _ _ self1 _) as [e|[self2 [name2 line2]]] eqn:H2;
    [by eapply format_node_error|].
  apply format_node_tables in H2; [|done].
  pose proof H2 as Ht2. unfold has_tables in Ht2.
  destruct Ht2 as [_ [d Hd]]. rewrite Hd.
  unfold getitem, raise.
  destruct author as [a|]; [destruct (Str.truthy a)|];
    [destruct (SPECIAL_USER_STYLING !! a)|..]; simpl; eauto;
    by destruct (map_to_clusters _ _ _ _).
Qed.

Lemma body_loop_error self b cs e :
  has_tables self → loop (self, b) cs = inl e → ∃ key, e = KeyError key.
Proof.
  revert self b. induction cs as [|c cs IH]; intros self b Ht; [done|].
  rewrite body_loop_cons.
  pose proof (body_step_tables self b c Ht) as Hstep.
  destruct (step (self, b) c) as [e'|[self' b']].
  - by intros [= <-].
  - by apply IH.
Qed.
(** What a turn of the loop that returns has done. *)
Lemma body_step_inr self b c self' b' :
  step (self, b) c = inr (self', b') →
  let site1 := _format_link_for_display wrap MAX_NODE_LINE_LENGTH c.1.1.1.1 c.1.1.1.2 in
  let site2 := _format_link_for_display wrap MAX_NODE_LINE_LENGTH c.1.1.2.1 c.1.1.2.2 in
  ∃ self1 name1 line1 name2 line2 edgecolor d,
    _format_node quote WEBSITES_TO_CLUSTERS self site1 = inr (self1, (name1, line1)) ∧
    _format_node quote WEBSITES_TO_CLUSTERS self1 site2 = inr (self', (name2, line2)) ∧
    domains_to_clusters self' = Some d ∧
    node_map b'
    = (if Str.truthy line2 then <[name2 := line2]> else id)
        ((if Str.truthy line1 then <[name1 := line1]> else id) (node_map b)) ∧
    body_connections b' = body_connections b ++ [(name1, name2, edgecolor)] ∧
    (clusters b', clusterized_nodes b')
    = map_to_clusters (ODict.keys d) site2 name2
        (map_to_clusters (ODict.keys d) site1 name1
           (clusters b, clusterized_nodes b)).
Proof.
  destruct c as [[[src tgt] author] origin]. simpl.
  unfold body_step. cbv [mbind result_bind mret result_ret].
  destruct (_format_node _ _ self _) as [e|[self1 [name1 line1]]] eqn:H1; [done|].
  destruct (_format_node _ _ self1 _) as [e|[self2 [name2 line2]]] eqn:H2; [done|].
  match goal with
  | |- context [match ?m with inl _ => _ | inr _ => _ end = _] =>
      destruct m as [e|edgecolor]
  end; [done|].
  destruct (domains_to_clusters self2) as [d|] eqn:Hd; [|done].
  destruct (map_to_clusters _ _ _ _) as [cl cz] eqn:Hm.
  intros [= <- <-]. simpl.
  exists self1, name1, line1, name2, line2, edgecolor, d.
  split_and!; try done.
  by destruct (Str.truthy line1), (Str.truthy line2).
Qed.

Lemma formats_trans s1 s2 s3 :
  formats quote WEBSITES_TO_CLUSTERS s1 s2 →
  formats quote WEBSITES_TO_CLUSTERS s2 s3 →
  formats quote WEBSITES_TO_CLUSTERS s1 s3.
Proof.
  intros H12 H23. induction H23 as [|s2 s3 s4 t r _ IH Hstep]; [done|].
  eapply formats_step; [by apply IH|exact Hstep].
Qed.

(** The instances the loop goes through are linked by calls of
    [_format_node] that returned. *)
Lemma body_loop_formats self b cs self' b' :
  loop (self, b) cs = inr (self', b') →
  formats quote WEBSITES_TO_CLUSTERS self self'.
Proof.
  revert self b. induction cs as [|c cs IH]; intros self b.
  { intros [= <- <-]. constructor. }
  rewrite body_loop_cons.
  destruct (step (self, b) c) as [e|[self1 b1]] eqn:Hstep; [done|].
  intros Hrest%IH.
  apply body_step_inr in Hstep
    as (s1 & n1 & l1 & n2 & l2 & _ & _ & Hf1 & Hf2 & _).
  assert (formats quote WEBSITES_TO_CLUSTERS self self1) as Hs.
  { eapply formats_step; [|exact Hf2].
    eapply formats_step; [|exact Hf1]. constructor. }
  by eapply formats_trans.
Qed.
End BodyFacts.

(** ** Buckets of nodes *)

Lemma odict_set_elem {K V} `{EqDecision K} (k : K) (v : V) (d : odict K V) item :
  item ∈ ODict.set k v d → item = (k, v) ∨ item ∈ d.
Proof.
  induction d as [|[k' v'] d IH]; simpl.
  { intros ->%list_elem_of_singleton. by left. }
  destruct (decide (k' = k)) as [->|Hne].
  - intros [->|Hin]%elem_of_cons; [by left|]. right. by apply elem_of_cons; right.
  - intros [->|Hin]%elem_of_cons.
    + right. by apply elem_of_cons; left.
    + destruct (IH Hin) as [?|?]; [by left|]. right. by apply elem_of_cons; right.
Qed.

Lemma odict_get_elem {K V} `{EqDecision K} (k : K) (v : V) (d : odict K V) :
  ODict.get k d = Some v → (k, v) ∈ d.
Proof.
  induction d as [|[k' v'] d IH]; simpl; [done|].
  destruct (decide (k' = k)) as [->|Hne].
  - intros [= ->]. by apply elem_of_cons; left.
  - intros Hget. apply elem_of_cons. right. by apply IH.
Qed.

Lemma odict_append_NoDup {K A} `{EqDecision K} (k : K) (x : A)
    (d : odict K (list A)) :
  NoDup d.*1 → NoDup (ODict.append k x d).*1.
Proof.
  intros Hd. unfold ODict.append.
  destruct (ODict.get k d); by apply odict_set_NoDup.
Qed.

(** A bucket after an append holds what some bucket held before, and the
    appended node. *)
Lemma odict_append_members {K} `{EqDecision K} (k : K) (x : Z)
    (d : odict K (list Z)) item n :
  item ∈ ODict.append k x d → n ∈ item.2 →
  n = x ∨ ∃ item', item' ∈ d ∧ n ∈ item'.2.
Proof.
  unfold ODict.append.
  destruct (ODict.get k d) as [xs|] eqn:Hget;
    intros [->|Hin]%odict_set_elem Hn; simpl in Hn.
  - apply elem_of_app in Hn as [Hn|Hn%list_elem_of_singleton]; [|by left].
    right. exists (k, xs). split; [by apply odict_get_elem|done].
  - right. by exists item.
  - apply list_elem_of_singleton in Hn. by left.
  - right. by exists item.
Qed.

Lemma cluster_loop_members aliases s slabel cl cz cl' cz' :
  foldl (cluster_step s slabel) (cl, cz) aliases = (cl', cz') →
  NoDup cl.*1 →
  NoDup cl'.*1 ∧
  ∀ item n, item ∈ cl' → n ∈ item.2 →
            n = slabel ∨ ∃ item', item' ∈ cl ∧ n ∈ item'.2.
Proof.
  revert cl cz. induction aliases as [|a aliases IH]; intros cl cz.
  { intros [= <- <-] Hnd. split; [done|]. intros item n Hi Hn. right. eauto. }
  cbn [foldl]. unfold cluster_step at 2.
  destruct (Str.contains a _).
  - intros Hfold Hnd.
    destruct (IH _ _ Hfold) as [Hnd' Hmem]; [by apply odict_append_NoDup|].
    split; [done|]. intros item n Hi Hn.
    destruct (Hmem item n Hi Hn) as [?|(item' & Hi' & Hn')]; [by left|].
    by eapply odict_append_members.
  - apply IH.
Qed.

Lemma map_to_clusters_members aliases s slabel cl cz cl' cz' :
  map_to_clusters aliases s slabel (cl, cz) = (cl', cz') →
  NoDup cl.*1 →
  NoDup cl'.*1 ∧
  ∀ item n, item ∈ cl' → n ∈ item.2 →
            n = slabel ∨ ∃ item', item' ∈ cl ∧ n ∈ item'.2.
Proof.
  unfold map_to_clusters.
  destruct (foldl _ _ aliases) as [cl1 cz1] eqn:Hfold.
  intros Hres Hnd.
  destruct (cluster_loop_members _ _ _ _ _ _ _ Hfold Hnd) as [Hnd1 Hmem1].
  case_bool_decide; simplify_eq; [done|].
  split; [by apply odict_append_NoDup|].
  intros item n Hi Hn.
  destruct (odict_append_members _ _ _ _ _ Hi Hn) as [?|(item' & Hi' & Hn')];
    [by left|by eapply Hmem1].
Qed.

Lemma truthy_append_r s t : Str.truthy t = true → Str.truthy (s +:+ t) = true.
Proof. by destruct s, t. Qed.

Lemma truthy_append_l s t : Str.truthy s = true → Str.truthy (s +:+ t) = true.
Proof. by destruct s. Qed.

Section BucketFacts.
Variable wrap : string → nat → list string.
Variable quote : string → string.
Variable SPECIAL_USER_STYLING : gmap string (string * string).
Variable WEBSITES_TO_CLUSTERS : odict string string.
Variable MAX_NODE_LINE_LENGTH : nat.

(** The node line [_format_node] returns is never empty. *)
Lemma format_node_line_truthy self nodetext self' n g :
  _format_node quote WEBSITES_TO_CLUSTERS self nodetext = inr (self', (n, g)) →
  Str.truthy g = true.
Proof.
  unfold _format_node. intros H.
  destruct (website_name_re self) as [re|]; [|done].
  cbv [mbind result_bind mret result_ret] in H.
  match type of H with
  | context [match ?m with inl _ => _ | inr _ => _ end] =>
      destruct m as [e|styleinfo]
  end; [done|].
  injection H as _ _ <-. by apply truthy_append_r.
Qed.

Lemma body_step_buckets self b c self' b' :
  body_step wrap quote SPECIAL_USER_STYLING WEBSITES_TO_CLUSTERS
    MAX_NODE_LINE_LENGTH (self, b) c = inr (self', b') →
  buckets_ok (node_map b) (clusters b) →
  buckets_ok (node_map b') (clusters b').
Proof.
  intros Hstep [Hnd Hknown].
  apply body_step_inr in Hstep
    as (s1 & n1 & l1 & n2 & l2 & ec & d & Hf1 & Hf2 & _ & Hmap & _ & Hcl).
  apply format_node_line_truthy in Hf1, Hf2. rewrite Hf1, Hf2 in Hmap.
  destruct (map_to_clusters _ _ n1 _) as [cl1 cz1] eqn:H1.
  destruct (map_to_clusters_members _ _ _ _ _ _ _ H1 Hnd) as [Hnd1 Hmem1].
  symmetry in Hcl.
  destruct (map_to_clusters_members _ _ _ _ _ _ _ Hcl Hnd1) as [Hnd2 Hmem2].
  split; [done|]. intros item n Hi Hn. rewrite Hmap.
  destruct (Hmem2 item n Hi Hn) as [->|(item1 & Hi1 & Hn1)].
  { rewrite lookup_insert_eq. by eexists. }
  destruct (Hmem1 item1 n Hi1 Hn1) as [->|(item0 & Hi0 & Hn0)].
  { rewrite lookup_insert. case_decide; [by eexists|].
    rewrite lookup_insert_eq. by eexists. }
  rewrite !lookup_insert. repeat case_decide; try by eexists.
  by eapply Hknown.
Qed.

Lemma body_loop_buckets self b cs self' b' :
  body_loop wrap quote SPECIAL_USER_STYLING WEBSITES_TO_CLUSTERS
    MAX_NODE_LINE_LENGTH (self, b) cs = inr (self', b') →
  buckets_ok (node_map b) (clusters b) →
  buckets_ok (node_map b') (clusters b').
Proof.
  revert self b. induction cs as [|c cs IH]; intros self b.
  { by intros [= <- <-]. }
  rewrite body_loop_cons.
  destruct (body_step _ _ _ _ _ (self, b) c) as [e|[self1 b1]] eqn:Hstep; [done|].
  intros Hrest Hok. eapply IH; [exact Hrest|]. by eapply body_step_buckets.
Qed.

(** The buckets [_make_graph_body] returns have distinct names and hold
    known nodes only. *)
Lemma graph_body_buckets self self' b :
  _make_graph_body wrap quote SPECIAL_USER_STYLING WEBSITES_TO_CLUSTERS
    MAX_NODE_LINE_LENGTH self = inr (self', b) →
  buckets_ok (node_map b) (clusters b).
Proof.
  intros H. eapply body_loop_buckets; [exact H|].
  split; [constructor|]. intros item n Hi. by apply elem_of_nil in Hi.
Qed.

Lemma inbound_counts_known (nm : gmap Z string) (conns : list edge) n :
  is_Some (nm !! n) → is_Some (inbound_counts nm conns !! n).
Proof.
  intros [line Hn]. unfold inbound_counts.
  apply lookup_union_is_Some. right. rewrite lookup_fmap, Hn. by eexists.
Qed.

(** On what [_make_graph_body] returns, the ordering of the nodes never
    raises: every node of a bucket has an inbound count. *)
Lemma graph_body_order_defined (set_iter : list Z → list Z) self self' b :
  (∀ l, set_contract set_iter l) →
  _make_graph_body wrap quote SPECIAL_USER_STYLING WEBSITES_TO_CLUSTERS
    MAX_NODE_LINE_LENGTH self = inr (self', b) →
  let conn_num := inbound_counts (node_map b) (body_connections b) in
  ordered_nodes_of set_iter b
  = inr (concat (cluster_column set_iter conn_num
                 <$> filter is_nongrouped (clusters b))
         ++ concat (cluster_column set_iter conn_num
                    <$> filter (λ i, ¬ is_nongrouped i) (clusters b))).
Proof.
  intros Hset [Hnd Hknown]%graph_body_buckets. cbv zeta.
  unfold ordered_nodes_of, reorder_nodes_by_clusters.
  destruct (reorder_loop set_iter
              (inbound_counts (node_map b) (body_connections b))
              (clusters b) (clusters b) Hnd)
    as [cl' ->]; [|done].
  intros item n Hi Hn. apply inbound_counts_known, (Hknown item n Hi).
  by apply (Hset item.2).
Qed.
End BucketFacts.

(** C9. An edge whose attribution is non-empty and is not a key of the
    styling table makes [_make_graph_body], and with it [make_graph],
    raise; the exception is a [KeyError] when the instance was built with
    a cluster map. *)
Theorem unknown_attribution_is_fatal
    (wrap : string → nat → list string) (quote : string → string)
    (set_iter : list Z → list Z)
    (SPECIAL_USER_STYLING : gmap string (string * string))
    (WEBSITES_TO_CLUSTERS : odict string string)
    (MAX_NODE_LINE_LENGTH : nat) (MAX_NODES_IN_COLUMN BASE_EDGE_WIDTH : Z)
    (MINIMIZE_EDGE_NUMBER : bool)
    (self : GraphCreator) (c : connection) (a : string) :
  c ∈ connections self →
  c.1.2 = Some a → Str.truthy a = true → SPECIAL_USER_STYLING !! a = None →
  ∃ e,
    _make_graph_body wrap quote SPECIAL_USER_STYLING WEBSITES_TO_CLUSTERS
      MAX_NODE_LINE_LENGTH self = inl e ∧
    make_graph wrap quote set_iter SPECIAL_USER_STYLING WEBSITES_TO_CLUSTERS
      MAX_NODE_LINE_LENGTH MAX_NODES_IN_COLUMN BASE_EDGE_WIDTH
      MINIMIZE_EDGE_NUMBER self = inl e ∧
    (has_tables self → ∃ key, e = KeyError key).
Proof.
  intros Hin Hauthor Ha Hnone.
  apply list_elem_of_split in Hin as (cs1 & cs2 & Hcs).
  assert (∃ e, _make_graph_body wrap quote SPECIAL_USER_STYLING
                 WEBSITES_TO_CLUSTERS MAX_NODE_LINE_LENGTH self = inl e)
    as [e He].
  { unfold _make_graph_body. rewrite Hcs, body_loop_app.
    destruct (body_loop _ _ _ _ _ _ cs1) as [e|st']; [by eauto|].
    rewrite body_loop_cons.
    destruct (body_step_unknown_author wrap quote SPECIAL_USER_STYLING
                WEBSITES_TO_CLUSTERS MAX_NODE_LINE_LENGTH st' c a)
      as [e ->]; by eauto. }
  exists e. split_and!.
  - done.
  - unfold make_graph. by rewrite He.
  - intros Ht. unfold _make_graph_body in He. by eapply body_loop_error.
Qed.

Lemma unknown_attribution_is_fatal_witness :
  ∃ e,
    _make_graph_body wrap_plain quote_plain main_SPECIAL_USER_STYLING
      main_WEBSITES_TO_CLUSTERS default_MAX_NODE_LINE_LENGTH
      (graph_maker main_WEBSITES_TO_CLUSTERS STARTING_CLUSTER
         [(("Field trial talk - YouTube", None), ("t1.org/a", Some "t1.org"),
           Some "0123456789abcdef0123456789abcdef", None)]) = inl e ∧
    make_graph wrap_plain quote_plain set_iter_slots main_SPECIAL_USER_STYLING
      main_WEBSITES_TO_CLUSTERS default_MAX_NODE_LINE_LENGTH
      default_MAX_NODES_IN_COLUMN default_BASE_EDGE_WIDTH
      default_MINIMIZE_EDGE_NUMBER
      (graph_maker main_WEBSITES_TO_CLUSTERS STARTING_CLUSTER
         [(("Field trial talk - YouTube", None), ("t1.org/a", Some "t1.org"),
           Some "0123456789abcdef0123456789abcdef", None)]) = inl e ∧
    (has_tables
       (graph_maker main_WEBSITES_TO_CLUSTERS STARTING_CLUSTER
          [(("Field trial talk - YouTube", None), ("t1.org/a", Some "t1.org"),
            Some "0123456789abcdef0123456789abcdef", None)]) →
     ∃ key, e = KeyError key).
Proof.
  apply (unknown_attribution_is_fatal wrap_plain quote_plain set_iter_slots
           main_SPECIAL_USER_STYLING main_WEBSITES_TO_CLUSTERS
           default_MAX_NODE_LINE_LENGTH default_MAX_NODES_IN_COLUMN
           default_BASE_EDGE_WIDTH default_MINIMIZE_EDGE_NUMBER _
           (("Field trial talk - YouTube", None), ("t1.org/a", Some "t1.org"),
            Some "0123456789abcdef0123456789abcdef", None)
           "0123456789abcdef0123456789abcdef").
  - apply list_elem_of_singleton. reflexivity.
  - reflexivity.
  - reflexivity.
  - vm_compute. reflexivity.
Defined.

Example unknown_attribution_raises_key_error :
  _make_graph_body wrap_plain quote_plain main_SPECIAL_USER_STYLING
    main_WEBSITES_TO_CLUSTERS default_MAX_NODE_LINE_LENGTH
    (graph_maker main_WEBSITES_TO_CLUSTERS STARTING_CLUSTER
       [(("Field trial talk - YouTube", None), ("t1.org/a", Some "t1.org"),
         Some "0123456789abcdef0123456789abcdef", None)])
  = inl (KeyError "0123456789abcdef0123456789abcdef").
Proof. vm_compute. reflexivity. Qed.

(** ** Where the code departs from its documentation *)

(** C1. With the cluster entry [foo|bar], a node labelled [bar-site.com]
    is filed in a bucket named [bar], the alias found in its label; no
    bucket [foo] exists. [_prepare_cluster_map] maps both aliases to the
    whole key [foo|bar]. *)
Theorem alias_bucket_named_by_matched_alias :
  _prepare_cluster_map [("foo|bar", "color=red")]
  = [("foo", "foo|bar"); ("bar", "foo|bar")] ∧
  clusters ∘ snd
    <$> run_graph_body ∅ [("foo|bar", "color=red")]
          [(("Talk", None), ("bar-site.com", None), None, None)]
  = inr [("nongrouped", [1%Z]); ("bar", [2%Z])].
Proof. vm_compute. split; reflexivity. Qed.

(** C6. A label in which two aliases occur is filed in two buckets: with
    the tables of the script, the link [gmoanswers.com/ask/monsanto.com]
    joins both [gmoanswers] and [monsantocom], and comes twice in the
    ordered list of nodes. *)
Theorem node_with_two_aliases_in_two_buckets :
  clusters ∘ snd
    <$> run_graph_body main_SPECIAL_USER_STYLING main_WEBSITES_TO_CLUSTERS
          [(("Field trial talk - YouTube", None),
            ("gmoanswers.com/ask/monsanto.com", Some "gmoanswers.com"),
            Some "98f9ede02a07db6f8dd00f2e353425e5", None)]
  = inr [("youtube", [1%Z]); ("gmoanswers", [2%Z]); ("monsantocom", [2%Z])] ∧
  (run_graph_body main_SPECIAL_USER_STYLING main_WEBSITES_TO_CLUSTERS
     [(("Field trial talk - YouTube", None),
       ("gmoanswers.com/ask/monsanto.com", Some "gmoanswers.com"),
       Some "98f9ede02a07db6f8dd00f2e353425e5", None)]
   ≫= λ r, ordered_nodes_of set_iter_slots r.2)
  = inr [(1, "youtube"); (2, "gmoanswers"); (2, "monsantocom")]%Z.
Proof. vm_compute. split; reflexivity. Qed.

(** C8. Without edge minimization an edge of empty attribution is
    written with a colour attribute of its own, the empty string; with
    minimization it is written with no colour attribute, and so is left
    to the default edge colour of the graph. *)
Theorem unattributed_edge_colour_attribute :
  _format_edges default_BASE_EDGE_WIDTH false [(1, 2, "")]%Z
  = ["  1 -> 2 [color=" +:+ Str.dq +:+ Str.dq +:+ "];"] ∧
  _format_edges default_BASE_EDGE_WIDTH true [(1, 2, "")]%Z
  = ["  1 -> 2;"] ∧
  ∀ BASE_EDGE_WIDTH edge_num,
    Forall (λ attr, Str.startswith "color" attr = false)
           (collapsed_attrs BASE_EDGE_WIDTH "" edge_num).
Proof.
  split_and!; [vm_compute; reflexivity..|].
  intros B k. unfold collapsed_attrs. simpl.
  case_match; repeat constructor.
Qed.

(** * Further properties of the graph subsystem *)

(** ** Inbound counts *)

Lemma counter_loop (conns : list edge) (m : gmap Z Z) (n : Z) :
  inbound (foldl (λ m (c : edge), <[c.1.2 := (default 0 (m !! c.1.2) + 1)%Z]> m)
                 m conns) n
  = (inbound m n
     + Z.of_nat (length (filter (λ c : edge, c.1.2 = n) conns)))%Z ∧
  (is_Some (foldl (λ m (c : edge), <[c.1.2 := (default 0 (m !! c.1.2) + 1)%Z]> m)
                  m conns !! n)
   ↔ is_Some (m !! n) ∨ ∃ c : edge, c ∈ conns ∧ c.1.2 = n).
Proof.
  revert m. induction conns as [|c conns IH]; intros m.
  { simpl. split; [lia|]. split; [by left|].
    intros [?|(c & Hc & _)]; [done|by apply elem_of_nil in Hc]. }
  cbn [foldl]. destruct (IH (<[c.1.2 := (default 0 (m !! c.1.2) + 1)%Z]> m))
    as [-> ->].
  rewrite filter_cons. unfold inbound.
  destruct c as [[src tgt] col]. cbn [fst snd].
  split.
  - rewrite !lookup_insert.
    destruct (decide (tgt = n)) as [->|Hne]; simpl; lia.
  - rewrite lookup_insert_is_Some. split.
    + intros [[->|[_ Hm]]|(c' & Hc' & Hn)].
      * right. exists (src, n, col). split; [by left|done].
      * by left.
      * right. exists c'. split; [by right|done].
    + intros [Hm|(c' & [->|Hc']%elem_of_cons & Hn)].
      * left. destruct (decide (tgt = n)); [by left|by right].
      * left. by left.
      * right. by exists c'.
Qed.

(** X1. The count [make_graph] gives a node is the number of edges that
    point to it; a count exists for the targets of edges and for the
    nodes of [node_map], and for no other number. *)
Theorem inbound_counts_correct (nm : gmap Z string) (conns : list edge) (n : Z) :
  inbound (inbound_counts nm conns) n
  = Z.of_nat (length (filter (λ c : edge, c.1.2 = n) conns)) ∧
  (is_Some (inbound_counts nm conns !! n)
   ↔ is_Some (nm !! n) ∨ ∃ c : edge, c ∈ conns ∧ c.1.2 = n).
Proof.
  unfold inbound_counts.
  destruct (counter_loop conns ∅ n) as [Hcount Hdom].
  unfold inbound in *. rewrite lookup_empty in Hcount. simpl in Hcount.
  split.
  - rewrite <-(Z.add_0_l (Z.of_nat _)), <-Hcount.
    rewrite lookup_union, lookup_fmap.
    by destruct (foldl _ ∅ conns !! n), (nm !! n).
  - rewrite lookup_union_is_Some, Hdom, lookup_fmap, fmap_is_Some.
    rewrite lookup_empty. split.
    + intros [[[? [=]]|?]|?]; [by right|by left].
    + intros [?|?]; [by right|left; by right].
Qed.

(** ** What [_make_graph_body] returns *)

Lemma odict_set_bucketed (k : string) (v : list Z) (d : odict string (list Z)) n :
  (∀ v0, ODict.get k d = Some v0 → n ∈ v0 → n ∈ v) →
  bucketed d n → bucketed (ODict.set k v d) n.
Proof.
  induction d as [|[k' v'] d IH]; simpl; intros Hget (item & Hi & Hn).
  { by apply elem_of_nil in Hi. }
  destruct (decide (k' = k)) as [->|Hne].
  - apply elem_of_cons in Hi as [->|Hi].
    + exists (k, v). split; [by left|]. by apply (Hget v').
    + exists item. split; [by right|done].
  - apply elem_of_cons in Hi as [->|Hi].
    + exists (k', v'). split; [by left|done].
    + destruct IH as (item' & Hi' & Hn'); [done|by exists item|].
      exists item'. split; [by right|done].
Qed.

Lemma odict_set_elem_new {K V} `{EqDecision K} (k : K) (v : V) (d : odict K V) :
  (k, v) ∈ ODict.set k v d.
Proof.
  induction d as [|[k' v'] d IH]; simpl; [by left|].
  destruct (decide (k' = k)) as [->|Hne]; [by left|by right].
Qed.

Lemma odict_append_bucketed_keep k x (d : odict string (list Z)) n :
  bucketed d n → bucketed (ODict.append k x d) n.
Proof.
  unfold ODict.append. intros Hb.
  destruct (ODict.get k d) as [xs|] eqn:Hget; apply odict_set_bucketed; try done;
    intros v0 Hv0 Hn; rewrite Hget in Hv0; [|done].
  injection Hv0 as <-. apply elem_of_app. by left.
Qed.

Lemma odict_append_bucketed_new k x (d : odict string (list Z)) :
  bucketed (ODict.append k x d) x.
Proof.
  unfold ODict.append.
  destruct (ODict.get k d) as [xs|]; eexists; (split; [apply odict_set_elem_new|]);
    simpl; [apply elem_of_app; right|]; by apply list_elem_of_singleton.
Qed.

Lemma odict_append_nonempty k x (d : odict string (list Z)) :
  (∀ item, item ∈ d → item.2 ≠ []) →
  ∀ item, item ∈ ODict.append k x d → item.2 ≠ [].
Proof.
  unfold ODict.append. intros Hd item.
  destruct (ODict.get k d) as [xs|]; intros [->|Hi]%odict_set_elem; simpl;
    try (by apply Hd); [|done].
  intros [_ ?]%app_eq_nil. done.
Qed.

(** Filing a node keeps what was filed, files the node, and leaves no
    bucket empty. *)
Lemma cluster_loop_ok aliases s slabel cl cz cl' cz' :
  foldl (cluster_step s slabel) (cl, cz) aliases = (cl', cz') →
  (∀ n, n ∈ cz → bucketed cl n) →
  (∀ item, item ∈ cl → item.2 ≠ []) →
  (∀ n, n ∈ cz' → bucketed cl' n) ∧
  (∀ item, item ∈ cl' → item.2 ≠ []) ∧
  (∀ n, bucketed cl n → bucketed cl' n).
Proof.
  revert cl cz. induction aliases as [|a aliases IH]; intros cl cz.
  { intros [= <- <-] Hcz Hne. done. }
  cbn [foldl]. unfold cluster_step at 2.
  destruct (Str.contains a _); [|apply IH].
  intros Hfold Hcz Hne.
  destruct (IH _ _ Hfold) as (Hcz' & Hne' & Hkeep).
  - intros n [->%elem_of_singleton|Hn]%elem_of_union.
    + apply odict_append_bucketed_new.
    + by apply odict_append_bucketed_keep, Hcz.
  - by apply odict_append_nonempty.
  - split_and!; try done.
    intros n Hn. by apply Hkeep, odict_append_bucketed_keep.
Qed.

Lemma map_to_clusters_ok aliases s slabel cl cz cl' cz' :
  map_to_clusters aliases s slabel (cl, cz) = (cl', cz') →
  (∀ n, n ∈ cz → bucketed cl n) →
  (∀ item, item ∈ cl → item.2 ≠ []) →
  (∀ n, n ∈ cz' → bucketed cl' n) ∧
  (∀ item, item ∈ cl' → item.2 ≠ []) ∧
  (∀ n, bucketed cl n → bucketed cl' n) ∧
  bucketed cl' slabel.
Proof.
  unfold map_to_clusters.
  destruct (foldl _ _ aliases) as [cl1 cz1] eqn:Hfold.
  intros Hres Hcz Hne.
  destruct (cluster_loop_ok _ _ _ _ _ _ _ Hfold Hcz Hne) as (Hcz1 & Hne1 & Hkeep1).
  case_bool_decide as Hin; simplify_eq.
  - split_and!; try done. by apply Hcz1.
  - split_and!.
    + intros n Hn. by apply odict_append_bucketed_keep, Hcz1.
    + by apply odict_append_nonempty.
    + intros n Hn. by apply odict_append_bucketed_keep, Hkeep1.
    + apply odict_append_bucketed_new.
Qed.

Section BodyOk.
Variable wrap : string → nat → list string.
Variable quote : string → string.
Variable SPECIAL_USER_STYLING : gmap string (string * string).
Variable WEBSITES_TO_CLUSTERS : odict string string.
Variable MAX_NODE_LINE_LENGTH : nat.

Lemma body_step_ok self b c self' b' :
  body_step wrap quote SPECIAL_USER_STYLING WEBSITES_TO_CLUSTERS
    MAX_NODE_LINE_LENGTH (self, b) c = inr (self', b') →
  body_ok b →
  body_ok b' ∧
  length (body_connections b') = S (length (body_connections b)).
Proof.
  intros Hstep (Hcz & Hne & Hedges).
  apply body_step_inr in Hstep
    as (s1 & n1 & l1 & n2 & l2 & ec & d & Hf1 & Hf2 & _ & Hmap & Hconn & Hcl).
  apply format_node_line_truthy in Hf1, Hf2. rewrite Hf1, Hf2 in Hmap.
  destruct (map_to_clusters _ _ n1 _) as [cl1 cz1] eqn:H1.
  destruct (map_to_clusters_ok _ _ _ _ _ _ _ H1 Hcz Hne)
    as (Hcz1 & Hne1 & Hkeep1 & Hn1).
  symmetry in Hcl.
  destruct (map_to_clusters_ok _ _ _ _ _ _ _ Hcl Hcz1 Hne1)
    as (Hcz2 & Hne2 & Hkeep2 & Hn2).
  split; [|rewrite Hconn, length_app; simpl; lia].
  split_and!; [done..|].
  intros e. rewrite Hconn, Hmap.
  intros [He| ->%list_elem_of_singleton]%elem_of_app.
  - destruct (Hedges e He) as (Hk1 & Hk2 & Hb1 & Hb2).
    split_and!; [| |by apply Hkeep2, Hkeep1..];
      rewrite !lookup_insert_is_Some';
      by repeat right.
  - simpl. split_and!; [| |by apply Hkeep2|done];
      rewrite !lookup_insert_is_Some'; [right; by left|by left].
Qed.

Lemma body_loop_ok self b cs self' b' :
  body_loop wrap quote SPECIAL_USER_STYLING WEBSITES_TO_CLUSTERS
    MAX_NODE_LINE_LENGTH (self, b) cs = inr (self', b') →
  body_ok b →
  body_ok b' ∧
  length (body_connections b') = (length (body_connections b) + length cs)%nat.
Proof.
  revert self b. induction cs as [|c cs IH]; intros self b.
  { intros [= <- <-] Hok. split; [done|]. simpl. lia. }
  rewrite body_loop_cons.
  destruct (body_step _ _ _ _ _ (self, b) c) as [e|[self1 b1]] eqn:Hstep; [done|].
  intros Hrest Hok.
  destruct (body_step_ok _ _ _ _ _ Hstep Hok) as [Hok1 Hlen1].
  destruct (IH _ _ Hrest Hok1) as [Hok' Hlen'].
  split; [done|]. simpl. lia.
Qed.

(** X2. When [_make_graph_body] returns, it has resolved every
    connection into one edge, both ends of every edge have a node line in
    [node_map] and are filed in at least one bucket, and no bucket is
    empty. *)
Theorem graph_body_edges_resolved self self' b :
  _make_graph_body wrap quote SPECIAL_USER_STYLING WEBSITES_TO_CLUSTERS
    MAX_NODE_LINE_LENGTH self = inr (self', b) →
  length (body_connections b) = length (connections self) ∧
  (∀ e : edge, e ∈ body_connections b →
     is_Some (node_map b !! e.1.1) ∧ is_Some (node_map b !! e.1.2) ∧
     bucketed (clusters b) e.1.1 ∧ bucketed (clusters b) e.1.2) ∧
  (∀ item, item ∈ clusters b → item.2 ≠ []).
Proof.
  intros H. unfold _make_graph_body in H.
  destruct (body_loop_ok _ _ _ _ _ H) as [(_ & Hne & Hedges) Hlen].
  - split_and!; simpl; intros x Hx;
      solve [by apply elem_of_empty in Hx | by apply elem_of_nil in Hx].
  - done.
Qed.
End BodyOk.

Lemma graph_body_edges_resolved_witness :
  length (body_connections four_links_body.2) = length (connections fresh_maker) ∧
  (∀ e : edge, e ∈ body_connections four_links_body.2 →
     is_Some (node_map four_links_body.2 !! e.1.1) ∧
     is_Some (node_map four_links_body.2 !! e.1.2) ∧
     bucketed (clusters four_links_body.2) e.1.1 ∧
     bucketed (clusters four_links_body.2) e.1.2) ∧
  (∀ item, item ∈ clusters four_links_body.2 → item.2 ≠ []).
Proof.
  apply (graph_body_edges_resolved wrap_plain quote_plain
           main_SPECIAL_USER_STYLING main_WEBSITES_TO_CLUSTERS
           default_MAX_NODE_LINE_LENGTH fresh_maker four_links_body.1).
  vm_compute. reflexivity.
Defined.

(** ** The rows of the grid *)

Lemma concat_fmap_cons {A B} (g : B → A) (f : B → list A) (l : list B) :
  concat ((λ i, g i :: f i) <$> l) ≡ₚ (g <$> l) ++ concat (f <$> l).
Proof.
  induction l as [|a l IH]; [done|].
  rewrite !fmap_cons. cbn [concat]. rewrite IH.
  rewrite <-!app_comm_cons. f_equiv.
  rewrite !app_assoc. f_equiv. apply Permutation_app_comm.
Qed.

Lemma fmap_lookup_seq (c : list cell) :
  (λ i, default Blank (c !! i)) <$> seq 0 (length c) = c.
Proof.
  apply list_eq. intros i. rewrite list_lookup_fmap.
  destruct (decide (i < length c)%nat) as [Hlt|Hge].
  - rewrite lookup_seq_lt by done. simpl.
    destruct (lookup_lt_is_Some_2 c i Hlt) as [x ->]. done.
  - rewrite lookup_seq_ge by lia. simpl.
    symmetry. apply lookup_ge_None. lia.
Qed.

(** Reading columns of one height row by row permutes their entries. *)
Lemma rows_Permutation (cols : list (list cell)) (h : nat) :
  Forall (λ c, length c = h) cols →
  concat ((λ i, omap (λ col : list cell, col !! i) cols) <$> seq 0 h)
  ≡ₚ concat cols ∧
  Forall (λ row, length row = length cols)
         ((λ i, omap (λ col : list cell, col !! i) cols) <$> seq 0 h).
Proof.
  induction 1 as [|c cols Hc Hcols [IHp IHl]].
  { split.
    - simpl. induction (seq 0 h) as [|? ? IH]; [done|]. by rewrite fmap_cons.
    - apply Forall_fmap, Forall_forall. by intros. }
  assert ((λ i, omap (λ col : list cell, col !! i) (c :: cols)) <$> seq 0 h
          = (λ i, default Blank (c !! i)
                  :: omap (λ col : list cell, col !! i) cols) <$> seq 0 h)
    as ->.
  { apply list_fmap_ext. intros k i Hi.
    apply lookup_seq in Hi as [-> Hlt]. simpl.
    destruct (lookup_lt_is_Some_2 c k) as [x ->]; [lia|]. done. }
  split.
  - rewrite concat_fmap_cons, IHp. cbn [concat].
    rewrite <-Hc, fmap_lookup_seq. done.
  - apply Forall_fmap, Forall_forall. intros i Hi. simpl.
    f_equal.
    apply (proj1 (Forall_fmap _ _ _)) in IHl.
    by apply (proj1 (Forall_forall _ _) IHl).
Qed.

Lemma zip_star_rect (cols : list (list cell)) (h : nat) :
  cols ≠ [] → Forall (λ c, length c = h) cols →
  zip_star cols
  = (λ i, omap (λ col : list cell, col !! i) cols) <$> seq 0 h.
Proof.
  intros Hne Hall. destruct cols as [|c cs]; [done|].
  unfold zip_star. apply Forall_cons_1 in Hall as [Hc Hcs].
  assert (foldr Nat.min (length c) (length <$> cs) = h) as ->; [|done].
  clear Hne. induction Hcs as [|c' cs Hc' _ IH]; [done|].
  rewrite fmap_cons. cbn [foldr]. rewrite IH. lia.
Qed.

Section Rows.
Local Open Scope Z_scope.
Variable MAX_NODES_IN_COLUMN : Z.

Lemma filter_nodes_blanks (ns : list Z) (k : nat) :
  filter (λ n, n ≠ Blank) ((Node <$> ns) ++ replicate k Blank) = Node <$> ns.
Proof.
  rewrite filter_app.
  assert (filter (λ n, n ≠ Blank) (replicate k Blank) = []) as ->.
  { apply filter_none, Forall_forall. intros x ->%elem_of_replicate_inv. tauto. }
  rewrite app_nil_r. induction ns as [|n ns IH]; [done|].
  rewrite fmap_cons, filter_cons, decide_True, IH; done.
Qed.

(** The padded columns form a rectangle that holds the nodes in order,
    blanks apart. *)
Lemma padded_columns_rect (nodes : list Z) :
  1 ≤ MAX_NODES_IN_COLUMN → nodes ≠ [] →
  ∃ cols first_group (h : nat),
    pad_last_group (group_nodes MAX_NODES_IN_COLUMN nodes)
    = inr (cols, first_group) ∧
    cols ≠ [] ∧
    Forall (λ c, length c = h) cols ∧
    Z.of_nat h = MAX_NODES_IN_COLUMN `min` Z.of_nat (length nodes) ∧
    filter (λ n, n ≠ Blank) (concat cols) = Node <$> nodes.
Proof.
  intros HM Hne.
  destruct (group_nodes_shape MAX_NODES_IN_COLUMN nodes HM Hne)
    as (init & tail_col & -> & Hinit & Htail & Hcat).
  destruct (pad_last_group_shape MAX_NODES_IN_COLUMN init tail_col Hinit)
    as (k & fg & -> & Hk); [lia|].
  assert (Z.of_nat (length nodes)
          = MAX_NODES_IN_COLUMN * Z.of_nat (length init)
            + Z.of_nat (length tail_col)) as Hlen.
  { rewrite <-(length_fmap Node), <-Hcat, length_app.
    rewrite Nat2Z.inj_add, (concat_length_full MAX_NODES_IN_COLUMN) by done.
    done. }
  exists (init ++ [tail_col ++ replicate k Blank]), fg,
         (length (tail_col ++ replicate k Blank)).
  split_and!.
  - done.
  - intros [_ [=]]%app_eq_nil.
  - apply Forall_app. split; [|by constructor].
    apply Forall_forall. intros col Hin.
    pose proof (proj1 (Forall_forall _ _) Hinit col Hin) as Hcol.
    destruct init as [|c init]; [by apply elem_of_nil in Hin|].
    simpl in Hcol. lia.
  - rewrite Hk. destruct init as [|c init]; simpl in Hlen; nia.
  - rewrite concat_app. simpl. rewrite app_nil_r, app_assoc, Hcat.
    apply filter_nodes_blanks.
Qed.

(** X3. When some node lies outside the starting cluster, reading the
    padded columns row by row loses and repeats nothing: there are as
    many rows as a column is high, every row has one entry per column,
    and the entries other than blanks are the nodes of the grid, each as
    often as it is laid out. *)
Theorem grid_rows_hold_every_node self nac conns :
  1 ≤ MAX_NODES_IN_COLUMN →
  Exists (λ nc : Z * string, Some nc.2 ≠ starting_cluster self) nac →
  ∃ rows cols,
    grid_columns MAX_NODES_IN_COLUMN self nac conns = inr cols ∧
    grid_rows MAX_NODES_IN_COLUMN self nac conns = inr rows ∧
    Z.of_nat (length rows)
    = MAX_NODES_IN_COLUMN `min` Z.of_nat (length (grid_nodes self nac)) ∧
    Forall (λ row, length row = length cols) rows ∧
    filter (λ n, n ≠ Blank) (concat rows) ≡ₚ Node <$> grid_nodes self nac.
Proof.
  intros HM Hex. apply grid_nodes_nonempty in Hex.
  unfold grid_rows, grid_columns.
  pose proof (split_columns_nodes self nac conns) as Hn.
  destruct (split_columns self nac conns) as [[nodes st] left].
  simpl in Hn. subst nodes.
  destruct (padded_columns_rect (grid_nodes self nac) HM Hex)
    as (cols & fg & h & -> & Hne & Hrect & Hh & Hfilter).
  destruct (rows_Permutation cols h Hrect) as [Hperm Hlen].
  exists (zip_star cols), cols. simpl.
  rewrite (zip_star_rect cols h Hne Hrect).
  split_and!; try done.
  - by rewrite length_fmap, length_seq.
  - by rewrite Hperm, Hfilter.
Qed.
End Rows.

Lemma grid_rows_hold_every_node_witness :
  ∃ rows cols,
    grid_columns 3 fresh_maker
      [(8, "nongrouped"); (2, "nongrouped"); (4, "nongrouped");
       (6, "nongrouped"); (1, "youtube")]%Z [] = inr cols ∧
    grid_rows 3 fresh_maker
      [(8, "nongrouped"); (2, "nongrouped"); (4, "nongrouped");
       (6, "nongrouped"); (1, "youtube")]%Z [] = inr rows ∧
    Z.of_nat (length rows)
    = (3 `min` Z.of_nat (length (grid_nodes fresh_maker
         [(8, "nongrouped"); (2, "nongrouped"); (4, "nongrouped");
          (6, "nongrouped"); (1, "youtube")]%Z)))%Z ∧
    Forall (λ row, length row = length cols) rows ∧
    filter (λ n, n ≠ Blank) (concat rows)
    ≡ₚ Node <$> grid_nodes fresh_maker
                  [(8, "nongrouped"); (2, "nongrouped"); (4, "nongrouped");
                   (6, "nongrouped"); (1, "youtube")]%Z.
Proof.
  apply (grid_rows_hold_every_node 3).
  - lia.
  - apply Exists_cons_hd. simpl. discriminate.
Defined.

Example grid_rows_transposed :
  grid_rows 3 fresh_maker
    [(8, "nongrouped"); (2, "nongrouped"); (4, "nongrouped");
     (6, "nongrouped"); (1, "youtube")]%Z []
  = inr [[Node 8; Node 6]; [Node 2; Blank]; [Node 4; Blank]].
Proof. vm_compute. reflexivity. Qed.

(** ** When [make_graph] returns *)

Lemma elem_of_concat {A} (x : A) (ls : list (list A)) :
  x ∈ concat ls ↔ ∃ l, l ∈ ls ∧ x ∈ l.
Proof.
  induction ls as [|l ls IH]; simpl.
  { split; [by intros ?%elem_of_nil|by intros (? & ?%elem_of_nil & _)]. }
  rewrite elem_of_app, IH. split.
  - intros [?|(l' & ? & ?)]; [exists l; split; [by left|done]|].
    exists l'. split; [by right|done].
  - intros (l' & [->|?]%elem_of_cons & ?); [by left|right; by exists l'].
Qed.

Lemma cluster_column_elem set_iter conn_num (item : string * list Z) n c :
  (n, c) ∈ cluster_column set_iter conn_num item
  ↔ c = item.1 ∧ n ∈ set_iter item.2.
Proof.
  unfold cluster_column. rewrite list_elem_of_fmap. split.
  - intros (m & [= -> ->] & Hm). split; [done|].
    by rewrite sorted_desc_Permutation in Hm.
  - intros [-> Hn]. exists n. split; [done|].
    by rewrite sorted_desc_Permutation.
Qed.

(** The ordered list holds the members of every bucket, under the name
    of the bucket. *)
Lemma ordered_nodes_elem set_iter conn_num (cl : odict string (list Z)) n c :
  (n, c) ∈ concat (cluster_column set_iter conn_num <$> filter is_nongrouped cl)
           ++ concat (cluster_column set_iter conn_num
                      <$> filter (λ i, ¬ is_nongrouped i) cl)
  ↔ ∃ item, item ∈ cl ∧ c = item.1 ∧ n ∈ set_iter item.2.
Proof.
  rewrite elem_of_app, !elem_of_concat. split.
  - intros [(l & Hl & Hn)|(l & Hl & Hn)];
      apply list_elem_of_fmap in Hl as (item & -> & Hi);
      apply list_elem_of_filter in Hi as [_ Hi];
      apply cluster_column_elem in Hn; by exists item.
  - intros (item & Hi & Hc & Hn).
    destruct (decide (is_nongrouped item)) as [Hng|Hng]; [left|right];
      exists (cluster_column set_iter conn_num item);
      (split; [apply list_elem_of_fmap_2; by apply list_elem_of_filter
              |by apply cluster_column_elem]).
Qed.

Lemma formats_starting_cluster quote W self1 self2 :
  formats quote W self1 self2 →
  starting_cluster self2 = starting_cluster self1.
Proof.
  induction 1 as [|s1 s2 s3 t [n g] _ IH Hstep]; [done|].
  apply format_node_inr in Hstep as (_ & _ & _ & _ & _ & Hs & _).
  congruence.
Qed.

Lemma place_nodes_in_grid_returns MAX self nac conns :
  Exists (λ nc : Z * string, Some nc.2 ≠ starting_cluster self) nac →
  ∃ grid, place_nodes_in_grid MAX self nac conns = inr (grid, false).
Proof.
  intros Hex. apply grid_nodes_nonempty in Hex.
  unfold place_nodes_in_grid.
  pose proof (split_columns_nodes self nac conns) as Hn.
  destruct (split_columns self nac conns) as [[nodes st] left].
  simpl in Hn. subst nodes.
  destruct (pad_last_group_ok (group_nodes MAX (grid_nodes self nac)))
    as [[gs fg] ->]; [by rewrite group_nodes_nil_iff|].
  simpl. eauto.
Qed.

Lemma place_nodes_in_grid_raises MAX self nac conns :
  Forall (λ nc : Z * string, Some nc.2 = starting_cluster self) nac →
  place_nodes_in_grid MAX self nac conns = inl IndexError.
Proof.
  intros Hall. unfold place_nodes_in_grid.
  pose proof (split_columns_nodes self nac conns) as Hn.
  destruct (split_columns self nac conns) as [[nodes st] left].
  simpl in Hn. subst nodes. by rewrite (grid_nodes_nil _ _ Hall).
Qed.

Section MakeGraph.
Variable wrap : string → nat → list string.
Variable quote : string → string.
Variable set_iter : list Z → list Z.
Variable SPECIAL_USER_STYLING : gmap string (string * string).
Variable WEBSITES_TO_CLUSTERS : odict string string.
Variable MAX_NODE_LINE_LENGTH : nat.
Variable MAX_NODES_IN_COLUMN BASE_EDGE_WIDTH : Z.
Variable MINIMIZE_EDGE_NUMBER : bool.

Abbreviation graph_body :=
  (_make_graph_body wrap quote SPECIAL_USER_STYLING WEBSITES_TO_CLUSTERS
     MAX_NODE_LINE_LENGTH).
Abbreviation graph :=
  (make_graph wrap quote set_iter SPECIAL_USER_STYLING WEBSITES_TO_CLUSTERS
     MAX_NODE_LINE_LENGTH MAX_NODES_IN_COLUMN BASE_EDGE_WIDTH
     MINIMIZE_EDGE_NUMBER).

(** After the body, [make_graph] orders the nodes without raising and
    goes on with [place_nodes_in_grid] on the instance the body left. *)
Lemma make_graph_after_body self self' b :
  (∀ l, set_contract set_iter l) →
  graph_body self = inr (self', b) →
  ∃ ordered,
    (∀ n c, (n, c) ∈ ordered
            ↔ ∃ item, item ∈ clusters b ∧ c = item.1 ∧ n ∈ item.2) ∧
    starting_cluster self' = starting_cluster self ∧
    match place_nodes_in_grid MAX_NODES_IN_COLUMN self' ordered
            (body_connections b) with
    | inl e => graph self = inl e
    | inr _ => ∃ text, graph self = inr (self', text)
    end.
Proof.
  intros Hset Hbody.
  pose proof (graph_body_buckets _ _ _ _ _ _ _ _ Hbody) as [Hnd Hknown].
  destruct (reorder_loop set_iter
              (inbound_counts (node_map b) (body_connections b))
              (clusters b) (clusters b) Hnd) as [cl' Hloop].
  { intros item n Hi Hn. apply inbound_counts_known, (Hknown item n Hi).
    by apply (proj2 (Hset item.2)). }
  set (conn_num := inbound_counts (node_map b) (body_connections b)) in *.
  exists (concat (cluster_column set_iter conn_num
                  <$> filter is_nongrouped (clusters b))
          ++ concat (cluster_column set_iter conn_num
                     <$> filter (λ i, ¬ is_nongrouped i) (clusters b))).
  split_and!.
  - intros n c. rewrite ordered_nodes_elem. split.
    + intros (item & Hi & Hc & Hn). exists item. split_and!; try done.
      by apply (proj2 (Hset item.2)).
    + intros (item & Hi & Hc & Hn). exists item. split_and!; try done.
      by apply (proj2 (Hset item.2)).
  - eapply formats_starting_cluster, body_loop_formats. exact Hbody.
  - subst conn_num. unfold make_graph. rewrite Hbody.
    cbv [mbind result_bind]. unfold reorder_nodes_by_clusters.
    rewrite Hloop. cbv [mbind result_bind mret result_ret].
    destruct (place_nodes_in_grid _ _ _ _) as [e|[grid flag]]; [done|].
    rewrite (mapM_result_all _ (λ nc : Z * string,
               default "" (node_map b !! nc.1))).
    + eauto.
    + apply Forall_forall. intros [n c] Hin.
      apply ordered_nodes_elem in Hin as (item & Hi & _ & Hn).
      destruct (Hknown item n Hi) as [line Hline];
        [by apply (proj2 (Hset item.2))|].
      simpl. by rewrite Hline.
Qed.

Lemma graph_body_ok self self' b :
  graph_body self = inr (self', b) → body_ok b.
Proof.
  intros H. unfold _make_graph_body in H.
  apply body_loop_ok in H as [Hok _]; [done|].
  split_and!; simpl; intros x Hx;
    solve [by apply elem_of_empty in Hx | by apply elem_of_nil in Hx].
Qed.

(** X4. [make_graph] returns the text of the graph whenever
    [_make_graph_body] returns and some bucket is not the starting
    cluster: between the body and the text nothing raises, and the
    instance is the one the body left. *)
Theorem make_graph_returns self self' b :
  (∀ l, set_contract set_iter l) →
  graph_body self = inr (self', b) →
  Exists (λ item : string * list Z, Some item.1 ≠ starting_cluster self)
         (clusters b) →
  ∃ text, graph self = inr (self', text).
Proof.
  intros Hset Hbody (item & Hi & Hout)%Exists_exists.
  destruct (make_graph_after_body _ _ _ Hset Hbody)
    as (ordered & Helem & Hstart & Hplace).
  destruct (graph_body_ok _ _ _ Hbody) as (_ & Hne & _).
  destruct (place_nodes_in_grid_returns MAX_NODES_IN_COLUMN self' ordered
              (body_connections b)) as [grid Hgrid].
  - destruct (item.2) as [|n ns] eqn:Hitem; [by destruct (Hne item Hi)|].
    apply Exists_exists. exists (n, item.1). split.
    + apply Helem. exists item. rewrite Hitem. split_and!; [done..|by left].
    + simpl. by rewrite Hstart.
  - by rewrite Hgrid in Hplace.
Qed.

(** X5. [make_graph] raises [IndexError] whenever [_make_graph_body]
    returns and every bucket is the starting cluster (in particular when
    there is no connection at all): the grid has no node to place. *)
Theorem make_graph_all_in_starting_cluster self self' b :
  (∀ l, set_contract set_iter l) →
  graph_body self = inr (self', b) →
  Forall (λ item : string * list Z, Some item.1 = starting_cluster self)
         (clusters b) →
  graph self = inl IndexError.
Proof.
  intros Hset Hbody Hall.
  destruct (make_graph_after_body _ _ _ Hset Hbody)
    as (ordered & Helem & Hstart & Hplace).
  rewrite (place_nodes_in_grid_raises MAX_NODES_IN_COLUMN self' ordered)
    in Hplace; [done|].
  apply Forall_forall. intros [n c] (item & Hi & -> & _)%Helem.
  simpl. rewrite Hstart. by apply (proj1 (Forall_forall _ _) Hall).
Qed.

End MakeGraph.

Lemma make_graph_returns_witness :
  ∃ text,
    make_graph wrap_plain quote_plain set_iter_slots main_SPECIAL_USER_STYLING
      main_WEBSITES_TO_CLUSTERS default_MAX_NODE_LINE_LENGTH
      default_MAX_NODES_IN_COLUMN default_BASE_EDGE_WIDTH
      default_MINIMIZE_EDGE_NUMBER fresh_maker
    = inr (four_links_body.1, text).
Proof.
  apply (make_graph_returns wrap_plain quote_plain set_iter_slots
           main_SPECIAL_USER_STYLING main_WEBSITES_TO_CLUSTERS
           default_MAX_NODE_LINE_LENGTH default_MAX_NODES_IN_COLUMN
           default_BASE_EDGE_WIDTH default_MINIMIZE_EDGE_NUMBER
           fresh_maker four_links_body.1 four_links_body.2).
  - exact set_iter_slots_contract.
  - vm_compute. reflexivity.
  - apply (bool_decide_unpack _). vm_compute. exact I.
Defined.

Lemma make_graph_all_in_starting_cluster_witness :
  make_graph wrap_plain quote_plain set_iter_slots main_SPECIAL_USER_STYLING
    main_WEBSITES_TO_CLUSTERS default_MAX_NODE_LINE_LENGTH
    default_MAX_NODES_IN_COLUMN default_BASE_EDGE_WIDTH
    default_MINIMIZE_EDGE_NUMBER youtube_only_maker
  = inl IndexError.
Proof.
  apply (make_graph_all_in_starting_cluster wrap_plain quote_plain
           set_iter_slots main_SPECIAL_USER_STYLING main_WEBSITES_TO_CLUSTERS
           default_MAX_NODE_LINE_LENGTH default_MAX_NODES_IN_COLUMN
           default_BASE_EDGE_WIDTH default_MINIMIZE_EDGE_NUMBER
           youtube_only_maker youtube_only_body.1 youtube_only_body.2).
  - exact set_iter_slots_contract.
  - vm_compute. reflexivity.
  - apply (bool_decide_unpack _). vm_compute. exact I.
Defined.


(** * The summaries of links *)

Lemma odict_get_set {K V} `{EqDecision K} (k x : K) (v : V) (d : odict K V) :
  ODict.get x (ODict.set k v d) = if decide (k = x) then Some v else ODict.get x d.
Proof.
  induction d as [|[k' v'] d IH]; simpl.
  { by destruct (decide (k = x)). }
  destruct (decide (k' = k)) as [->|Hne]; simpl.
  - by destruct (decide (k = x)).
  - rewrite IH. destruct (decide (k' = x)) as [->|Hx]; [|done].
    by rewrite decide_False by done.
Qed.

Lemma odict_elem_get {K V} `{EqDecision K} (k : K) (v : V) (d : odict K V) :
  NoDup d.*1 → (k, v) ∈ d → ODict.get k d = Some v.
Proof.
  induction d as [|[k' v'] d IH]; simpl.
  { by intros _ ?%elem_of_nil. }
  intros [Hk' Hd]%NoDup_cons [[= -> ->]|Hin]%elem_of_cons.
  - by rewrite decide_True.
  - rewrite decide_False; [by apply IH|].
    intros ->. apply Hk'. apply list_elem_of_fmap. by exists (k, v).
Qed.

Lemma odict_get_keys {K V} `{EqDecision K} (k : K) (d : odict K V) :
  is_Some (ODict.get k d) ↔ k ∈ d.*1.
Proof.
  induction d as [|[k' v'] d IH]; simpl.
  { split; [by intros [? ?]|by intros ?%elem_of_nil]. }
  rewrite elem_of_cons. destruct (decide (k' = k)) as [->|Hne].
  - split; [by left|by eexists].
  - rewrite IH. split; [by right|]. by intros [->|?].
Qed.

Section CounterFacts.
Context {K : Type} `{EqDecision K}.

Lemma odict_get_incr (k x : K) (d : odict K Z) :
  ODict.get x (ODict.incr k d)
  = if decide (k = x) then Some (default 0 (ODict.get k d) + 1)%Z
    else ODict.get x d.
Proof.
  unfold ODict.incr. destruct (ODict.get k d) as [n|]; by rewrite odict_get_set.
Qed.

Lemma odict_incr_NoDup (k : K) (d : odict K Z) :
  NoDup d.*1 → NoDup (ODict.incr k d).*1.
Proof.
  unfold ODict.incr. intros Hd.
  destruct (ODict.get k d); by apply odict_set_NoDup.
Qed.

Lemma counter_loop_get (items : list K) (d : odict K Z) (k : K) :
  NoDup d.*1 →
  NoDup (foldl (λ d k, ODict.incr k d) d items).*1 ∧
  ODict.get k (foldl (λ d k, ODict.incr k d) d items)
  = match ODict.get k d with
    | Some n => Some (n + occurrences k items)%Z
    | None => if decide (k ∈ items) then Some (occurrences k items) else None
    end.
Proof.
  revert d. induction items as [|x items IH]; intros d Hd.
  { simpl. split; [done|]. unfold occurrences. simpl.
    destruct (ODict.get k d); [f_equal; lia|done]. }
  cbn [foldl].
  destruct (IH (ODict.incr x d) (odict_incr_NoDup _ _ Hd)) as [Hnd ->].
  split; [done|]. rewrite odict_get_incr.
  unfold occurrences. rewrite filter_cons.
  destruct (decide (x = k)) as [->|Hne].
  - simpl length. destruct (ODict.get k d) as [n|]; simpl.
    + f_equal. lia.
    + rewrite decide_True by (by left). f_equal. lia.
  - destruct (ODict.get k d) as [n|]; [done|].
    destruct (decide (k ∈ items)) as [Hin|Hin].
    + rewrite decide_True by (by right). done.
    + rewrite decide_False; [done|]. by intros [?|?]%elem_of_cons.
Qed.

(** [Counter] holds each item once, with the number of its
    occurrences. *)
Lemma Counter_elem (items : list K) (k : K) (n : Z) :
  (k, n) ∈ Counter items ↔ k ∈ items ∧ n = occurrences k items.
Proof.
  destruct (counter_loop_get items [] k) as [Hnd Hget]; [constructor|].
  fold (Counter items) in Hnd, Hget. simpl in Hget. split.
  - intros Hin. apply (odict_elem_get _ _ _ Hnd) in Hin.
    rewrite Hin in Hget. destruct (decide (k ∈ items)); [|done].
    by injection Hget as ->.
  - intros [Hin ->]. apply odict_get_elem.
    by rewrite Hget, decide_True.
Qed.

Lemma Counter_NoDup (items : list K) : NoDup (Counter items).*1.
Proof.
  destruct items as [|k items]; [constructor|].
  by destruct (counter_loop_get (k :: items) [] k) as [Hnd _]; [constructor|].
Qed.

Lemma occurrences_pos (k : K) (items : list K) :
  k ∈ items → (0 < occurrences k items)%Z.
Proof.
  intros Hin. unfold occurrences.
  assert (k ∈ filter (λ x, x = k) items) as Hf by (by apply list_elem_of_filter).
  destruct (filter (λ x, x = k) items); [by apply elem_of_nil in Hf|].
  simpl. lia.
Qed.
End CounterFacts.

Section StableSortAscFacts.
Context {A : Type} (key : A → Z).

Lemma insert_asc_Permutation x l : insert_asc key x l ≡ₚ x :: l.
Proof.
  induction l as [|y l IH]; simpl; [done|].
  case_match; [done|]. rewrite IH. apply Permutation_swap.
Qed.

Lemma sorted_asc_Permutation l : sorted_asc key l ≡ₚ l.
Proof.
  induction l as [|x l IH]; simpl; [done|].
  by rewrite insert_asc_Permutation, IH.
Qed.

Lemma insert_asc_StronglySorted x l :
  StronglySorted (λ a b, key a ≤ key b)%Z l →
  StronglySorted (λ a b, key a ≤ key b)%Z (insert_asc key x l).
Proof.
  induction 1 as [|y l Hl IH Hy]; simpl.
  - repeat constructor.
  - destruct (key x <=? key y)%Z eqn:Hle.
    + apply Z.leb_le in Hle. constructor; [by constructor|].
      constructor; [done|]. eapply Forall_impl; [exact Hy|].
      simpl. intros. lia.
    + apply Z.leb_gt in Hle. constructor; [done|].
      rewrite insert_asc_Permutation. constructor; [lia|done].
Qed.

Lemma sorted_asc_StronglySorted l :
  StronglySorted (λ a b, key a ≤ key b)%Z (sorted_asc key l).
Proof.
  induction l as [|x l IH]; simpl; [constructor|].
  by apply insert_asc_StronglySorted.
Qed.
End StableSortAscFacts.

Lemma StronglySorted_filter {A} (R : relation A) (P : A → Prop)
    `{∀ x, Decision (P x)} (l : list A) :
  StronglySorted R l → StronglySorted R (filter P l).
Proof.
  induction 1 as [|x l Hl IH Hx]; [constructor|].
  rewrite filter_cons. case_decide; [|done].
  constructor; [done|]. apply Forall_forall.
  intros y [_ Hy]%list_elem_of_filter.
  by apply (proj1 (Forall_forall _ _) Hx).
Qed.

Lemma foldl_add_acc (acc : Z) (l : list Z) :
  foldl Z.add acc l = (acc + foldr Z.add 0 l)%Z.
Proof.
  revert acc. induction l as [|x l IH]; intros acc; simpl; [lia|].
  rewrite IH. lia.
Qed.

Section UrlCounts.

Abbreviation by_domain :=
  (foldl (λ counts_by_domain (item : string * option string * Z),
            ODict.append item.1.2 (item.1.1, item.2) counts_by_domain)).

Lemma odict_get_append {K A} `{EqDecision K} (k x : K) (a : A)
    (d : odict K (list A)) :
  ODict.get x (ODict.append k a d)
  = if decide (k = x) then Some (default [] (ODict.get k d) ++ [a])
    else ODict.get x d.
Proof.
  unfold ODict.append.
  destruct (ODict.get k d) as [xs|]; by rewrite odict_get_set.
Qed.

Lemma by_domain_get counts d dom :
  NoDup d.*1 →
  NoDup (by_domain d counts).*1 ∧
  ODict.get dom (by_domain d counts)
  = match ODict.get dom d, entries_of dom counts with
    | None, [] => None
    | o, es => Some (default [] o ++ es)
    end.
Proof.
  revert d. induction counts as [|[[url domain] num] counts IH]; intros d Hd.
  { simpl. split; [done|]. destruct (ODict.get dom d); [|done].
    by rewrite app_nil_r. }
  cbn [foldl fst snd].
  destruct (IH (ODict.append domain (url, num) d)) as [Hnd ->];
    [by apply odict_append_NoDup|].
  split; [done|]. rewrite odict_get_append. unfold entries_of.
  rewrite filter_cons. cbn [fst snd].
  destruct (decide (domain = dom)) as [->|Hne].
  - rewrite fmap_cons. cbn [fst snd].
    destruct (ODict.get dom d) as [xs|]; simpl.
    + by rewrite <- app_assoc.
    + done.
  - done.
Qed.

Lemma url_counts_get conns dom :
  ODict.get dom (_get_url_counts conns)
  = match entries_of dom
            (sorted_asc snd
               (Counter ((λ c : connection, c.1.1.2) <$> conns))) with
    | [] => None
    | es => Some es
    end.
Proof.
  unfold _get_url_counts. cbv zeta.
  destruct (by_domain_get
              (sorted_asc snd (Counter ((λ c : connection, c.1.1.2) <$> conns)))
              [] dom) as [_ ->]; [constructor|].
  simpl. by destruct (entries_of _ _).
Qed.

Lemma url_counts_NoDup conns : NoDup (_get_url_counts conns).*1.
Proof.
  unfold _get_url_counts. cbv zeta.
  by destruct (by_domain_get
              (sorted_asc snd (Counter ((λ c : connection, c.1.1.2) <$> conns)))
              [] None) as [Hnd _]; [constructor|].
Qed.

Lemma url_counts_item conns dom l :
  (dom, l) ∈ _get_url_counts conns ↔
  l ≠ [] ∧
  l = entries_of dom
        (sorted_asc snd (Counter ((λ c : connection, c.1.1.2) <$> conns))).
Proof.
  split.
  - intros Hin. apply (odict_elem_get _ _ _ (url_counts_NoDup conns)) in Hin.
    rewrite url_counts_get in Hin.
    destruct (entries_of _ _) as [|e es]; [done|].
    injection Hin as <-. done.
  - intros [Hne ->]. apply odict_get_elem. rewrite url_counts_get.
    by destruct (entries_of _ _).
Qed.

Lemma occurrences_links_to dest conns :
  occurrences dest ((λ c : connection, c.1.1.2) <$> conns) = links_to dest conns.
Proof.
  unfold occurrences, links_to. f_equal.
  induction conns as [|c conns IH]; [done|].
  rewrite fmap_cons, !filter_cons.
  destruct (decide (c.1.1.2 = dest)); simpl; by rewrite IH.
Qed.

Lemma entries_of_elem conns dom url n :
  (url, n) ∈ entries_of dom
               (sorted_asc snd (Counter ((λ c : connection, c.1.1.2) <$> conns)))
  ↔ (0 < n)%Z ∧ n = links_to (url, dom) conns.
Proof.
  unfold entries_of. rewrite list_elem_of_fmap. split.
  - intros ([[url' dom'] n'] & [= -> ->] & [Hdom Hin]%list_elem_of_filter).
    simpl in Hdom. subst dom'.
    rewrite sorted_asc_Permutation in Hin.
    apply Counter_elem in Hin as [Hin ->].
    rewrite <- occurrences_links_to. split; [by apply occurrences_pos|done].
  - intros [Hpos ->]. exists ((url, dom), links_to (url, dom) conns).
    split; [done|]. apply list_elem_of_filter. split; [done|].
    rewrite sorted_asc_Permutation. apply Counter_elem.
    rewrite occurrences_links_to. split; [|done].
    destruct (decide ((url, dom) ∈ (λ c : connection, c.1.1.2) <$> conns))
      as [?|Hnin]; [done|].
    exfalso. rewrite <- occurrences_links_to in Hpos.
    unfold occurrences in Hpos.
    destruct (filter (λ x, x = (url, dom)) _) as [|x xs] eqn:Hf; [simpl in Hpos; lia|].
    assert (x ∈ x :: xs) as Hx by (by left). rewrite <- Hf in Hx.
    apply list_elem_of_filter in Hx as [-> Hx]. done.
Qed.

Lemma entries_of_NoDup dom (counts : list (string * option string * Z)) :
  NoDup counts.*1 → NoDup (entries_of dom counts).*1.
Proof.
  intros Hnd. unfold entries_of. rewrite <- list_fmap_compose.
  apply NoDup_fmap_2_strong.
  - intros [[u1 d1] n1] [[u2 d2] n2]
      [Hd1 H1]%list_elem_of_filter [Hd2 H2]%list_elem_of_filter Heq.
    simpl in *. subst.
    assert (n1 = n2) as ->; [|done].
    apply (odict_elem_get _ _ _ Hnd) in H1, H2. congruence.
  - apply NoDup_filter. eapply NoDup_fmap_1. exact Hnd.
Qed.

Lemma entries_of_total dom (counts : list (string * option string * Z)) :
  foldr Z.add 0%Z (entries_of dom counts).*2
  = foldr Z.add 0%Z (filter (λ item : string * option string * Z,
                               item.1.2 = dom) counts).*2.
Proof. unfold entries_of. by rewrite <- list_fmap_compose. Qed.

Lemma total_into_cons dom k v (d : odict (string * option string) Z) :
  foldr Z.add 0%Z (filter (λ item : string * option string * Z,
                             item.1.2 = dom) ((k, v) :: d)).*2
  = ((if decide (k.2 = dom) then v else 0)
     + foldr Z.add 0%Z (filter (λ item : string * option string * Z,
                                  item.1.2 = dom) d).*2)%Z.
Proof.
  rewrite filter_cons. cbn [fst snd].
  destruct (decide (k.2 = dom)); [|lia]. by rewrite fmap_cons.
Qed.

Lemma total_into_incr dom dest (d : odict (string * option string) Z) :
  foldr Z.add 0%Z (filter (λ item : string * option string * Z,
                             item.1.2 = dom) (ODict.incr dest d)).*2
  = (foldr Z.add 0%Z (filter (λ item : string * option string * Z,
                                item.1.2 = dom) d).*2
     + if decide (dest.2 = dom) then 1 else 0)%Z.
Proof.
  unfold ODict.incr.
  induction d as [|[k v] d IH].
  { cbn [ODict.get ODict.set]. rewrite total_into_cons. simpl. lia. }
  cbn [ODict.get].
  destruct (decide (k = dest)) as [->|Hne].
  - cbn [ODict.set]. rewrite decide_True by done.
    rewrite !total_into_cons. destruct (decide (dest.2 = dom)); lia.
  - destruct (ODict.get dest d) as [n|] eqn:Hget;
      cbn [ODict.set]; rewrite decide_False by done;
      rewrite !total_into_cons, IH; lia.
Qed.

Lemma total_into_loop dom dests (d : odict (string * option string) Z) :
  foldr Z.add 0%Z (filter (λ item : string * option string * Z,
                             item.1.2 = dom)
                          (foldl (λ d k, ODict.incr k d) d dests)).*2
  = (foldr Z.add 0%Z (filter (λ item : string * option string * Z,
                                item.1.2 = dom) d).*2
     + Z.of_nat (length (filter (λ dest : string * option string,
                                   dest.2 = dom) dests)))%Z.
Proof.
  revert d. induction dests as [|dest dests IH]; intros d.
  { simpl. lia. }
  cbn [foldl]. rewrite IH, total_into_incr, filter_cons.
  destruct (decide (dest.2 = dom)); simpl length; lia.
Qed.

Lemma foldr_add_Permutation (l1 l2 : list Z) :
  l1 ≡ₚ l2 → foldr Z.add 0%Z l1 = foldr Z.add 0%Z l2.
Proof. induction 1; simpl; lia. Qed.

Lemma total_into_sorted dom (counts : list (string * option string * Z)) :
  foldr Z.add 0%Z (filter (λ item : string * option string * Z,
                             item.1.2 = dom) (sorted_asc snd counts)).*2
  = foldr Z.add 0%Z (filter (λ item : string * option string * Z,
                               item.1.2 = dom) counts).*2.
Proof.
  apply foldr_add_Permutation. by rewrite sorted_asc_Permutation.
Qed.

(** The total of a domain is the number of connections into it. *)
Lemma url_counts_total conns dom l :
  (dom, l) ∈ _get_url_counts conns → total_count l = links_into dom conns.
Proof.
  intros [_ ->]%url_counts_item. unfold total_count.
  rewrite foldl_add_acc, entries_of_total, total_into_sorted.
  unfold Counter. rewrite total_into_loop.
  rewrite filter_nil, fmap_nil. cbn [foldr].
  unfold links_into.
  assert (length (filter (λ dest : string * option string, dest.2 = dom)
                         ((λ c : connection, c.1.1.2) <$> conns))
          = length (filter (λ c : connection, c.1.1.2.2 = dom) conns)) as ->;
    [|lia].
  induction conns as [|c conns IH]; [done|].
  rewrite fmap_cons, !filter_cons.
  destruct (decide (c.1.1.2.2 = dom)); simpl; by rewrite IH.
Qed.

End UrlCounts.

(** X6. [_get_url_counts] lists each domain once; under a domain it
    lists each link into that domain once, with the number of
    connections that lead to that link, never zero, the least linked
    first; and it lists nothing else. *)
Theorem url_counts_correct (conns : list connection) :
  NoDup (_get_url_counts conns).*1 ∧
  (∀ dom url n,
     (∃ l, (dom, l) ∈ _get_url_counts conns ∧ (url, n) ∈ l)
     ↔ (0 < n)%Z ∧ n = links_to (url, dom) conns) ∧
  (∀ dom l, (dom, l) ∈ _get_url_counts conns →
     NoDup l.*1 ∧ StronglySorted (λ a b, a.2 ≤ b.2)%Z l).
Proof.
  split_and!.
  - apply url_counts_NoDup.
  - intros dom url n. split.
    + intros (l & [_ ->]%url_counts_item & Hin). by apply entries_of_elem.
    + intros Hn. apply entries_of_elem in Hn. eexists. split; [|exact Hn].
      apply url_counts_item. split; [|done].
      intros Hnil. rewrite Hnil in Hn. by apply elem_of_nil in Hn.
  - intros dom l [_ ->]%url_counts_item. split.
    + apply entries_of_NoDup.
      rewrite sorted_asc_Permutation. apply Counter_NoDup.
    + unfold entries_of.
      apply (StronglySorted_fmap _ (λ a b : string * option string * Z,
                                      a.2 ≤ b.2)%Z); [done|].
      apply StronglySorted_filter, sorted_asc_StronglySorted.
Qed.

Lemma save_lines_loop (acc : list string)
    (items : odict (option string) (list (string * Z))) :
  foldl (λ textlines (item : option string * list (string * Z)),
           let '(domain, url_counts) := item in
           (textlines ++ [domain_header domain (total_count url_counts)])
           ++ (url_line <$> url_counts))
        acc items
  = acc ++ concat ((λ item : option string * list (string * Z),
                      domain_header item.1 (total_count item.2)
                      :: (url_line <$> item.2)) <$> items).
Proof.
  revert acc. induction items as [|[domain url_counts] items IH]; intros acc.
  { simpl. by rewrite app_nil_r. }
  cbn [foldl]. rewrite IH. rewrite fmap_cons. cbn [concat fst snd].
  by rewrite <- !app_assoc.
Qed.

(** X7. The file of link counts that [_save_url_counts] writes for
    [_get_url_counts] has, for each domain, a header line carrying the
    number of connections into that domain, followed by one line for
    each link of the domain. *)
Theorem save_url_counts_totals (conns : list connection) :
  _save_url_counts (_get_url_counts conns)
  = ("links.txt",
     Str.join Str.nl
       (concat ((λ item : option string * list (string * Z),
                   domain_header item.1 (links_into item.1 conns)
                   :: (url_line <$> item.2))
                <$> _get_url_counts conns))).
Proof.
  unfold _save_url_counts. cbv zeta. rewrite save_lines_loop.
  rewrite app_nil_l. f_equal. f_equal. f_equal.
  apply Forall_fmap_ext, Forall_forall. intros [dom l] Hin. cbn [fst snd].
  by rewrite (url_counts_total _ _ _ Hin).
Qed.


(** * Splitting and joining *)


Lemma rev_app_append cur acc :
  String.rev_app cur acc = String.rev_app cur "" +:+ acc.
Proof.
  revert acc. induction cur as [|c cur IH]; intros acc; simpl.
  { by rewrite append_nil. }
  by rewrite IH, (IH (String c "")), append_assoc, append_cons, append_nil.
Qed.

Lemma rev_cons c cur : String.rev (String c cur) = String.rev cur +:+ String c "".
Proof. unfold String.rev. simpl. apply rev_app_append. Qed.

Lemma has_char_app c s t :
  Str.has_char c (s +:+ t) = Str.has_char c s || Str.has_char c t.
Proof.
  induction s as [|a s IH]; [by rewrite append_nil|].
  rewrite append_cons. simpl. by destruct (decide (a = c)).
Qed.





Lemma join_cons sep p q ps :
  Str.join sep (p :: q :: ps) = p +:+ sep +:+ Str.join sep (q :: ps).
Proof. done. Qed.


(** Every piece of a split is free of the separator. *)
Lemma split_go_pieces sep cur s :
  Str.has_char sep (String.rev cur) = false →
  Forall (λ p, Str.has_char sep p = false) (Str.split_go sep cur s).
Proof.
  revert cur. induction s as [|c s IH]; intros cur Hcur; simpl.
  { by constructor. }
  destruct (decide (c = sep)) as [->|Hne].
  - constructor; [done|]. by apply IH.
  - apply IH. rewrite rev_cons, has_char_app, Hcur. simpl.
    by rewrite decide_False.
Qed.

(** * Lists of names *)

(** X8. Whatever the file holds, and also when it is missing,
    [load_user_list] returns only names that are non-empty and hold no
    line break. *)
Theorem load_user_list_lines (content : option string) :
  Forall is_line (load_user_list content).
Proof.
  destruct content as [text|]; [|constructor].
  unfold load_user_list. apply Forall_forall.
  intros l [Hl Hin]%list_elem_of_filter. split; [done|].
  by apply (proj1 (Forall_forall _ _)
              (split_go_pieces Str.NL "" (universal_newlines false text)
                 eq_refl)).
Qed.







(** A carriage return inside a name breaks it in two. *)
Example load_user_list_carriage_return :
  load_user_list (Some ("a" +:+ String CR "b" +:+ Str.nl +:+ "c"))
  = ["a"; "b"; "c"].
Proof. vm_compute. reflexivity. Qed.


(** * Links that are told apart, and links that are not *)

Lemma sub_www_prefix s : Re.sub_www ("www." +:+ s) = Re.sub_www s.
Proof.
  unfold Re.sub_www, Str.replace.
  rewrite !append_cons, append_nil. simpl. by rewrite append_nil.
Qed.

(** X10. For a link made of ASCII characters, [_shorten_link] does not
    tell apart the link, the link in lower case, and the link with a
    leading [www.] or [WWW.] put before it: they are given the same
    normalized link and the same domain. *)
Theorem shorten_link_ignores_case_and_www (N : string → result string)
    (s : string) :
  ascii_only s = true →
  _shorten_link N (Str.lower s) = _shorten_link N s ∧
  _shorten_link N ("www." +:+ s) = _shorten_link N s ∧
  _shorten_link N ("WWW." +:+ s) = _shorten_link N s.
Proof.
  intros _. unfold _shorten_link. split_and!.
  - by rewrite lower_idem.
  - rewrite !append_cons, append_nil. cbn [Str.lower].
    change (String (Str.lower_char "w") (String (Str.lower_char "w")
              (String (Str.lower_char "w") (String (Str.lower_char ".")
                 (Str.lower s)))))
      with ("www." +:+ Str.lower s).
    by rewrite sub_www_prefix.
  - rewrite !append_cons, append_nil. cbn [Str.lower].
    change (String (Str.lower_char "W") (String (Str.lower_char "W")
              (String (Str.lower_char "W") (String (Str.lower_char ".")
                 (Str.lower s)))))
      with ("www." +:+ Str.lower s).
    by rewrite sub_www_prefix.
Qed.

Lemma shorten_link_ignores_case_and_www_witness :
  _shorten_link Urlparse.netloc (Str.lower "Example.com/Page")
  = _shorten_link Urlparse.netloc "Example.com/Page" ∧
  _shorten_link Urlparse.netloc ("www." +:+ "Example.com/Page")
  = _shorten_link Urlparse.netloc "Example.com/Page" ∧
  _shorten_link Urlparse.netloc ("WWW." +:+ "Example.com/Page")
  = _shorten_link Urlparse.netloc "Example.com/Page".
Proof.
  apply (shorten_link_ignores_case_and_www Urlparse.netloc "Example.com/Page").
  reflexivity.
Defined.


(** * Suspected accounts *)

Section HashingFacts.
Variable md5_hexdigest : string → string.
Variable SPECIAL_USER_STYLING : gmap string (string * string).

Abbreviation hash := (hash_username md5_hexdigest).
Abbreviation fresh_hash := (name_hash md5_hexdigest).
Abbreviation register := (set_special_names_and_hashes md5_hexdigest).

(** The cache is transparent: a call returns the hash of the name, keeps
    the cache right and touches nothing else. *)
Lemma hash_username_cached username g :
  cache_ok md5_hexdigest g →
  (hash username g).1 = fresh_hash username ∧
  cache_ok md5_hexdigest (hash username g).2 ∧
  SPECIAL_USERS (hash username g).2 = SPECIAL_USERS g ∧
  SPECIAL_USER_HASHES (hash username g).2 = SPECIAL_USER_HASHES g.
Proof.
  intros Hok. unfold hash_username, name_hash.
  destruct (Str.truthy username) eqn:Hu; simpl; [|done].
  destruct (HASHED_NAMES g !! username) as [h|] eqn:Hh; simpl.
  - split_and!; try done. apply Hok in Hh. unfold name_hash in Hh.
    by rewrite Hu in Hh.
  - split_and!; try done. intros u h. simpl.
    destruct (decide (username = u)) as [<-|Hne].
    + rewrite lookup_insert_eq. intros [= <-]. unfold name_hash. by rewrite Hu.
    + rewrite lookup_insert_ne by done. apply Hok.
Qed.

Lemma register_facts usernames g :
  cache_ok md5_hexdigest g →
  cache_ok md5_hexdigest (register usernames g) ∧
  SPECIAL_USERS (register usernames g) = SPECIAL_USERS g ++ usernames ∧
  SPECIAL_USER_HASHES (register usernames g)
  = SPECIAL_USER_HASHES g ∪ list_to_set (fresh_hash <$> usernames).
Proof.
  revert g. unfold set_special_names_and_hashes.
  induction usernames as [|u us IH]; intros g Hok.
  { simpl. split_and!; [done|by rewrite app_nil_r|].
    by rewrite (right_id_L ∅ (∪)). }
  cbn [foldl].
  set (g1 := {| HASHED_NAMES := HASHED_NAMES g;
                SPECIAL_USERS := SPECIAL_USERS g ++ [u];
                SPECIAL_USER_HASHES := SPECIAL_USER_HASHES g |}).
  destruct (hash_username_cached u g1) as (Hh & Hok1 & Husers & Hhashes);
    [done|].
  destruct (hash u g1) as [h g2]. simpl in Hh, Hok1, Husers, Hhashes.
  match goal with
  | |- context [foldl _ ?g' us] =>
      destruct (IH g') as (Hok' & Husers' & Hhashes'); [done|]
  end.
  split_and!; [done| |].
  - rewrite Husers'. simpl. rewrite Husers. simpl. by rewrite <- app_assoc.
  - rewrite Hhashes'. simpl. rewrite Hhashes, Hh. simpl.
    change (list_fmap string string fresh_hash us) with (fresh_hash <$> us).
    apply set_eq. intros x. rewrite !elem_of_union. tauto.
Qed.

(** X11. After [set_special_names_and_hashes], against globals whose
    cache of hashes is right, [SPECIAL_USERS] has the names appended in
    order, and [_is_user_from_special_list] returns the hash of the
    author, answers yes exactly for the authors whose hash is the hash of
    a registered name, was in [SPECIAL_USER_HASHES] before, or is a key of
    [SPECIAL_USER_STYLING], hence for every registered name; the cache
    stays right. *)
Theorem registered_names_are_special usernames author g :
  cache_ok md5_hexdigest g →
  let g1 := register usernames g in
  let r := _is_user_from_special_list md5_hexdigest SPECIAL_USER_STYLING
             author g1 in
  SPECIAL_USERS g1 = SPECIAL_USERS g ++ usernames ∧
  r.1.2 = fresh_hash author ∧
  (r.1.1 = true
   ↔ (∃ u, u ∈ usernames ∧ fresh_hash u = fresh_hash author)
     ∨ fresh_hash author ∈ SPECIAL_USER_HASHES g
     ∨ is_Some (SPECIAL_USER_STYLING !! fresh_hash author)) ∧
  (author ∈ usernames → r.1.1 = true) ∧
  cache_ok md5_hexdigest r.2.
Proof.
  intros Hok g1 r.
  destruct (register_facts usernames g Hok) as (Hok1 & Husers & Hhashes).
  fold g1 in Hok1, Husers, Hhashes.
  destruct (hash_username_cached author g1 Hok1) as (Hh & Hok2 & _ & Hhashes2).
  subst r. unfold _is_user_from_special_list.
  destruct (hash author g1) as [h g2]. simpl in Hh, Hok2, Hhashes2. subst h.
  cbn [fst snd].
  assert (bool_decide (fresh_hash author ∈ SPECIAL_USER_HASHES g2)
          || bool_decide (is_Some (SPECIAL_USER_STYLING !! fresh_hash author))
          = true
          ↔ (∃ u, u ∈ usernames ∧ fresh_hash u = fresh_hash author)
            ∨ fresh_hash author ∈ SPECIAL_USER_HASHES g
            ∨ is_Some (SPECIAL_USER_STYLING !! fresh_hash author)) as Hiff.
  { rewrite orb_true_iff, !bool_decide_eq_true, Hhashes2, Hhashes.
    rewrite elem_of_union, elem_of_list_to_set, list_elem_of_fmap.
    split.
    - intros [[?|(u & Hu & Hin)]|?]; [tauto| |tauto]. left. by exists u.
    - intros [(u & Hin & Hu)|[?|?]]; [|tauto|tauto].
      left. right. by exists u. }
  split_and!; try done.
  intros Hin. apply Hiff. left. by exists author.
Qed.
End HashingFacts.

Lemma registered_names_are_special_witness :
  cache_ok Md5.hexdigest empty_registry ∧
  (_is_user_from_special_list Md5.hexdigest main_SPECIAL_USER_STYLING "Duke"
     (set_special_names_and_hashes Md5.hexdigest
        ["Popeye the Sailor"; "Duke"] empty_registry)).1.1 = true.
Proof.
  assert (cache_ok Md5.hexdigest empty_registry) as Hok.
  { intros u h Hu. simpl in Hu. by rewrite lookup_empty in Hu. }
  split; [exact Hok|].
  destruct (registered_names_are_special Md5.hexdigest
              main_SPECIAL_USER_STYLING ["Popeye the Sailor"; "Duke"] "Duke"
              empty_registry Hok) as (_ & _ & _ & Hin & _).
  apply Hin. apply elem_of_cons. right. apply elem_of_cons. by left.
Defined.


(** * Anonymization of names *)

(** A call numbers the name if it has no number yet, returns its
    number, and keeps every other entry. *)
Lemma replace_with_anonymous_id_numbering text user_name um :
  numbered um →
  let r := _replace_with_anonymous_id text user_name um in
  numbered r.2 ∧ um ⊆ r.2 ∧ r.2 !! user_name = Some r.1.2 ∧
  (∀ name, is_Some (r.2 !! name) ↔ name = user_name ∨ is_Some (um !! name)).
Proof.
  intros [Hrange Hinj]. unfold _replace_with_anonymous_id.
  destruct (um !! user_name) as [i|] eqn:Hlook; cbn [fst snd].
  - split_and!; try done. intros name. split; [by right|].
    intros [->|?]; [by eexists|done].
  - split_and!.
    + split.
      * intros name i. rewrite map_size_insert_None by done.
        destruct (decide (user_name = name)) as [<-|Hne].
        -- rewrite lookup_insert_eq. intros [= <-]. lia.
        -- rewrite lookup_insert_ne by done. intros Hi%Hrange. lia.
      * intros n1 n2 i.
        destruct (decide (user_name = n1)) as [<-|Hne1];
          destruct (decide (user_name = n2)) as [<-|Hne2];
          rewrite ?lookup_insert_eq, ?lookup_insert_ne by done.
        -- done.
        -- intros [= <-] Hi%Hrange. lia.
        -- intros Hi%Hrange [= <-]. lia.
        -- apply Hinj.
    + by apply insert_subseteq.
    + by rewrite lookup_insert_eq.
    + intros name. rewrite lookup_insert_is_Some'.
      split; (intros [->|?]; [by left|by right]).
Qed.

Lemma anonymize_mention_numbering user_mention text um :
  numbered um →
  numbered (anonymize_mention user_mention text um).2 ∧
  um ⊆ (anonymize_mention user_mention text um).2.
Proof.
  intros Hum. unfold anonymize_mention.
  destruct (replace_with_anonymous_id_numbering text
              (lstrip_by (λ c, bool_decide (c = "@"%char)) user_mention) um Hum)
    as (Hn & Hsub & _).
  by destruct (_replace_with_anonymous_id _ _ _) as [[t i] um'].
Qed.

Lemma mentions_loop_numbering usr_mentions text um :
  numbered um →
  let r := foldl (λ (acc : string * gmap string Z) user_mention,
                    anonymize_mention user_mention acc.1 acc.2)
                 (text, um) usr_mentions in
  numbered r.2 ∧ um ⊆ r.2.
Proof.
  revert text um. induction usr_mentions as [|m ms IH]; intros text um Hum.
  { done. }
  cbn [foldl fst snd].
  destruct (anonymize_mention_numbering m text um Hum) as [Hn Hsub].
  destruct (anonymize_mention m text um) as [t um1]. simpl in Hn, Hsub.
  destruct (IH t um1 Hn) as [Hn' Hsub']. split; [done|].
  by etrans.
Qed.

Lemma names_loop_numbering (names : list string) text um :
  numbered um →
  let r := foldl (λ (acc : string * gmap string Z) name,
                    let '(text, _, user_map) :=
                      _replace_with_anonymous_id acc.1 name acc.2 in
                    (text, user_map))
                 (text, um) names in
  numbered r.2 ∧ um ⊆ r.2 ∧ ∀ name, name ∈ names → is_Some (r.2 !! name).
Proof.
  revert text um. induction names as [|n ns IH]; intros text um Hum.
  { split_and!; [done..|]. by intros name ?%elem_of_nil. }
  cbn [foldl fst snd].
  destruct (replace_with_anonymous_id_numbering text n um Hum)
    as (Hn & Hsub & Hid & _).
  destruct (_replace_with_anonymous_id text n um) as [[t i] um1].
  simpl in Hn, Hsub, Hid.
  destruct (IH t um1 Hn) as (Hn' & Hsub' & Hall). split_and!; [done| |].
  - by etrans.
  - intros name [->|Hin]%elem_of_cons; [|by apply Hall].
    exists i. by apply (lookup_weaken _ _ _ _ Hid Hsub').
Qed.

Section SortByFacts.
Context {A : Type} (le : A → A → bool).

Lemma insert_desc_by_Permutation x l : insert_desc_by le x l ≡ₚ x :: l.
Proof.
  induction l as [|y l IH]; simpl; [done|].
  case_match; [done|]. rewrite IH. apply Permutation_swap.
Qed.

Lemma sorted_desc_by_Permutation l : sorted_desc_by le l ≡ₚ l.
Proof.
  induction l as [|x l IH]; simpl; [done|].
  by rewrite insert_desc_by_Permutation, IH.
Qed.
End SortByFacts.

(** X12. [anonymize_names] keeps the numbering of the users sound: if
    the users of [user_map] are numbered from 0 without exceeding the size
    of the map and no two names share a number, the same holds after the
    call, and no name has lost or changed its number; [ANON_NAMESET] only
    grows. *)
Theorem anonymize_names_numbering usr_mentions author_re text um nameset :
  numbered um →
  let r := anonymize_names usr_mentions author_re text um nameset in
  numbered r.1.2 ∧ um ⊆ r.1.2 ∧ nameset ⊆ r.2.
Proof.
  intros Hum. unfold anonymize_names.
  destruct (mentions_loop_numbering usr_mentions text um Hum) as [Hn1 Hsub1].
  destruct (foldl _ (text, um) usr_mentions) as [t1 um1].
  simpl in Hn1, Hsub1.
  cbv beta iota zeta.
  match goal with
  | |- context [match ?e with (_, _) => _ end] =>
      match e with
      | (if _ then _ else _) => destruct e as [t2 um2] eqn:Hstage
      end
  end.
  assert (numbered um2 ∧ um1 ⊆ um2) as [Hn2 Hsub2].
  { destruct (_ || _); [|by injection Hstage as <- <-].
    destruct (replace_with_anonymous_id_numbering (strip t1)
                (default "" (head (Str.split Str.NL (strip t1)))) um1 Hn1)
      as (Hn & Hsub & _).
    destruct (_replace_with_anonymous_id _ _ _) as [[t i] um'].
    by injection Hstage as <- <-. }
  clear Hstage.
  destruct author_re as [findall|].
  - destruct (names_loop_numbering (sorted_desc_by String.leb (findall t2))
                t2 um2 Hn2) as (Hn3 & Hsub3 & _).
    destruct (foldl _ (t2, um2) _) as [t3 um3]. simpl in Hn3, Hsub3.
    cbn [fst snd]. split_and!; [done| |apply union_subseteq_l].
    etrans; [exact Hsub1|]. by etrans.
  - cbn [fst snd]. split_and!; [done|by etrans|done].
Qed.

Lemma anonymize_names_numbering_witness :
  numbered (anonymize_names ["@Duke Nukem"] (Some (λ _, ["Popeye"]))
              "@Duke Nukem you and Popeye are right" ∅ ∅).1.2.
Proof.
  apply (anonymize_names_numbering ["@Duke Nukem"] (Some (λ _, ["Popeye"]))
           "@Duke Nukem you and Popeye are right" ∅ ∅).
  split; intros *; by rewrite lookup_empty.
Defined.


(** * Cluster maps whose aliases are plain texts *)

Lemma literal_key_no_dot k : literal_key k = true → Str.has_char "." k = false.
Proof.
  induction k as [|c k IH]; [done|]. simpl.
  intros [Hc Hk]%andb_true_iff.
  destruct (decide (c = "."%char)) as [->|_]; [done|]. by apply IH.
Qed.

Lemma split_go_free c sep cur s :
  Str.has_char c (String.rev cur) = false → Str.has_char c s = false →
  Forall (λ p, Str.has_char c p = false) (Str.split_go sep cur s).
Proof.
  revert cur. induction s as [|x s IH]; intros cur Hcur Hs; simpl.
  { by constructor. }
  simpl in Hs. destruct (decide (x = c)) as [|Hxc]; [done|].
  destruct (decide (x = sep)) as [->|Hne].
  - constructor; [done|]. by apply IH.
  - apply IH; [|done]. rewrite rev_cons, has_char_app, Hcur. simpl.
    by rewrite decide_False.
Qed.

Lemma split_go_app sep cur a s :
  Str.split_go sep cur (a +:+ String sep s)
  = Str.split_go sep cur a ++ Str.split_go sep "" s.
Proof.
  revert cur. induction a as [|c a IH]; intros cur.
  - rewrite append_nil. simpl. by rewrite decide_True.
  - rewrite append_cons. cbn [Str.split_go].
    destruct (decide (c = sep)); by rewrite IH.
Qed.

Lemma split_join_concat sep (parts : list string) :
  parts ≠ [] →
  Str.split sep (Str.join (String sep "") parts)
  = concat (Str.split sep <$> parts).
Proof.
  intros Hne. induction parts as [|p ps IH]; [done|].
  destruct ps as [|q ps].
  - simpl. by rewrite app_nil_r.
  - rewrite join_cons, append_cons, append_nil. unfold Str.split at 1.
    rewrite split_go_app. rewrite fmap_cons. cbn [concat]. f_equal.
    by apply IH.
Qed.

Lemma match_here_literal b s m :
  Str.has_char "." b = false → NameRe.match_here b s = Some m → m = b.
Proof.
  revert s m. induction b as [|p b IH]; intros s m Hb; simpl.
  { by intros [= <-]. }
  simpl in Hb. destruct (decide (p = "."%char)) as [|Hp]; [done|].
  destruct s as [|c s]; [done|].
  rewrite (bool_decide_eq_false_2 _ Hp). simpl.
  case_bool_decide as Hpc; [|done]. subst c.
  destruct (NameRe.match_here b s) as [m'|] eqn:Hm; [|done].
  simpl. intros [= <-]. f_equal. by eapply IH.
Qed.

Lemma match_branches_elem bs s m :
  Forall (λ b, Str.has_char "." b = false) bs →
  NameRe.match_branches bs s = Some m → m ∈ bs.
Proof.
  induction 1 as [|b bs Hb _ IH]; simpl; [done|].
  destruct (NameRe.match_here b s) as [m'|] eqn:Hm.
  - intros [= <-]. apply match_here_literal in Hm as ->; [by left|done].
  - intros ?%IH. by right.
Qed.

Lemma search_elem bs s m :
  Forall (λ b, Str.has_char "." b = false) bs →
  NameRe.search bs s = Some m → m ∈ bs.
Proof.
  intros Hbs. induction s as [|c s IH]; simpl.
  - destruct (NameRe.match_branches bs "") eqn:Hm; [|done].
    intros [= <-]. by eapply match_branches_elem.
  - destruct (NameRe.match_branches bs (String c s)) eqn:Hm; [|done].
    intros [= <-]. by eapply match_branches_elem.
Qed.

(** The aliases of one label, set one after the other. *)
Lemma prepare_label_get (label x : string) (vs : list string)
    (d : odict string string) :
  ODict.get x (foldl (λ m name_var, ODict.set name_var label m) d vs)
  = if decide (x ∈ vs) then Some label else ODict.get x d.
Proof.
  revert d. induction vs as [|v vs IH]; intros d.
  { cbn [foldl]. rewrite decide_False; [done|]. by intros ?%elem_of_nil. }
  cbn [foldl]. rewrite IH, odict_get_set.
  destruct (decide (x ∈ vs)) as [Hin|Hin].
  - by rewrite decide_True by (by right).
  - destruct (decide (v = x)) as [->|Hne].
    + by rewrite decide_True by (by left).
    + rewrite decide_False; [done|]. by intros [->|?]%elem_of_cons.
Qed.

Lemma prepare_loop_get (labels : list string) (x : string)
    (d : odict string string) :
  (∃ label, label ∈ labels ∧ x ∈ Str.split "|" label) ∨ is_Some (ODict.get x d) →
  ∃ v, ODict.get x
         (foldl (λ domain_to_cluster_map label,
                   foldl (λ m name_var, ODict.set name_var label m)
                         domain_to_cluster_map (Str.split "|" label))
                d labels) = Some v
       ∧ (v ∈ labels ∨ ODict.get x d = Some v).
Proof.
  revert d. induction labels as [|l ls IH]; intros d Hx.
  { simpl. destruct Hx as [(label & ?%elem_of_nil & _)|[v Hv]]; [done|].
    exists v. by split; [|right]. }
  cbn [foldl].
  set (d1 := foldl (λ m name_var, ODict.set name_var l m) d (Str.split "|" l)).
  assert (ODict.get x d1
          = if decide (x ∈ Str.split "|" l) then Some l else ODict.get x d)
    as Hd1 by apply prepare_label_get.
  destruct (IH d1) as (v & Hv & Hfrom).
  { destruct Hx as [(label & [->|Hin]%elem_of_cons & Hsplit)|Hsome].
    - right. rewrite Hd1, decide_True by done. by eexists.
    - left. by exists label.
    - right. rewrite Hd1. by destruct (decide _). }
  exists v. split; [done|].
  destruct Hfrom as [Hin|Hget]; [left; by right|].
  rewrite Hd1 in Hget. destruct (decide _); [|by right].
  injection Hget as <-. left. by left.
Qed.

(** What the pattern finds in a text is an alias, and the alias leads to
    a key of the cluster map. *)
Lemma literal_search_resolves (cm : odict string string) (s g : string) :
  cm ≠ [] →
  Forall (λ k, literal_key k) (ODict.keys cm) →
  NameRe.search (NameRe.compile (ODict.keys cm)) s = Some g →
  ∃ fullname styleinfo,
    ODict.get g (_prepare_cluster_map cm) = Some fullname ∧
    ODict.get fullname cm = Some styleinfo.
Proof.
  intros Hne Hlit Hsearch.
  assert (ODict.keys cm ≠ []) as Hkeys by (by destruct cm).
  unfold NameRe.compile in Hsearch.
  change (Str.join "|" (ODict.keys cm))
    with (Str.join (String "|"%char "") (ODict.keys cm)) in Hsearch.
  rewrite split_join_concat in Hsearch by done.
  apply search_elem in Hsearch.
  - apply elem_of_concat in Hsearch as (vs & Hvs & Hg).
    apply list_elem_of_fmap in Hvs as (label & -> & Hlabel).
    destruct (prepare_loop_get (ODict.keys cm) g [])
      as (fullname & Hget & Hfrom).
    { left. by exists label. }
    destruct Hfrom as [Hin|?]; [|done].
    apply odict_get_keys in Hin as [styleinfo Hstyle].
    by exists fullname, styleinfo.
  - apply Forall_forall. intros b (vs & Hvs & Hb)%elem_of_concat.
    apply list_elem_of_fmap in Hvs as (label & -> & Hlabel).
    apply (proj1 (Forall_forall _ _) Hlit), Is_true_true, literal_key_no_dot
      in Hlabel.
    by apply (proj1 (Forall_forall _ _)
                (split_go_free "." "|" "" label eq_refl Hlabel)).
Qed.

Section LiteralTables.
Variable wrap : string → nat → list string.
Variable quote : string → string.
Variable SPECIAL_USER_STYLING : gmap string (string * string).
Variable cm : odict string string.
Variable MAX_NODE_LINE_LENGTH : nat.
Hypothesis cm_nonempty : cm ≠ [].
Hypothesis cm_literal : Forall (λ k, literal_key k) (ODict.keys cm).

Lemma format_node_literal self nodetext :
  tables_of cm self →
  ∃ self' r, _format_node quote cm self nodetext = inr (self', r)
             ∧ tables_of cm self'.
Proof using cm_nonempty cm_literal.
  intros [Hre Hd]. unfold _format_node. rewrite Hre, Hd.
  cbv [mbind result_bind mret result_ret].
  destruct (NameRe.search _ _) as [g|] eqn:Hsearch.
  - destruct (literal_search_resolves cm _ g cm_nonempty cm_literal Hsearch)
      as (fullname & styleinfo & -> & Hstyle).
    cbn [getitem]. rewrite Hstyle. cbn [getitem].
    do 2 eexists. split; [done|]. by split.
  - do 2 eexists. split; [done|]. by split.
Qed.

Lemma body_step_literal self b c :
  tables_of cm self → author_ok SPECIAL_USER_STYLING c →
  ∃ self' b',
    body_step wrap quote SPECIAL_USER_STYLING cm MAX_NODE_LINE_LENGTH
      (self, b) c = inr (self', b')
    ∧ tables_of cm self'.
Proof using cm_nonempty cm_literal.
  intros Ht Hauthor. destruct c as [[[src tgt] author] origin].
  unfold body_step. cbv [mbind result_bind mret result_ret].
  destruct (format_node_literal self
              (_format_link_for_display wrap MAX_NODE_LINE_LENGTH src.1 src.2) Ht)
    as (self1 & [name1 line1] & -> & Ht1).
  destruct (format_node_literal self1
              (_format_link_for_display wrap MAX_NODE_LINE_LENGTH tgt.1 tgt.2) Ht1)
    as (self2 & [name2 line2] & -> & Ht2).
  destruct Ht2 as [Hre2 Hd2]. rewrite Hd2.
  assert (∃ edgecolor,
            match author with
            | Some a =>
                if Str.truthy a
                then snd <$> getitem a (SPECIAL_USER_STYLING !! a)
                else inr ""
            | None => inr ""
            end = inr edgecolor) as [edgecolor ->].
  { destruct author as [a|]; [|by eauto].
    destruct (Str.truthy a) eqn:Ha; [|by eauto].
    destruct (Hauthor a) as [style Hstyle]; [done|by rewrite Ha|].
    rewrite Hstyle. simpl. by eauto. }
  destruct (map_to_clusters _ _ name2 _) as [cl cz].
  do 2 eexists. split; [done|]. by split.
Qed.

Lemma body_loop_literal self b cs :
  tables_of cm self → Forall (author_ok SPECIAL_USER_STYLING) cs →
  ∃ r, body_loop wrap quote SPECIAL_USER_STYLING cm MAX_NODE_LINE_LENGTH
         (self, b) cs = inr r.
Proof using cm_nonempty cm_literal.
  intros Ht Hcs. revert self b Ht.
  induction Hcs as [|c cs Hc _ IH]; intros self b Ht.
  { by eexists. }
  rewrite body_loop_cons.
  destruct (body_step_literal self b c Ht Hc) as (self' & b' & -> & Ht').
  by apply IH.
Qed.

Lemma body_loop_authors st cs r :
  body_loop wrap quote SPECIAL_USER_STYLING cm MAX_NODE_LINE_LENGTH st cs
  = inr r →
  Forall (author_ok SPECIAL_USER_STYLING) cs.
Proof.
  revert st. induction cs as [|c cs IH]; intros st; [by constructor|].
  rewrite body_loop_cons.
  destruct (body_step _ _ _ _ _ st c) as [e|st'] eqn:Hstep; [done|].
  intros Hrest. constructor; [|by eapply IH].
  intros a Ha Htruthy.
  destruct (SPECIAL_USER_STYLING !! a) as [style|] eqn:Hstyle; [by eexists|].
  destruct (body_step_unknown_author wrap quote SPECIAL_USER_STYLING cm
              MAX_NODE_LINE_LENGTH st c a Ha) as [e He].
  - by destruct (Str.truthy a).
  - done.
  - by rewrite He in Hstep.
Qed.

Lemma graph_body_literal (starting_cluster : string) (cs : list connection) :
  Forall (author_ok SPECIAL_USER_STYLING) cs →
  ∃ r, _make_graph_body wrap quote SPECIAL_USER_STYLING cm
         MAX_NODE_LINE_LENGTH (graph_maker cm starting_cluster cs) = inr r.
Proof using cm_nonempty cm_literal.
  intros Hcs. unfold _make_graph_body. apply body_loop_literal; [|done].
  unfold graph_maker, GraphCreator_init, tables_of. simpl.
  by destruct cm.
Qed.

(** X13. For a cluster map whose keys are made of letters, digits,
    hyphens, underscores, spaces and the separating bar, and a positive
    line length, [_make_graph_body] of the instance built from that map
    returns exactly when the attribution of every connection that has one
    is a key of [SPECIAL_USER_STYLING]: without wild cards in the aliases,
    a missing styling entry is the only way for it to fail. *)
Theorem graph_body_returns_iff (starting_cluster : string)
    (cs : list connection) :
  (0 < MAX_NODE_LINE_LENGTH)%nat →
  (∃ r, _make_graph_body wrap quote SPECIAL_USER_STYLING cm
          MAX_NODE_LINE_LENGTH (graph_maker cm starting_cluster cs) = inr r)
  ↔ Forall (author_ok SPECIAL_USER_STYLING) cs.
Proof using cm_nonempty cm_literal.
  intros _. split.
  - intros [r Hr]. by eapply body_loop_authors.
  - apply graph_body_literal.
Qed.
End LiteralTables.

Lemma graph_body_returns_iff_witness :
  (∃ r, _make_graph_body wrap_plain quote_plain main_SPECIAL_USER_STYLING
          plain_WEBSITES_TO_CLUSTERS default_MAX_NODE_LINE_LENGTH
          (graph_maker plain_WEBSITES_TO_CLUSTERS STARTING_CLUSTER four_links)
        = inr r)
  ↔ Forall (author_ok main_SPECIAL_USER_STYLING) four_links.
Proof.
  apply (graph_body_returns_iff wrap_plain quote_plain
           main_SPECIAL_USER_STYLING plain_WEBSITES_TO_CLUSTERS
           default_MAX_NODE_LINE_LENGTH).
  - done.
  - repeat constructor.
  - unfold default_MAX_NODE_LINE_LENGTH. lia.
Defined.


(** * Collecting links and comments *)

Lemma mapM_result_inl {A B} (f : A → result B) (l : list A) e :
  mapM f l = inl e → ∃ x, x ∈ l ∧ f x = inl e.
Proof.
  induction l as [|x l IH]; [done|]. cbn [mapM].
  destruct (f x) as [e'|y] eqn:Hx; simpl.
  - intros [= <-]. exists x. by split; [left|].
  - destruct (mapM f l) as [e'|ys]; simpl; [|done].
    intros [= <-]. destruct IH as (x' & Hin & Hx'); [done|].
    exists x'. by split; [right|].
Qed.

Lemma mapM_result_inr {A B} (f : A → result B) (l : list A) ys :
  mapM f l = inr ys → Forall (λ x, ∃ y, f x = inr y) l.
Proof.
  revert ys. induction l as [|x l IH]; intros ys; [by constructor|].
  cbn [mapM]. destruct (f x) as [e'|y] eqn:Hx; simpl; [done|].
  destruct (mapM f l) as [e'|ys'] eqn:Hl; simpl; [done|].
  intros _. constructor; [by eexists|]. by eapply IH.
Qed.

Lemma elem_of_imap_pair {A} (l : list A) (i : nat) (x : A) :
  (i, x) ∈ imap pair l ↔ l !! i = Some x.
Proof.
  rewrite list_elem_of_lookup. split.
  - intros [j Hj]. rewrite list_lookup_imap in Hj.
    destruct (l !! j) as [y|] eqn:Hy; [|done]. simpl in Hj. by simplify_eq.
  - intros Hi. exists i. by rewrite list_lookup_imap, Hi.
Qed.

Section SaveComments.
Variable SPECIAL_USER_STYLING : gmap string (string * string).

Abbreviation save_loop :=
  (foldl (λ acc (item : string * list com_data),
            textlines ← acc;
            let '(website, comments) := item in
            let textlines :=
              textlines ++ [Str.nl +:+ Str.nl +:+ "### " +:+ website
                            +:+ " ###" +:+ Str.nl +:+ Str.nl] in
            lines ← mapM (λ ic : nat * com_data,
                            comment_as_text SPECIAL_USER_STYLING ic.1 ic.2)
                         (imap pair comments);
            mret (textlines ++ lines))).

Lemma save_loop_raised e (items : odict string (list com_data)) :
  save_loop (inl e) items = inl e.
Proof. induction items as [|[w cs] items IH]; [done|]. apply IH. Qed.

Lemma comment_as_text_inr i com :
  is_Some (SPECIAL_USER_STYLING !! com_ahash com) →
  ∃ t, comment_as_text SPECIAL_USER_STYLING i com = inr t.
Proof.
  intros [style Hstyle]. unfold comment_as_text. rewrite Hstyle. simpl.
  by eexists.
Qed.

Lemma comment_as_text_inl i com e :
  comment_as_text SPECIAL_USER_STYLING i com = inl e →
  e = KeyError (com_ahash com) ∧ SPECIAL_USER_STYLING !! com_ahash com = None.
Proof.
  unfold comment_as_text.
  destruct (SPECIAL_USER_STYLING !! com_ahash com); simpl; [done|].
  by intros [= <-].
Qed.

Lemma save_loop_outcome (items : odict string (list com_data)) textlines :
  match save_loop (inr textlines) items with
  | inr _ =>
      ∀ item com, item ∈ items → com ∈ item.2 →
        is_Some (SPECIAL_USER_STYLING !! com_ahash com)
  | inl e =>
      ∃ item com, item ∈ items ∧ com ∈ item.2 ∧
        e = KeyError (com_ahash com) ∧
        SPECIAL_USER_STYLING !! com_ahash com = None
  end.
Proof.
  revert textlines. induction items as [|[w cs] items IH]; intros textlines.
  { simpl. by intros item com ?%elem_of_nil. }
  cbn [foldl]. cbv [mbind result_bind mret result_ret].
  destruct (mapM _ (imap pair cs)) as [e|lines] eqn:Hlines.
  - change (foldl ?f (inl e) items) with (save_loop (inl e) items).
    rewrite save_loop_raised.
    apply mapM_result_inl in Hlines as ([i com] & Hin & He).
    apply elem_of_imap_pair, list_elem_of_lookup_2 in Hin.
    apply comment_as_text_inl in He as [-> Hnone].
    exists (w, cs), com. split_and!; [by left|done..].
  - specialize (IH ((textlines ++ [Str.nl +:+ Str.nl +:+ "### " +:+ w
                                   +:+ " ###" +:+ Str.nl +:+ Str.nl])
                    ++ lines)).
    change (foldl ?f (inr ?t) items) with (save_loop (inr t) items).
    destruct (save_loop _ items) as [e|all].
    + destruct IH as (item & com & Hin & Hcom & He & Hnone).
      exists item, com. split_and!; [by right|done..].
    + intros item com [->|Hin]%elem_of_cons Hcom; [|by eapply IH].
      simpl in Hcom. apply list_elem_of_lookup_1 in Hcom as [i Hi].
      apply mapM_result_inr in Hlines.
      apply elem_of_imap_pair in Hi.
      apply (proj1 (Forall_forall _ _) Hlines) in Hi as [t Ht].
      simpl in Ht. unfold comment_as_text in Ht.
      destruct (SPECIAL_USER_STYLING !! com_ahash com); [by eexists|done].
Qed.

(** X14. [_save_comments] returns, and writes [comments.txt], exactly
    when the hash of every comment it is given is a key of
    [SPECIAL_USER_STYLING]; otherwise it raises [KeyError] with the hash
    of a comment that has no styling entry, and writes nothing. *)
Theorem save_comments_checks_every_hash
    (trolls_by_website : odict string (list com_data)) :
  match _save_comments SPECIAL_USER_STYLING trolls_by_website with
  | inr file =>
      file.1 = "comments.txt" ∧
      ∀ com, kept_comment trolls_by_website com →
        is_Some (SPECIAL_USER_STYLING !! com_ahash com)
  | inl e =>
      ∃ com, kept_comment trolls_by_website com ∧
        e = KeyError (com_ahash com) ∧
        SPECIAL_USER_STYLING !! com_ahash com = None
  end.
Proof.
  unfold _save_comments.
  pose proof (save_loop_outcome trolls_by_website []) as H.
  change (inr []) with (mret [] : result (list string)) in H.
  destruct (foldl _ (mret []) trolls_by_website) as [e|textlines]; simpl.
  - destruct H as (item & com & Hin & Hcom & He & Hnone).
    exists com. split; [by exists item|done].
  - split; [done|]. intros com (item & Hin & Hcom). by eapply H.
Qed.
End SaveComments.


(** ** What [get_links_and_comments] collects *)

Lemma foldl_result_raised {S X} (f : result S → X → result S)
    (g : S → X → result S) (l : list X) e :
  (∀ acc x, f acc x = acc ≫= (λ s, g s x)) →
  foldl f (inl e) l = inl e.
Proof.
  intros Hf. induction l as [|x l IH]; [done|].
  cbn [foldl]. by rewrite Hf.
Qed.

(** A property kept by every turn that returns holds when the loop
    returns. *)
Lemma foldl_result_inv {S X} (f : result S → X → result S)
    (g : S → X → result S) (I : S → Prop) (l : list X) s0 s :
  (∀ acc x, f acc x = acc ≫= (λ s, g s x)) →
  (∀ s x s', x ∈ l → I s → g s x = inr s' → I s') →
  I s0 → foldl f (inr s0) l = inr s → I s.
Proof.
  intros Hf. revert s0. induction l as [|x l IH]; intros s0 Hstep Hs0.
  { by intros [= <-]. }
  cbn [foldl]. rewrite Hf. simpl.
  destruct (g s0 x) as [e|s1] eqn:Hg.
  - by rewrite (foldl_result_raised f g l e Hf).
  - apply IH.
    + intros s2 y s3 Hy. apply Hstep. by right.
    + eapply Hstep; [by left|done..].
Qed.

Lemma kept_comment_append tm website com com' :
  kept_comment tm com' → kept_comment (ODict.append website com tm) com'.
Proof.
  unfold ODict.append.
  assert (∀ v, (∀ v0, ODict.get website tm = Some v0 → com' ∈ v0 → com' ∈ v) →
               kept_comment tm com' → kept_comment (ODict.set website v tm) com')
    as Hset.
  { intros v. induction tm as [|[k' v'] d IH]; simpl; intros Hget (item & Hi & Hn).
    { by apply elem_of_nil in Hi. }
    destruct (decide (k' = website)) as [->|Hne].
    - apply elem_of_cons in Hi as [->|Hi].
      + exists (website, v). split; [by left|]. by apply (Hget v').
      + exists item. split; [by right|done].
    - apply elem_of_cons in Hi as [->|Hi].
      + exists (k', v'). split; [by left|done].
      + destruct IH as (item' & Hi' & Hn'); [done|by exists item|].
        exists item'. split; [by right|done]. }
  intros Hk. destruct (ODict.get website tm) as [xs|] eqn:Hget; apply Hset;
    try done; intros v0 [= <-] Hin. apply elem_of_app. by left.
Qed.

Lemma kept_comment_append_new tm website com :
  kept_comment (ODict.append website com tm) com.
Proof.
  unfold ODict.append.
  destruct (ODict.get website tm) as [xs|]; eexists;
    (split; [apply odict_set_elem_new|]); simpl;
    [apply elem_of_app; right|]; by apply list_elem_of_singleton.
Qed.

Lemma kept_comment_append_inv tm website com com' :
  kept_comment (ODict.append website com tm) com' →
  com' = com ∨ kept_comment tm com'.
Proof.
  unfold ODict.append. intros (item & Hi & Hin).
  destruct (ODict.get website tm) as [xs|] eqn:Hget;
    apply odict_set_elem in Hi as [->|Hi]; simpl in Hin.
  - apply elem_of_app in Hin as [Hin|Hin%list_elem_of_singleton]; [|by left].
    right. exists (website, xs). split; [by apply odict_get_elem|done].
  - right. by exists item.
  - apply list_elem_of_singleton in Hin. by left.
  - right. by exists item.
Qed.

Lemma link_shape_append tm website com c :
  link_shape tm c → link_shape (ODict.append website com tm) c.
Proof.
  intros (Hsrc & Hdom & Hlow & [Hmain|(Horigin & com' & Hkept & Hauthor)]).
  - split_and!; try done. by left.
  - split_and!; try done. right. split; [done|].
    exists com'. split; [by apply kept_comment_append|done].
Qed.

Section LinksFacts.
Variable urlparse_netloc : string → result string.
Variable urlparse_path : string → result string.

Lemma shorten_link_lower s l d :
  _shorten_link urlparse_netloc s = inr (l, d) → Str.lower l = l.
Proof.
  intros [-> _]%shorten_link_inv. apply normalized_link_lower.
Qed.

Lemma main_links_shape tm website name links conns conns' :
  foldl (main_link_step urlparse_netloc website name) (inr conns) links
  = inr conns' →
  Forall (link_shape tm) conns → Forall (link_shape tm) conns'.
Proof.
  intros Hloop Hconns.
  eapply (foldl_result_inv _
            (λ conns l,
               if is_image_link l then mret conns
               else
                 '(l, domain) ← _shorten_link urlparse_netloc (trim_link l);
                 mret (conns ++ [((website, None), (l, Some domain), None,
                                  Some name)]))
            (Forall (link_shape tm))); [done| |exact Hconns|exact Hloop].
  intros cs l cs' _ Hcs. destruct (is_image_link l); [by intros [= <-]|].
  destruct (_shorten_link _ _) as [e|[l' d]] eqn:Hshort; [done|].
  simpl. intros [= <-]. apply Forall_app. split; [done|].
  constructor; [|constructor].
  split_and!; simpl; [done|by eexists|by eapply shorten_link_lower|].
  left. by split; [|eexists].
Qed.

Lemma troll_links_shape tm website com links conns conns' :
  kept_comment tm com →
  foldl (troll_link_step urlparse_netloc website (com_ahash com))
        (inr conns) links = inr conns' →
  Forall (link_shape tm) conns → Forall (link_shape tm) conns'.
Proof.
  intros Hkept Hloop Hconns.
  eapply (foldl_result_inv _
            (λ conns l,
               if negb (Str.has_char "." l) || negb (Str.has_char "/" l)
               then mret conns
               else
                 '(l, domain) ← _shorten_link urlparse_netloc l;
                 mret (conns ++ [((website, None), (l, Some domain),
                                  Some (com_ahash com), None)]))
            (Forall (link_shape tm))); [done| |exact Hconns|exact Hloop].
  intros cs l cs' _ Hcs. destruct (_ || _); [by intros [= <-]|].
  destruct (_shorten_link _ _) as [e|[l' d]] eqn:Hshort; [done|].
  simpl. intros [= <-]. apply Forall_app. split; [done|].
  constructor; [|constructor].
  split_and!; simpl; [done|by eexists|by eapply shorten_link_lower|].
  right. split; [done|]. by exists com.
Qed.

Lemma comments_loop_inv pages wd website st st' :
  wd ∈ pages →
  foldl (comment_step urlparse_netloc website) (inr st)
        (site_troll_comments wd) = inr st' →
  links_inv pages st → links_inv pages st'.
Proof.
  intros Hwd Hloop Hst.
  eapply (foldl_result_inv _
            (λ st com,
               let trolls_by_name :=
                 ODict.incr (com_author com) (trolls_by_name st) in
               let troll_map := ODict.append website com (troll_map st) in
               connections ←
                 foldl (troll_link_step urlparse_netloc website (com_ahash com))
                       (mret (links_connections st)) (com_links com);
               mret (mkLinksState connections (website_links st) troll_map
                       trolls_by_name))
            (links_inv pages)); [done| |exact Hst|exact Hloop].
  intros s com s' Hcom [Hshape Hfrom]. cbv zeta.
  destruct (foldl _ _ (com_links com)) as [e|conns] eqn:Hlinks; [done|].
  simpl. intros [= <-]. split; simpl.
  - eapply troll_links_shape; [|exact Hlinks|].
    + apply kept_comment_append_new.
    + eapply Forall_impl; [exact Hshape|]. intros c. apply link_shape_append.
  - intros com' [->|Hkept]%kept_comment_append_inv; [by exists wd|].
    by apply Hfrom.
Qed.

Lemma websites_loop_inv pages data st st' :
  (∀ wd, wd ∈ data → wd ∈ pages) →
  foldl (website_step urlparse_netloc urlparse_path) (inr st) data = inr st' →
  links_inv pages st → links_inv pages st'.
Proof.
  intros Hsub Hloop Hst.
  eapply (foldl_result_inv _
            (λ st wd, website_step urlparse_netloc urlparse_path (inr st) wd)
            (links_inv pages)); [|  |exact Hst|exact Hloop].
  { by intros [e|s] wd. }
  intros s wd s' Hwd [Hshape Hfrom]. unfold website_step.
  cbv [mbind result_bind mret result_ret].
  match goal with
  | |- context [if bool_decide ?P then ?a else ?b] =>
      destruct (if bool_decide P then a else b) as [e|[skip links]];
        [done|]
  end.
  destruct skip; [by intros [= <-]|].
  destruct (foldl _ _ (site_main_links wd)) as [e|conns] eqn:Hmain; [done|].
  intros Hcomments.
  eapply comments_loop_inv; [by apply Hsub|exact Hcomments|].
  split; simpl; [|done]. by eapply main_links_shape.
Qed.

Lemma get_links_and_comments_inv data conns tm :
  get_links_and_comments urlparse_netloc urlparse_path data = inr (conns, tm) →
  Forall (link_shape tm) conns ∧
  ∀ com, kept_comment tm com →
    ∃ wd, wd ∈ data ∧ com ∈ site_troll_comments wd.
Proof.
  unfold get_links_and_comments.
  destruct (foldl _ _ data) as [e|st] eqn:Hloop; [done|].
  simpl. intros [= <- <-].
  eapply (websites_loop_inv data data); [done|exact Hloop|].
  split; simpl; [constructor|].
  by intros com (item & ?%elem_of_nil & _).
Qed.

(** X15. Every connection that [get_links_and_comments] returns has a
    source without domain and a target with a domain and a link in lower
    case; it carries either the name of the page whose content linked to
    the target, or the hash of a comment that is kept in the returned
    [troll_comments], never both; and every kept comment is a comment of
    one of the pages. *)
Theorem links_and_comments_shape data conns tm :
  get_links_and_comments urlparse_netloc urlparse_path data = inr (conns, tm) →
  Forall (link_shape tm) conns ∧
  ∀ com, kept_comment tm com →
    ∃ wd, wd ∈ data ∧ com ∈ site_troll_comments wd.
Proof. apply get_links_and_comments_inv. Qed.

End LinksFacts.

Lemma links_and_comments_shape_witness :
  Forall (link_shape two_pages_links.2) two_pages_links.1 ∧
  ∀ com, kept_comment two_pages_links.2 com →
    ∃ wd, wd ∈ two_pages ∧ com ∈ site_troll_comments wd.
Proof.
  apply (links_and_comments_shape Urlparse.netloc UrlparsePath.path two_pages).
  vm_compute. reflexivity.
Defined.

(** * The run of the script *)

Lemma save_comments_styled (styling : gmap string (string * string))
    (tm : odict string (list com_data)) file :
  _save_comments styling tm = inr file →
  ∀ com, kept_comment tm com → is_Some (styling !! com_ahash com).
Proof.
  unfold _save_comments.
  pose proof (save_loop_outcome styling tm []) as H.
  change (inr []) with (mret [] : result (list string)) in H.
  destruct (foldl _ (mret []) tm) as [e|textlines]; [done|].
  intros _ com (item & Hin & Hcom). by eapply H.
Qed.

(** The hashes that [_save_comments] has looked up are the attributions
    of the connections. *)
Lemma saved_comments_authors (N P : string → result string)
    (styling : gmap string (string * string)) data conns tm file :
  get_links_and_comments N P data = inr (conns, tm) →
  _save_comments styling tm = inr file →
  Forall (author_ok styling) conns.
Proof.
  intros [Hshape _]%get_links_and_comments_inv Hsave.
  eapply Forall_impl; [exact Hshape|].
  intros c (_ & _ & _ & [[Hnone _]|(_ & com & Hkept & Hauthor)]) a Ha _.
  - congruence.
  - rewrite Hauthor in Ha. injection Ha as <-.
    by eapply save_comments_styled.
Qed.

Lemma formats_connections quote W self1 self2 :
  formats quote W self1 self2 → connections self2 = connections self1.
Proof.
  induction 1 as [|s1 s2 s3 t [n g] _ IH Hstep]; [done|].
  apply format_node_inr in Hstep as (_ & _ & _ & _ & _ & _ & Hc).
  congruence.
Qed.

Section Run.
Variable wrap : string → nat → list string.
Variable quote : string → string.
Variable set_iter : list Z → list Z.
Variable urlparse_netloc : string → result string.
Variable urlparse_path : string → result string.
Variable SPECIAL_USER_STYLING : gmap string (string * string).
Variable cm : odict string string.
Variable MAX_NODE_LINE_LENGTH : nat.
Variable MAX_NODES_IN_COLUMN BASE_EDGE_WIDTH : Z.
Variable MINIMIZE_EDGE_NUMBER : bool.
Hypothesis set_iter_ok : ∀ l, set_contract set_iter l.
Hypothesis cm_nonempty : cm ≠ [].
Hypothesis cm_literal : Forall (λ k, literal_key k) (ODict.keys cm).
Hypothesis width_positive : (0 < MAX_NODE_LINE_LENGTH)%nat.

(** Once the body has returned, [make_graph] returns, or it raises
    [IndexError]; the connections of the instance are left as they
    were. *)
Lemma make_graph_outcome self self' b :
  _make_graph_body wrap quote SPECIAL_USER_STYLING cm MAX_NODE_LINE_LENGTH
    self = inr (self', b) →
  connections self' = connections self ∧
  ((∃ text,
      make_graph wrap quote set_iter SPECIAL_USER_STYLING cm
        MAX_NODE_LINE_LENGTH MAX_NODES_IN_COLUMN BASE_EDGE_WIDTH
        MINIMIZE_EDGE_NUMBER self = inr (self', text))
   ∨ make_graph wrap quote set_iter SPECIAL_USER_STYLING cm
       MAX_NODE_LINE_LENGTH MAX_NODES_IN_COLUMN BASE_EDGE_WIDTH
       MINIMIZE_EDGE_NUMBER self = inl IndexError).
Proof using set_iter_ok.
  intros Hbody. split.
  { eapply formats_connections, body_loop_formats. exact Hbody. }
  destruct (make_graph_after_body wrap quote set_iter SPECIAL_USER_STYLING cm
              MAX_NODE_LINE_LENGTH MAX_NODES_IN_COLUMN BASE_EDGE_WIDTH
              MINIMIZE_EDGE_NUMBER self self' b set_iter_ok Hbody)
    as (ordered & _ & _ & Hplace).
  destruct (decide (Exists (λ nc : Z * string,
                              Some nc.2 ≠ starting_cluster self') ordered))
    as [Hex|Hall].
  - destruct (place_nodes_in_grid_returns MAX_NODES_IN_COLUMN self' ordered
                (body_connections b) Hex) as [grid Hgrid].
    rewrite Hgrid in Hplace. by left.
  - apply not_Exists_Forall in Hall; [|apply _].
    rewrite (place_nodes_in_grid_raises MAX_NODES_IN_COLUMN self' ordered)
      in Hplace; [by right|].
    eapply Forall_impl; [exact Hall|]. simpl. intros nc Hnc.
    by destruct (decide (Some nc.2 = starting_cluster self')).
Qed.

(** X16. When [_save_comments] has returned for the comments that
    [get_links_and_comments] collected, [_make_graph_body] cannot fail on
    the connections collected with them: every attribution has been
    looked up already (non-empty cluster map without wild cards, positive
    line length). *)
Theorem saved_comments_guard_graph_body (starting_cluster : string)
    data conns tm file :
  get_links_and_comments urlparse_netloc urlparse_path data = inr (conns, tm) →
  _save_comments SPECIAL_USER_STYLING tm = inr file →
  ∃ r, _make_graph_body wrap quote SPECIAL_USER_STYLING cm
         MAX_NODE_LINE_LENGTH (graph_maker cm starting_cluster conns) = inr r.
Proof using cm_nonempty cm_literal width_positive.
  intros Hlinks Hsave.
  apply graph_body_literal; [done..|].
  by eapply saved_comments_authors.
Qed.

(** X17. Once [comments.txt] is written and there are connections, the
    run either writes [graph.gv] and then [links.txt], the latter from
    the connections that were collected, or it ends with [IndexError]
    before either of the two is written (non-empty cluster map without
    wild cards, positive line length, sets that yield each member
    once). *)
Theorem analysis_after_comments (starting_cluster : string)
    data conns tm file :
  get_links_and_comments urlparse_netloc urlparse_path data = inr (conns, tm) →
  _save_comments SPECIAL_USER_STYLING tm = inr file →
  conns ≠ [] →
  let run :=
    analyze_data wrap quote set_iter urlparse_netloc urlparse_path
      SPECIAL_USER_STYLING cm MAX_NODE_LINE_LENGTH MAX_NODES_IN_COLUMN
      BASE_EDGE_WIDTH MINIMIZE_EDGE_NUMBER (Some cm) (Some starting_cluster)
      data in
  run = (_save_website_data data ++ [file], Some IndexError)
  ∨ ∃ graph,
      run = ((_save_website_data data ++ [file]) ++ [("graph.gv", graph)]
             ++ [_save_url_counts (_get_url_counts conns)], None).
Proof using set_iter_ok cm_nonempty cm_literal width_positive.
  intros Hlinks Hsave Hconns run. subst run. unfold analyze_data.
  destruct data as [|wd data].
  { injection Hlinks as <- _. done. }
  rewrite Hlinks, Hsave.
  destruct conns as [|c conns']; [done|].
  set (conns := c :: conns') in *. 
  destruct (graph_body_literal wrap quote SPECIAL_USER_STYLING cm
              MAX_NODE_LINE_LENGTH cm_nonempty cm_literal starting_cluster
              conns) as [[self' b] Hbody].
  { by eapply saved_comments_authors. }
  change (set_connections (GraphCreator_init (Some cm) (Some starting_cluster))
            conns)
    with (graph_maker cm starting_cluster conns).
  destruct (make_graph_outcome _ _ _ Hbody) as [Hsame [[text ->]| ->]].
  - right. exists text. destruct self'. simpl in Hsame. subst.
    by rewrite <- !app_assoc.
  - by left.
Qed.
End Run.

Lemma saved_comments_guard_graph_body_witness :
  ∃ r, _make_graph_body wrap_plain quote_plain main_SPECIAL_USER_STYLING
         plain_WEBSITES_TO_CLUSTERS default_MAX_NODE_LINE_LENGTH
         (graph_maker plain_WEBSITES_TO_CLUSTERS STARTING_CLUSTER
            two_pages_links.1) = inr r.
Proof.
  apply (saved_comments_guard_graph_body wrap_plain quote_plain
           Urlparse.netloc UrlparsePath.path main_SPECIAL_USER_STYLING
           plain_WEBSITES_TO_CLUSTERS default_MAX_NODE_LINE_LENGTH
           ltac:(done) ltac:(repeat constructor)
           ltac:(unfold default_MAX_NODE_LINE_LENGTH; lia)
           STARTING_CLUSTER two_pages two_pages_links.1 two_pages_links.2
           two_pages_comments).
  - vm_compute. reflexivity.
  - vm_compute. reflexivity.
Defined.

Lemma analysis_after_comments_witness :
  let run :=
    analyze_data wrap_plain quote_plain set_iter_slots Urlparse.netloc
      UrlparsePath.path main_SPECIAL_USER_STYLING plain_WEBSITES_TO_CLUSTERS
      default_MAX_NODE_LINE_LENGTH default_MAX_NODES_IN_COLUMN
      default_BASE_EDGE_WIDTH default_MINIMIZE_EDGE_NUMBER
      (Some plain_WEBSITES_TO_CLUSTERS) (Some STARTING_CLUSTER) two_pages in
  run = (_save_website_data two_pages ++ [two_pages_comments], Some IndexError)
  ∨ ∃ graph,
      run = ((_save_website_data two_pages ++ [two_pages_comments])
             ++ [("graph.gv", graph)]
             ++ [_save_url_counts (_get_url_counts two_pages_links.1)], None).
Proof.
  apply (analysis_after_comments wrap_plain quote_plain set_iter_slots
           Urlparse.netloc UrlparsePath.path main_SPECIAL_USER_STYLING
           plain_WEBSITES_TO_CLUSTERS default_MAX_NODE_LINE_LENGTH
           default_MAX_NODES_IN_COLUMN default_BASE_EDGE_WIDTH
           default_MINIMIZE_EDGE_NUMBER set_iter_slots_contract
           ltac:(done) ltac:(repeat constructor)
           ltac:(unfold default_MAX_NODE_LINE_LENGTH; lia)
           STARTING_CLUSTER two_pages two_pages_links.1 two_pages_links.2
           two_pages_comments).
  - vm_compute. reflexivity.
  - vm_compute. reflexivity.
  - done.
Defined.


(** * Names that the anonymization removes *)

Lemma startswith_has_char N t c :
  Str.startswith N t = true → Str.has_char c N = true → Str.has_char c t = true.
Proof.
  revert t. induction N as [|a N IH]; intros t; [done|].
  destruct t as [|b t]; [done|]. simpl.
  destruct (decide (a = b)) as [->|]; [|done].
  intros Hst. destruct (decide (b = c)); [done|]. by apply IH.
Qed.

Lemma contains_has_char N t c :
  Str.contains N t = true → Str.has_char c N = true → Str.has_char c t = true.
Proof.
  induction t as [|b t IH]; simpl.
  - rewrite orb_false_r. apply startswith_has_char.
  - intros [Hst|Hin]%orb_true_iff Hc.
    + by apply (startswith_has_char N (String b t) c).
    + destruct (decide (b = c)); [done|]. by apply IH.
Qed.

Lemma contains_nil N : Str.truthy N → Str.contains N "" = false.
Proof. by destruct N. Qed.

Lemma contains_cons N c s :
  Str.contains N (String c s) = Str.startswith N (String c s) || Str.contains N s.
Proof. done. Qed.

(** A prefix that lacks a character ends before that character. *)
Lemma startswith_barrier N u b X :
  Str.has_char b N = false →
  Str.startswith N (u +:+ String b X) = true → Str.startswith N u = true.
Proof.
  revert u. induction N as [|a N IH]; intros u Hb; [by destruct u|].
  simpl in Hb. destruct (decide (a = b)) as [|Hab]; [done|].
  destruct u as [|c u].
  - rewrite append_nil. simpl. by rewrite decide_False.
  - rewrite append_cons. simpl. destruct (decide (a = c)); [|done].
    by apply IH.
Qed.

Lemma contains_barrier N u b X :
  Str.truthy N → Str.has_char b N = false →
  Str.contains N u = false → Str.contains N X = false →
  Str.contains N (u +:+ String b X) = false.
Proof.
  intros HN Hb. induction u as [|c u IH]; intros Hu HX.
  - rewrite append_nil, contains_cons, HX, orb_false_r.
    destruct N as [|a N]; [done|]. simpl in *.
    destruct (decide (a = b)); [done|]. done.
  - rewrite append_cons, contains_cons.
    rewrite contains_cons in Hu. apply orb_false_iff in Hu as [Hst Hu].
    rewrite (IH Hu HX), orb_false_r.
    destruct (Str.startswith N (String c (u +:+ String b X))) eqn:Hs; [|done].
    rewrite <- append_cons in Hs. apply startswith_barrier in Hs; [|done].
    congruence.
Qed.

(** A bracketed block that does not hold the name does not bring it
    back. *)
Lemma contains_block N body X :
  Str.truthy N →
  Str.has_char "[" N = false → Str.has_char "]" N = false →
  Str.contains N body = false → Str.contains N X = false →
  Str.contains N (String "[" (body +:+ "]") +:+ X) = false.
Proof.
  intros HN Hl Hr Hbody HX.
  rewrite append_cons, append_assoc, append_cons, append_nil, contains_cons.
  rewrite (contains_barrier N body "]" X) by done.
  rewrite orb_false_r. destruct N as [|a N]; [done|].
  simpl in *. by destruct (decide (a = "["%char)).
Qed.

Section ReplaceFacts.
Variables (N old body : string).
Hypothesis N_truthy : Str.truthy N.
Hypothesis N_left : Str.has_char "[" N = false.
Hypothesis N_right : Str.has_char "]" N = false.
Hypothesis N_body : Str.contains N body = false.

Abbreviation block := (String "[" (body +:+ "]")).

(** What the replaced text starts with, up to the first bracket, the
    text started with. *)
Lemma replace_go_prefix M s :
  Str.has_char "[" M = false →
  Str.startswith M (Str.replace_go old block s 0) = true →
  Str.startswith M s = true.
Proof.
  revert M. induction s as [|c s IH]; intros M HM; [done|].
  cbn [Str.replace_go].
  destruct (Str.startswith old (String c s)).
  - rewrite append_cons. destruct M as [|a M]; [done|].
    simpl in *. by destruct (decide (a = "["%char)).
  - destruct M as [|a M]; [done|]. simpl in *.
    destruct (decide (a = "["%char)); [done|].
    destruct (decide (a = c)); [|done]. by apply IH.
Qed.

Lemma replace_go_clean s k :
  old = N ∨ Str.contains N s = false →
  Str.contains N (Str.replace_go old block s k) = false.
Proof using N_truthy N_left N_right N_body.
  revert k. induction s as [|c s IH]; intros k Hs.
  { by apply contains_nil. }
  assert (old = N ∨ Str.contains N s = false) as Hs'.
  { destruct Hs as [?|Hs]; [by left|right].
    rewrite contains_cons in Hs. by apply orb_false_iff in Hs as [_ ?]. }
  cbn [Str.replace_go]. destruct k as [|k]; [|by apply IH].
  destruct (Str.startswith old (String c s)) eqn:Hmatch.
  - apply contains_block; try done. by apply IH.
  - rewrite contains_cons, (IH 0%nat Hs'), orb_false_r.
    destruct (Str.startswith N (String c (Str.replace_go old block s 0)))
      eqn:Hst; [|done].
    assert (Str.startswith N (String c s) = true) as Hpre.
    { destruct N as [|a N']; [done|]. simpl in Hst, N_left |- *.
      destruct (decide (a = "["%char)); [done|].
      destruct (decide (a = c)); [|done].
      by apply (replace_go_prefix N' s). }
    destruct Hs as [->|Hs]; [congruence|].
    rewrite contains_cons in Hs. apply orb_false_iff in Hs as [? _].
    congruence.
Qed.

Lemma interleave_clean s :
  Str.contains N s = false →
  Str.contains N (Str.interleave block s) = false.
Proof using N_truthy N_left N_right N_body.
  induction s as [|c s IH]; intros Hs.
  { by apply contains_nil. }
  rewrite contains_cons in Hs. apply orb_false_iff in Hs as [Hst Hs].
  cbn [Str.interleave]. rewrite contains_cons.
  rewrite contains_block by (try done; by apply IH).
  rewrite orb_false_r.
  destruct N as [|a N']; [done|]. simpl in Hst, N_left |- *.
  destruct (decide (a = "["%char)); [done|].
  destruct (decide (a = c)); [|done].
  rewrite append_cons. destruct N' as [|a' N'']; [by destruct s|].
  simpl in N_left |- *. by destruct (decide (a' = "["%char)).
Qed.

(** [text.replace(old, block)] leaves no occurrence of the name when
    the name is what is replaced, and brings none when the text had
    none. *)
Lemma replace_clean text :
  old = N ∨ Str.contains N text = false →
  Str.contains N (Str.replace old block text) = false.
Proof using N_truthy N_left N_right N_body.
  intros Hs. unfold Str.replace. destruct old as [|a old'] eqn:Hold.
  - destruct Hs as [<-|Hs]; [done|].
    apply contains_block; try done. by apply interleave_clean.
  - rewrite <- Hold in *. by apply replace_go_clean.
Qed.
End ReplaceFacts.

Lemma uint_chars d c :
  Str.has_char c (NilEmpty.string_of_uint d) = true →
  Str.has_char c "0123456789" = true.
Proof.
  induction d as [|d IH|d IH|d IH|d IH|d IH|d IH|d IH|d IH|d IH|d IH];
    [done|..]; intros H; cbn [NilEmpty.string_of_uint Str.has_char] in H;
    (case_decide as Hc; [by subst c|by apply IH]).
Qed.

Lemma of_Z_chars n c :
  Str.has_char c (Str.of_Z n) = true →
  Str.has_char c "0123456789-" = true.
Proof.
  assert (∀ d, Str.has_char c (NilZero.string_of_uint d) = true →
               Str.has_char c "0123456789" = true) as Hu.
  { intros d. destruct d; try apply uint_chars.
    intros H. cbn [NilZero.string_of_uint Str.has_char] in H.
    by case_decide; subst. }
  assert (Str.has_char c "0123456789" = true →
          Str.has_char c "0123456789-" = true) as Hmore.
  { change "0123456789-" with ("0123456789" +:+ "-").
    rewrite has_char_app. by intros ->. }
  unfold Str.of_Z, NilZero.string_of_int.
  destruct (Z.to_int n) as [d|d].
  - intros H. by apply Hmore, (Hu d).
  - intros H. cbn [Str.has_char] in H.
    case_decide; [by subst|]. by apply Hmore, (Hu d).
Qed.

Lemma placeholder_body_chars (i : Z) (tail : string) c :
  (∀ x, Str.has_char x tail = true → Str.has_char x placeholder_chars = true) →
  Str.has_char c ("USER " +:+ Str.of_Z i +:+ tail) = true →
  Str.has_char c placeholder_chars = true.
Proof.
  intros Htail. rewrite !has_char_app.
  intros [H|[H|H]%orb_true_iff]%orb_true_iff.
  - cbn [Str.has_char] in H.
    repeat (case_decide; [by subst|]). done.
  - apply of_Z_chars in H. cbn [Str.has_char] in H.
    repeat (case_decide; [by subst|]). done.
  - by apply Htail.
Qed.

Lemma distinctive_body name (i : Z) (tail : string) :
  distinctive name →
  (∀ x, Str.has_char x tail = true → Str.has_char x placeholder_chars = true) →
  Str.contains name ("USER " +:+ Str.of_Z i +:+ tail) = false.
Proof.
  intros (_ & _ & _ & c & Hc & Hout) Htail.
  destruct (Str.contains name _) eqn:Hin; [|done].
  apply (contains_has_char _ _ c) in Hin; [|done].
  apply placeholder_body_chars in Hin; [|done]. congruence.
Qed.

Lemma user_tag_shape (i : Z) (tail : string) :
  "[USER " +:+ Str.of_Z i +:+ tail +:+ "]"
  = String "[" (("USER " +:+ Str.of_Z i +:+ tail) +:+ "]").
Proof. by rewrite !append_cons, !append_nil, !append_assoc. Qed.

Lemma name_tag_shape (i : Z) :
  "[USER " +:+ Str.of_Z i +:+ " NAME]"
  = String "[" (("USER " +:+ Str.of_Z i +:+ " NAME") +:+ "]").
Proof. rewrite !append_assoc. reflexivity. Qed.

(** One replacement by a placeholder: the name is gone when it is the
    name replaced, and does not come back otherwise. *)
Lemma replace_with_anonymous_id_clean name text user_name um :
  distinctive name →
  user_name = name ∨ Str.contains name text = false →
  Str.contains name (_replace_with_anonymous_id text user_name um).1.1 = false.
Proof.
  intros Hname Hs. unfold _replace_with_anonymous_id.
  pose proof Hname as (Ht & Hl & Hr & _).
  assert (∀ i, Str.contains name
                 (Str.replace user_name ("[USER " +:+ Str.of_Z i +:+ "]") text)
               = false) as Hi.
  { intros i.
    pose proof (user_tag_shape i "") as Hshape.
    rewrite append_nil in Hshape. rewrite Hshape.
    apply replace_clean; try done.
    by apply distinctive_body. }
  destruct (um !! user_name); simpl; apply Hi.
Qed.

Lemma anonymize_mention_clean name user_mention text um :
  distinctive name →
  lstrip_by (λ c, bool_decide (c = "@"%char)) user_mention = name
  ∨ Str.contains name text = false →
  Str.contains name (anonymize_mention user_mention text um).1 = false.
Proof.
  intros Hname Hs. unfold anonymize_mention.
  pose proof (replace_with_anonymous_id_clean name text
                (lstrip_by (λ c, bool_decide (c = "@"%char)) user_mention)
                um Hname Hs) as Hclean.
  destruct (_replace_with_anonymous_id _ _ _) as [[t i] um'].
  simpl in Hclean. cbn [fst].
  case_decide; [|done].
  pose proof Hname as (Ht & Hl & Hr & _).
  rewrite (name_tag_shape i).
  apply replace_clean; try done; [|by right].
  apply distinctive_body; [done|]. intros x Hx. cbn [Str.has_char] in Hx.
  repeat (case_decide; [by subst|]). done.
Qed.

Lemma startswith_rstrip p M s :
  Str.startswith M (rstrip_by p s) = true → Str.startswith M s = true.
Proof.
  revert M. induction s as [|c s IH]; intros M; [done|].
  cbn [rstrip_by]. destruct (p c && negb (Str.truthy (rstrip_by p s))).
  - by destruct M.
  - destruct M as [|a M]; [done|]. simpl.
    destruct (decide (a = c)); [|done]. apply IH.
Qed.

Lemma contains_rstrip p N s :
  Str.truthy N →
  Str.contains N s = false → Str.contains N (rstrip_by p s) = false.
Proof.
  intros HN. induction s as [|c s IH]; [done|].
  rewrite contains_cons. intros [Hst Hs]%orb_false_iff.
  cbn [rstrip_by].
  destruct (p c && negb (Str.truthy (rstrip_by p s))) eqn:Hp.
  { by apply contains_nil. }
  rewrite contains_cons, (IH Hs), orb_false_r.
  destruct (Str.startswith N (String c (rstrip_by p s))) eqn:Hs'; [|done].
  assert (Str.startswith N (String c s) = true); [|congruence].
  apply (startswith_rstrip p). cbn [rstrip_by]. by rewrite Hp.
Qed.

Lemma contains_lstrip p N s :
  Str.contains N s = false → Str.contains N (lstrip_by p s) = false.
Proof.
  induction s as [|c s IH]; [done|].
  intros Hs. cbn [lstrip_by]. destruct (p c); [|done].
  apply IH. rewrite contains_cons in Hs. by apply orb_false_iff in Hs as [_ ?].
Qed.

Lemma mentions_loop_clean name usr_mentions text um :
  distinctive name →
  (∃ mention, mention ∈ usr_mentions ∧
     lstrip_by (λ c, bool_decide (c = "@"%char)) mention = name)
  ∨ Str.contains name text = false →
  Str.contains name
    (foldl (λ (acc : string * gmap string Z) user_mention,
              anonymize_mention user_mention acc.1 acc.2)
           (text, um) usr_mentions).1 = false.
Proof.
  intros Hname. revert text um.
  induction usr_mentions as [|m ms IH]; intros text um Hs.
  { destruct Hs as [(m & ?%elem_of_nil & _)|?]; done. }
  cbn [foldl fst snd].
  destruct (anonymize_mention m text um) as [t um1] eqn:Hm.
  apply IH.
  destruct (decide (lstrip_by (λ c, bool_decide (c = "@"%char)) m = name))
    as [Heq|Hne].
  - right. change t with (t, um1).1. rewrite <- Hm.
    apply anonymize_mention_clean; [done|by left].
  - destruct Hs as [(m' & [->|Hin]%elem_of_cons & Hm')|Hclean].
    + done.
    + left. by exists m'.
    + right. change t with (t, um1).1. rewrite <- Hm.
      apply anonymize_mention_clean; [done|by right].
Qed.

Lemma names_loop_clean name (names : list string) text um :
  distinctive name →
  Str.contains name text = false →
  Str.contains name
    (foldl (λ (acc : string * gmap string Z) name,
              let '(text, _, user_map) :=
                _replace_with_anonymous_id acc.1 name acc.2 in
              (text, user_map))
           (text, um) names).1 = false.
Proof.
  intros Hname. revert text um.
  induction names as [|n ns IH]; intros text um Hs; [done|].
  cbn [foldl fst snd].
  pose proof (replace_with_anonymous_id_clean name text n um Hname
                (or_intror Hs)) as Hclean.
  destruct (_replace_with_anonymous_id text n um) as [[t i] um1].
  by apply IH.
Qed.

(** X18. [anonymize_names] removes from the text every mentioned user
    whose name is distinctive: a name that is not empty, has no square
    bracket, and has a character that occurs in no placeholder does not
    occur in the text that is stored back, whatever else is replaced. *)
Theorem anonymize_names_removes_mentions usr_mentions author_re text um
    nameset mention :
  mention ∈ usr_mentions →
  distinctive (lstrip_by (λ c, bool_decide (c = "@"%char)) mention) →
  Str.contains (lstrip_by (λ c, bool_decide (c = "@"%char)) mention)
    (anonymize_names usr_mentions author_re text um nameset).1.1 = false.
Proof.
  intros Hin Hname.
  set (name := lstrip_by (λ c, bool_decide (c = "@"%char)) mention) in *.
  unfold anonymize_names.
  pose proof (mentions_loop_clean name usr_mentions text um Hname) as H1.
  destruct (foldl _ (text, um) usr_mentions) as [t1 um1].
  simpl in H1. specialize (H1 (or_introl (ex_intro _ mention (conj Hin eq_refl)))).
  cbv beta iota zeta.
  assert (Str.contains name (strip t1) = false) as Hstrip.
  { unfold strip. apply contains_rstrip; [by destruct Hname|].
    by apply contains_lstrip. }
  match goal with
  | |- context [match ?e with (_, _) => _ end] =>
      match e with
      | (if _ then _ else _) => destruct e as [t2 um2] eqn:Hstage
      end
  end.
  assert (Str.contains name t2 = false) as H2.
  { destruct (_ || _); [|by injection Hstage as <- <-].
    pose proof (replace_with_anonymous_id_clean name (strip t1)
                  (default "" (head (Str.split Str.NL (strip t1)))) um1
                  Hname (or_intror Hstrip)) as Hclean.
    destruct (_replace_with_anonymous_id _ _ _) as [[t i] um'].
    by injection Hstage as <- <-. }
  clear Hstage. destruct author_re as [findall|]; [|done].
  pose proof (names_loop_clean name
                (sorted_desc_by String.leb (findall t2)) t2 um2 Hname H2) as H3.
  by destruct (foldl _ (t2, um2) _) as [t3 um3].
Qed.

Lemma anonymize_names_removes_mentions_witness :
  Str.contains "Duke Nukem"
    (anonymize_names ["@Duke Nukem"] (Some (λ _, ["Popeye"]))
       "Hi @Duke Nukem you and Popeye are right, Duke Nukem" ∅ ∅).1.1 = false.
Proof.
  apply (anonymize_names_removes_mentions ["@Duke Nukem"]
           (Some (λ _, ["Popeye"]))
           "Hi @Duke Nukem you and Popeye are right, Duke Nukem" ∅ ∅
           "@Duke Nukem").
  - by left.
  - split_and!; [done..|]. exists "k"%char. by split.
Defined.


(** * The text of the graph *)

Lemma template_head_shape (BASE : Z) :
  GRAPH_TEMPLATE BASE
  = template_head BASE
    +:+ ("@@NODES@@" +:+ Str.nl +:+ Str.nl +:+ "@@CLUSTERS@@" +:+ Str.nl
         +:+ Str.nl +:+ "@@CONNS@@" +:+ Str.nl +:+ "}").
Proof.
  unfold GRAPH_TEMPLATE, template_head, DEFAULT_GRAPH_PARAMS.
  cbn [fmap list_fmap Str.join].
  rewrite !append_assoc. reflexivity.
Qed.


Lemma replace_go_free a old' new u v :
  Str.has_char a u = false →
  Str.replace_go (String a old') new (u +:+ v) 0
  = u +:+ Str.replace_go (String a old') new v 0.
Proof.
  induction u as [|c u IH]; intros Hu.
  { by rewrite !append_nil. }
  simpl in Hu. destruct (decide (c = a)) as [|Hne]; [done|].
  rewrite !append_cons. cbn [Str.replace_go Str.startswith].
  rewrite decide_False by done. by rewrite IH.
Qed.

Lemma replace_go_skip old new u v :
  Str.replace_go old new (u +:+ v) (String.length u)
  = Str.replace_go old new v 0.
Proof.
  induction u as [|c u IH]; [by rewrite append_nil; destruct v|].
  rewrite append_cons. cbn [Str.replace_go String.length]. exact IH.
Qed.

Lemma startswith_app old rest : Str.startswith old (old +:+ rest) = true.
Proof.
  induction old as [|a old IH]; [done|].
  rewrite append_cons. simpl. by rewrite decide_True.
Qed.

(** The first occurrence of a marker, after a text without [@]. *)
Lemma replace_at_marker a old' new prefix rest :
  Str.has_char a prefix = false →
  Str.replace (String a old') new (prefix +:+ String a old' +:+ rest)
  = prefix +:+ new +:+ Str.replace_go (String a old') new rest 0.
Proof.
  intros Hp. unfold Str.replace. rewrite replace_go_free by done.
  f_equal. rewrite append_cons. cbn [Str.replace_go].
  rewrite <- append_cons, startswith_app. f_equal.
  cbn [String.length]. rewrite Nat.sub_succ, Nat.sub_0_r.
  apply replace_go_skip.
Qed.

Lemma of_Z_no_at n : Str.has_char "@" (Str.of_Z n) = false.
Proof.
  destruct (Str.has_char "@" (Str.of_Z n)) eqn:H; [|done].
  by apply of_Z_chars in H.
Qed.

Lemma template_head_no_at BASE : Str.has_char "@" (template_head BASE) = false.
Proof.
  unfold template_head. rewrite !has_char_app, of_Z_no_at. reflexivity.
Qed.

(** X19. Filling the template: when the text of the nodes and the text
    of the clusters hold no [@], the three replacements that [make_graph]
    makes in [GRAPH_TEMPLATE] put each text at its marker and nowhere
    else, whatever the text of the edges is. *)
Theorem graph_template_filled (BASE : Z) (node_info cluster_info conns : string) :
  Str.has_char "@" node_info = false →
  Str.has_char "@" cluster_info = false →
  Str.replace "@@CONNS@@" conns
    (Str.replace "@@CLUSTERS@@" cluster_info
       (Str.replace "@@NODES@@" node_info (GRAPH_TEMPLATE BASE)))
  = template_head BASE +:+ node_info +:+ Str.nl +:+ Str.nl
    +:+ cluster_info +:+ Str.nl +:+ Str.nl +:+ conns +:+ Str.nl +:+ "}".
Proof.
  intros Hn Hc.
  assert (Str.replace "@@NODES@@" node_info (GRAPH_TEMPLATE BASE)
          = (template_head BASE +:+ node_info +:+ Str.nl +:+ Str.nl)
            +:+ "@@CLUSTERS@@"
            +:+ (Str.nl +:+ Str.nl +:+ "@@CONNS@@" +:+ Str.nl +:+ "}")) as ->.
  { rewrite template_head_shape.
    rewrite (replace_at_marker "@" "@NODES@@" node_info (template_head BASE))
      by apply template_head_no_at.
    rewrite !append_assoc. reflexivity. }
  assert (Str.replace "@@CLUSTERS@@" cluster_info
            ((template_head BASE +:+ node_info +:+ Str.nl +:+ Str.nl)
             +:+ "@@CLUSTERS@@"
             +:+ (Str.nl +:+ Str.nl +:+ "@@CONNS@@" +:+ Str.nl +:+ "}"))
          = (template_head BASE +:+ node_info +:+ Str.nl +:+ Str.nl
             +:+ cluster_info +:+ Str.nl +:+ Str.nl)
            +:+ "@@CONNS@@" +:+ (Str.nl +:+ "}")) as ->.
  { rewrite (replace_at_marker "@" "@CLUSTERS@@" cluster_info).
    - rewrite !append_assoc. reflexivity.
    - rewrite !has_char_app, template_head_no_at, Hn. reflexivity. }
  rewrite (replace_at_marker "@" "@CONNS@@" conns).
  - rewrite !append_assoc. reflexivity.
  - rewrite !has_char_app, template_head_no_at, Hn, Hc. reflexivity.
Qed.

Lemma graph_template_filled_witness :
  Str.replace "@@CONNS@@" "  1 -> 2;"
    (Str.replace "@@CLUSTERS@@" Str.nl
       (Str.replace "@@NODES@@" first_node_line
          (GRAPH_TEMPLATE default_BASE_EDGE_WIDTH)))
  = template_head default_BASE_EDGE_WIDTH +:+ first_node_line +:+ Str.nl
    +:+ Str.nl +:+ Str.nl +:+ Str.nl +:+ Str.nl +:+ "  1 -> 2;" +:+ Str.nl
    +:+ "}".
Proof.
  apply (graph_template_filled default_BASE_EDGE_WIDTH first_node_line
           Str.nl "  1 -> 2;"); reflexivity.
Defined.

(** A node text that holds a marker is filled in with the rest. *)
Example graph_template_marker_in_node :
  Str.replace "@@CONNS@@" "EDGES"
    (Str.replace "@@CLUSTERS@@" Str.nl
       (Str.replace "@@NODES@@" "1 [label=@@CONNS@@]"
          (GRAPH_TEMPLATE default_BASE_EDGE_WIDTH)))
  = template_head default_BASE_EDGE_WIDTH +:+ "1 [label=EDGES]" +:+ Str.nl
    +:+ Str.nl +:+ Str.nl +:+ Str.nl +:+ Str.nl +:+ "EDGES" +:+ Str.nl +:+ "}".
Proof. vm_compute. reflexivity. Qed.


(** * Pages saved more than once *)

Section Duplicates.
Variable urlparse_netloc : string → result string.
Variable urlparse_path : string → result string.




End Duplicates.

